(** * Depth heads of OLA-VLM ([ola_vlm/model/aux_heads/da_v2_head.py])

    A shallow embedding of the forward passes of the depth heads, over a
    small model of the tensor library they are written against.

    - A tensor is a shape, a total function from multi-indices to values
      and the [requires_grad] and [is_leaf] flags.  Values are IEEE 754
      binary32 numbers (finite numbers, signed zeros, infinities and NaN)
      with round-to-nearest-even arithmetic; sums are accumulated in index
      order.  The error function used by GELU is a section variable.
    - Library calls that can fail return a [result]; the ambient
      gradient mode ([torch.is_grad_enabled()]) is read from the monad.
    - Modules are records; a forward pass that updates buffers (batch
      normalisation in training mode) returns the updated module. *)

From Stdlib Require Import NArith ZArith SpecFloat Lia List Bool.
From stdpp Require Import base option list strings gmap.
Import ListNotations.

Local Open Scope N_scope.

(** ** Exceptions and the library monad *)

Inductive exn : Type :=
| IndexError | ValueError | RuntimeError | AttributeError
| KeyError | TypeError | NotImplementedError.

Inductive result (A : Type) : Type :=
| Ok (a : A)
| Raise (e : exn).
Arguments Ok {A} a.
Arguments Raise {A} e.

(** A computation reads the gradient mode and returns or raises. *)
Definition M (A : Type) : Type := bool -> result A.

Definition ret {A} (a : A) : M A := fun _ => Ok a.
Definition raise {A} (e : exn) : M A := fun _ => Raise e.
Definition bind {A B} (m : M A) (k : A -> M B) : M B :=
  fun g => match m g with Ok a => k a g | Raise e => Raise e end.
(** [with torch.no_grad(): m] *)
Definition no_grad {A} (m : M A) : M A := fun _ => m false.

Notation "'let*' x ':=' m 'in' k" := (bind m (fun x => k))
  (at level 10, x pattern, m at level 100, k at level 200).

Definition is_ok {A} (r : result A) : bool :=
  match r with Ok _ => true | Raise _ => false end.

(** ** Values *)

(** [torch.float32]: the binary32 format has 24 bits of precision and the
    largest exponent 128. *)
Definition float32 : Type := spec_float.
Definition f32_prec : Z := 24.
Definition f32_emax : Z := 128.

Definition fadd (x y : float32) : float32 := SFadd f32_prec f32_emax x y.
Definition fsub (x y : float32) : float32 := SFsub f32_prec f32_emax x y.
Definition fmul (x y : float32) : float32 := SFmul f32_prec f32_emax x y.
Definition fdiv (x y : float32) : float32 := SFdiv f32_prec f32_emax x y.
Definition fsqrt (x : float32) : float32 := SFsqrt f32_prec f32_emax x.

(** The value of a natural number, rounded to the format. *)
Definition fofN (n : N) : float32 :=
  binary_normalize f32_prec f32_emax (Z.of_N n) 0 false.

Definition fzero : float32 := S754_zero false.
Definition fone : float32 := fofN 1.
Definition fnan : float32 := S754_nan.

(** [x < y] and [x <= y]; both are false when an argument is NaN. *)
Definition fltb (x y : float32) : bool := SFltb x y.
Definition fleb (x y : float32) : bool := SFleb x y.

Definition is_nan (x : float32) : bool :=
  match x with S754_nan => true | _ => false end.

(** [int(floor(x))] of a value that is not negative; zero otherwise. *)
Definition floorN (x : float32) : N :=
  match x with
  | S754_finite false m e => Z.to_N (Z.shiftl (Z.pos m) e)
  | _ => 0
  end.

Declare Scope float32_scope.
Delimit Scope float32_scope with F.
Bind Scope float32_scope with float32.
Notation "x + y" := (fadd x y) : float32_scope.
Notation "x - y" := (fsub x y) : float32_scope.
Notation "x * y" := (fmul x y) : float32_scope.
Notation "x / y" := (fdiv x y) : float32_scope.

(** ** Tensors *)

(** [is_leaf] tells a tensor the caller or a constructor made from the
    result of an operation that records gradient history. *)
Record Tensor : Type := mkTensor {
  shape : list N;
  data : list N -> float32;
  requires_grad : bool;
  is_leaf : bool
}.

Definition numel_of (s : list N) : N := fold_right N.mul 1 s.
Definition numel (t : Tensor) : N := numel_of (shape t).
Definition rank (t : Tensor) : nat := length (shape t).

(** [ix idx k]: component [k] of a multi-index. *)
Definition ix (idx : list N) (k : nat) : N := nth k idx 0.

Fixpoint in_bounds (idx s : list N) : Prop :=
  match idx, s with
  | [], [] => True
  | i :: idx', d :: s' => i < d /\ in_bounds idx' s'
  | _, _ => False
  end.

Definition rangeN (n : N) : list N := map N.of_nat (seq 0 (N.to_nat n)).
(** [f 0 + f 1 + ... + f (n - 1)], accumulated from the left. *)
Definition sumF (n : N) (f : N -> float32) : float32 :=
  fold_left (fun acc i => (acc + f i)%F) (rangeN n) fzero.

(** Row-major offset of a multi-index, and back. *)
Fixpoint flatten_index (s idx : list N) : N :=
  match s, idx with
  | _ :: s', i :: idx' => i * numel_of s' + flatten_index s' idx'
  | _, _ => 0
  end.
Fixpoint unflatten_index (s : list N) (off : N) : list N :=
  match s with
  | [] => []
  | _ :: s' => (off / numel_of s') :: unflatten_index s' (off mod numel_of s')
  end.

(** The result of an operation records gradient history only when the
    gradient mode is on and one of its inputs does; it is a leaf exactly
    when it records none. *)
Definition out_of (g : bool) (s : list N) (f : list N -> float32) (rg : bool)
    : Tensor :=
  {| shape := s; data := f; requires_grad := g && rg; is_leaf := negb (g && rg) |}.

Definition op (s : list N) (f : list N -> float32) (rg : bool) : M Tensor :=
  fun g => Ok (out_of g s f rg).

(** [torch.is_grad_enabled()] *)
Definition grad_enabled : M bool := fun g => Ok g.

(** *** Views *)

Fixpoint index_of (j : nat) (dims : list nat) : nat :=
  match dims with
  | [] => O
  | d :: dims' => if Nat.eqb d j then O else S (index_of j dims')
  end.

Definition is_permutation (dims : list nat) (n : nat) : bool :=
  Nat.eqb (length dims) n
  && forallb (fun j => existsb (Nat.eqb j) dims) (seq 0 n).

(** [x.permute(dims)] *)
Definition permute (x : Tensor) (dims : list nat) : M Tensor :=
  if is_permutation dims (rank x) then
    op (map (fun d => nth d (shape x) 0) dims)
       (fun idx => data x (map (fun j => ix idx (index_of j dims)) (seq 0 (rank x))))
       (requires_grad x)
  else raise RuntimeError.

(** [x.reshape(sizes)], with explicit sizes. *)
Definition reshape (x : Tensor) (sizes : list N) : M Tensor :=
  if numel_of sizes =? numel x then
    op sizes
       (fun idx => data x (unflatten_index (shape x) (flatten_index sizes idx)))
       (requires_grad x)
  else raise RuntimeError.

Definition insert_at {A} (d : nat) (a : A) (l : list A) : list A :=
  firstn d l ++ a :: skipn d l.
Definition remove_at {A} (d : nat) (l : list A) : list A :=
  firstn d l ++ skipn (S d) l.

(** [x.unsqueeze(d)] for [0 <= d <= rank]. *)
Definition unsqueeze (x : Tensor) (d : nat) : M Tensor :=
  if Nat.leb d (rank x) then
    op (insert_at d 1 (shape x)) (fun idx => data x (remove_at d idx)) (requires_grad x)
  else raise IndexError.

(** [x.squeeze(d)]: drops axis [d] when it has size one. *)
Definition squeeze (x : Tensor) (d : nat) : M Tensor :=
  if Nat.ltb d (rank x) then
    if nth d (shape x) 0 =? 1 then
      op (remove_at d (shape x)) (fun idx => data x (insert_at d 0 idx)) (requires_grad x)
    else op (shape x) (data x) (requires_grad x)
  else raise IndexError.

(** [x[i]]: integer index on the first axis. *)
Definition select0 (x : Tensor) (i : N) : M Tensor :=
  match shape x with
  | [] => raise IndexError
  | d :: s' =>
      if i <? d then op s' (fun idx => data x (i :: idx)) (requires_grad x)
      else raise IndexError
  end.

(** Broadcasting: shapes are aligned on the right; each axis of the source
    has the target size or size one. *)
Definition pad_left (n : nat) (s : list N) : list N :=
  repeat 1 (n - length s)%nat ++ s.

Definition broadcastable_to (s t : list N) : bool :=
  Nat.leb (length s) (length t)
  && forallb (fun p => (fst p =? snd p) || (fst p =? 1))
       (combine (pad_left (length t) s) t).

Definition broadcast_index (s t idx : list N) : list N :=
  skipn (length t - length s)%nat
    (map (fun p => if fst p =? 1 then 0 else snd p)
         (combine (pad_left (length t) s) idx)).

Definition broadcast_shapes (s t : list N) : option (list N) :=
  let n := Nat.max (length s) (length t) in
  let ps := combine (pad_left n s) (pad_left n t) in
  if forallb (fun p => (fst p =? snd p) || (fst p =? 1) || (snd p =? 1)) ps
  then Some (map (fun p => if fst p =? 1 then snd p else fst p) ps)
  else None.

(** [x.expand_as(other)] *)
Definition expand_as (x other : Tensor) : M Tensor :=
  if broadcastable_to (shape x) (shape other) then
    op (shape other)
       (fun idx => data x (broadcast_index (shape x) (shape other) idx))
       (requires_grad x)
  else raise RuntimeError.

(** [torch.cat((a, b), -1)] *)
Definition cat_last (a b : Tensor) : M Tensor :=
  match rev (shape a), rev (shape b) with
  | da :: ra, db :: rb =>
      if forallb (fun p => fst p =? snd p) (combine ra rb)
         && Nat.eqb (length ra) (length rb) then
        let k := length ra in
        op (rev ra ++ [da + db])
           (fun idx =>
              if ix idx k <? da then data a idx
              else data b (firstn k idx ++ [ix idx k - da]))
           (requires_grad a || requires_grad b)
      else raise RuntimeError
  | _, _ => raise RuntimeError
  end.

(** *** Pointwise operations *)

(** [max(v, 0)]: a negative value becomes zero; NaN stays NaN. *)
Definition relu_F (v : float32) : float32 := if fltb v fzero then fzero else v.

(** [F.relu(x)] *)
Definition relu (x : Tensor) : M Tensor :=
  op (shape x) (fun idx => relu_F (data x idx)) (requires_grad x).

(** [F.relu(x, inplace=True)]: the values are written to [x] itself, which
    keeps its flags; a leaf that requires grad cannot be written to while
    the gradient mode is on. *)
Definition relu_ (x : Tensor) : M Tensor :=
  let* g := grad_enabled in
  if g && requires_grad x && is_leaf x then raise RuntimeError
  else ret {| shape := shape x; data := fun idx => relu_F (data x idx);
              requires_grad := requires_grad x; is_leaf := is_leaf x |}.

(** [torch.add(a, b)], with broadcasting. *)
Definition add (a b : Tensor) : M Tensor :=
  match broadcast_shapes (shape a) (shape b) with
  | Some s =>
      op s (fun idx => (data a (broadcast_index (shape a) s idx)
                        + data b (broadcast_index (shape b) s idx))%F)
         (requires_grad a || requires_grad b)
  | None => raise RuntimeError
  end.

(** *** Bilinear resizing *)

(** The keyword that selects the target of [F.interpolate]. *)
Inductive modifier : Type :=
| Size (size : list N)
| ScaleFactor (scale_factor : N).

(** Source coordinate of output position [i] on an axis resized from
    [n_in] to [n_out] points. *)
Definition fhalf : float32 := (fone / fofN 2)%F.

Definition source_index (align_corners : bool) (n_in n_out i : N) : float32 :=
  if align_corners then
    if n_out <=? 1 then fzero
    else ((fofN (n_in - 1) / fofN (n_out - 1)) * fofN i)%F
  else relu_F ((fofN n_in / fofN n_out) * (fofN i + fhalf) - fhalf)%F.

(** The two neighbours of the source coordinate and the weight of the
    second one. *)
Definition taps (align_corners : bool) (n_in n_out i : N) : N * N * float32 :=
  let src := source_index align_corners n_in n_out i in
  let i0 := N.min (floorN src) (n_in - 1) in
  let i1 := N.min (i0 + 1) (n_in - 1) in
  (i0, i1, (src - fofN i0)%F).

(** Bilinear resize of one plane [f] of [h] by [w] points to [ho] by [wo]. *)
Definition bilinear_plane (align_corners : bool) (h w ho wo : N)
    (f : N -> N -> float32) (i j : N) : float32 :=
  let '(h0, h1, lh) := taps align_corners h ho i in
  let '(w0, w1, lw) := taps align_corners w wo j in
  ((fone - lh) * ((fone - lw) * f h0 w0 + lw * f h0 w1)
   + lh * ((fone - lw) * f h1 w0 + lw * f h1 w1))%F.

Definition plane (x : Tensor) (b c : N) : N -> N -> float32 :=
  fun i j => data x [b; c; i; j].

(** [F.interpolate(x, size=.. | scale_factor=.., mode="bilinear",
    align_corners=..)] *)
Definition interpolate (x : Tensor) (m : modifier) (align_corners : bool) : M Tensor :=
  let spatial := skipn 2 (shape x) in
  let target :=
    match m with
    | Size size => size
    | ScaleFactor f => map (fun d => d * f) spatial
    end in
  if negb (Nat.eqb (length target) (length spatial)) then raise ValueError
  else
    match shape x, target with
    | [b; c; h; w], [ho; wo] =>
        if (h =? 0) || (w =? 0) || (ho =? 0) || (wo =? 0) then raise RuntimeError
        else
          op [b; c; ho; wo]
             (fun idx =>
                bilinear_plane align_corners h w ho wo
                  (plane x (ix idx 0) (ix idx 1)) (ix idx 2) (ix idx 3))
             (requires_grad x)
    | _, _ => raise NotImplementedError
    end.

(** ** Library modules *)

(** The error function, which the format does not define. *)
Class Transcendental : Type := {
  erfF : float32 -> float32
}.

(** [torch.Generator]: the stream that fresh parameters are drawn from. *)
Record Generator : Type := {
  stream : N -> float32;
  position : N
}.

(** Construction draws parameters and can raise. *)
Definition Init (A : Type) : Type := Generator -> result (A * Generator).

Definition iret {A} (a : A) : Init A := fun gen => Ok (a, gen).
Definition iraise {A} (e : exn) : Init A := fun _ => Raise e.
Definition ibind {A B} (m : Init A) (k : A -> Init B) : Init B :=
  fun gen => match m gen with Ok (a, gen') => k a gen' | Raise e => Raise e end.

Notation "'let+' x ':=' m 'in' k" := (ibind m (fun x => k))
  (at level 10, x pattern, m at level 100, k at level 200).

(** A fresh parameter of the given shape. *)
Definition fresh_param (s : list N) : Init Tensor :=
  fun gen =>
    Ok ({| shape := s;
           data := fun idx => stream gen (position gen + flatten_index s idx);
           requires_grad := true; is_leaf := true |},
        {| stream := stream gen; position := position gen + numel_of s |}).

(** A tensor the caller made, filled with one value. *)
Definition constant (s : list N) (v : float32) (rg : bool) : Tensor :=
  {| shape := s; data := fun _ => v; requires_grad := rg; is_leaf := true |}.

Definition opt_requires_grad (o : option Tensor) : bool :=
  match o with Some b => requires_grad b | None => false end.
Definition opt_data (o : option Tensor) (idx : list N) : float32 :=
  match o with Some b => data b idx | None => fzero end.

(** [nn.Conv2d], square kernel, [groups=1], [dilation=1]. *)
Module Conv2d.
Record t : Type := mk {
  in_channels : N;
  out_channels : N;
  kernel_size : N;
  stride : N;
  padding : N;
  weight : Tensor;
  bias : option Tensor
}.

Definition init (in_channels out_channels kernel_size stride padding : N)
    (bias : bool) : Init t :=
  let+ w := fresh_param [out_channels; in_channels; kernel_size; kernel_size] in
  let+ b := if bias then (let+ b := fresh_param [out_channels] in iret (Some b))
            else iret None in
  iret (mk in_channels out_channels kernel_size stride padding w b).

(** Extent of the output along one axis. *)
Definition out_size (n k s p : N) : option N :=
  if (n =? 0) || (k =? 0) || (s =? 0) || (n + 2 * p <? k) then None
  else Some ((n + 2 * p - k) / s + 1).

Definition at_ (c : t) (x : Tensor) (h w : N) (idx : list N) : float32 :=
  let b := ix idx 0 in let co := ix idx 1 in
  let i := ix idx 2 in let j := ix idx 3 in
  let k := kernel_size c in let s := stride c in let p := padding c in
  (sumF (in_channels c) (fun ci =>
     sumF k (fun kh =>
     sumF k (fun kw =>
       let hi := (i * s + kh)%N in
       let wi := (j * s + kw)%N in
       if ((p <=? hi) && (hi - p <? h) && (p <=? wi) && (wi - p <? w))%N
       then data x [b; ci; (hi - p)%N; (wi - p)%N]
            * data (weight c) [co; ci; kh; kw]
       else fzero)))
   + opt_data (bias c) [co])%F.

(** The convolution of a batch [(N, C, H, W)].  A weight without output
    channels is refused, and so is an input without channels unless the
    batch is empty. *)
Definition batched (c : t) (x : Tensor) : M Tensor :=
  match shape x with
  | [b; ch; h; w] =>
      if out_channels c =? 0 then raise RuntimeError
      else if negb (ch =? in_channels c) then raise RuntimeError
      else if (in_channels c =? 0) && negb (b =? 0) then raise RuntimeError
      else
        match out_size h (kernel_size c) (stride c) (padding c),
              out_size w (kernel_size c) (stride c) (padding c) with
        | Some ho, Some wo =>
            op [b; out_channels c; ho; wo] (at_ c x h w)
               (requires_grad x || requires_grad (weight c)
                || opt_requires_grad (bias c))
        | _, _ => raise RuntimeError
        end
  | _ => raise RuntimeError
  end.

(** An unbatched input [(C, H, W)] is convolved as a batch of one. *)
Definition forward (c : t) (x : Tensor) : M Tensor :=
  match shape x with
  | [_; _; _] =>
      let* x1 := unsqueeze x 0 in
      let* y := batched c x1 in
      squeeze y 0
  | _ => batched c x
  end.
End Conv2d.

(** [nn.ConvTranspose2d], square kernel, [groups=1], no output padding. *)
Module ConvTranspose2d.
Record t : Type := mk {
  in_channels : N;
  out_channels : N;
  kernel_size : N;
  stride : N;
  padding : N;
  weight : Tensor;
  bias : option Tensor
}.

Definition init (in_channels out_channels kernel_size stride padding : N) : Init t :=
  let+ w := fresh_param [in_channels; out_channels; kernel_size; kernel_size] in
  let+ b := fresh_param [out_channels] in
  iret (mk in_channels out_channels kernel_size stride padding w (Some b)).

Definition out_size (n k s p : N) : option N :=
  if (n =? 0) || (k =? 0) || (s =? 0) || ((n - 1) * s + k <=? 2 * p) then None
  else Some ((n - 1) * s + k - 2 * p).

Definition at_ (c : t) (x : Tensor) (h w : N) (idx : list N) : float32 :=
  let b := ix idx 0 in let co := ix idx 1 in
  let i := ix idx 2 in let j := ix idx 3 in
  let k := kernel_size c in let s := stride c in let p := padding c in
  (sumF (in_channels c) (fun ci =>
     sumF k (fun kh =>
     sumF k (fun kw =>
       let hi := ((i + p - kh) / s)%N in
       let wi := ((j + p - kw) / s)%N in
       if ((kh <=? i + p) && ((i + p - kh) mod s =? 0) && (hi <? h)
           && (kw <=? j + p) && ((j + p - kw) mod s =? 0) && (wi <? w))%N
       then data x [b; ci; hi; wi] * data (weight c) [ci; co; kh; kw]
       else fzero)))
   + opt_data (bias c) [co])%F.

(** The transposed convolution of a batch [(N, C, H, W)].  The first axis of
    the weight holds the input channels; a weight without any is refused. *)
Definition batched (c : t) (x : Tensor) : M Tensor :=
  match shape x with
  | [b; ch; h; w] =>
      if in_channels c =? 0 then raise RuntimeError
      else if negb (ch =? in_channels c) then raise RuntimeError
      else
        match out_size h (kernel_size c) (stride c) (padding c),
              out_size w (kernel_size c) (stride c) (padding c) with
        | Some ho, Some wo =>
            op [b; out_channels c; ho; wo] (at_ c x h w)
               (requires_grad x || requires_grad (weight c)
                || opt_requires_grad (bias c))
        | _, _ => raise RuntimeError
        end
  | _ => raise RuntimeError
  end.

(** An unbatched input [(C, H, W)] is convolved as a batch of one. *)
Definition forward (c : t) (x : Tensor) : M Tensor :=
  match shape x with
  | [_; _; _] =>
      let* x1 := unsqueeze x 0 in
      let* y := batched c x1 in
      squeeze y 0
  | _ => batched c x
  end.
End ConvTranspose2d.

(** [nn.Linear] *)
Module Linear.
Record t : Type := mk {
  in_features : N;
  out_features : N;
  weight : Tensor;
  bias : option Tensor
}.

Definition init (in_features out_features : N) : Init t :=
  let+ w := fresh_param [out_features; in_features] in
  let+ b := fresh_param [out_features] in
  iret (mk in_features out_features w (Some b)).

Definition at_ (l : t) (x : Tensor) (idx : list N) : float32 :=
  let r := pred (rank x) in
  (sumF (in_features l) (fun i =>
       data x (firstn r idx ++ [i]) * data (weight l) [ix idx r; i])
   + opt_data (bias l) [ix idx r])%F.

Definition forward (l : t) (x : Tensor) : M Tensor :=
  match rev (shape x) with
  | d :: lead =>
      if d =? in_features l then
        op (rev lead ++ [out_features l]) (at_ l x)
           (requires_grad x || requires_grad (weight l)
            || opt_requires_grad (bias l))
      else raise RuntimeError
  | [] => raise RuntimeError
  end.
End Linear.

(** [nn.BatchNorm2d] with the default [affine] and [track_running_stats]. *)
Module BatchNorm2d.
Record t : Type := mk {
  num_features : N;
  eps : float32;
  momentum : float32;
  weight : Tensor;
  bias : Tensor;
  running_mean : Tensor;
  running_var : Tensor;
  num_batches_tracked : N;
  training : bool
}.

Definition init (num_features : N) : Init t :=
  iret (mk num_features (fone / fofN 100000)%F (fone / fofN 10)%F
          (constant [num_features] fone true) (constant [num_features] fzero true)
          (constant [num_features] fzero false) (constant [num_features] fone false)
          0 true).

(** Sum of [f] over the values of channel [c]. *)
Definition channel_sum (x : Tensor) (b h w c : N) (f : float32 -> float32)
    : float32 :=
  sumF b (fun bi => sumF h (fun hi => sumF w (fun wi =>
    f (data x [bi; c; hi; wi])))).

Definition batch_mean (x : Tensor) (b h w c : N) : float32 :=
  (channel_sum x b h w c (fun v => v) / fofN (b * h * w))%F.

(** The biased variance of the batch. *)
Definition batch_var (x : Tensor) (b h w c : N) : float32 :=
  let mu := batch_mean x b h w c in
  (channel_sum x b h w c (fun v => (v - mu) * (v - mu)) / fofN (b * h * w))%F.

Definition normalise (m : t) (mean var : N -> float32) (x : Tensor)
    (idx : list N) : float32 :=
  let c := ix idx 1 in
  ((data x idx - mean c) / fsqrt (var c + eps m)
   * data (weight m) [c] + data (bias m) [c])%F.

(** The output, in terms of the statistics that normalise it. *)
Definition normalised (m : t) (mean var : N -> float32) (x : Tensor) : M Tensor :=
  op (shape x) (normalise m mean var x)
     (requires_grad x || requires_grad (weight m) || requires_grad (bias m)).

(** In training mode the batch must hold more than one value per channel,
    which is checked before the channels are counted; the batch statistics
    normalise the input and are blended into the running statistics. *)
Definition forward (m : t) (x : Tensor) : M (Tensor * t) :=
  match shape x with
  | [b; ch; h; w] =>
      if training m then
        let n := b * h * w in
        if n =? 1 then raise ValueError
        else if negb (ch =? num_features m) then raise RuntimeError
        else
          let mean := batch_mean x b h w in
          let var := batch_var x b h w in
          let* y := normalised m mean var x in
          ret (y,
               mk (num_features m) (eps m) (momentum m) (weight m) (bias m)
                  {| shape := shape (running_mean m);
                     data := fun idx =>
                       ((fone - momentum m) * data (running_mean m) idx
                        + momentum m * mean (ix idx 0))%F;
                     requires_grad := false; is_leaf := true |}
                  {| shape := shape (running_var m);
                     data := fun idx =>
                       ((fone - momentum m) * data (running_var m) idx
                        + momentum m
                          * (var (ix idx 0) * fofN n / fofN (n - 1)))%F;
                     requires_grad := false; is_leaf := true |}
                  (num_batches_tracked m + 1) true)
      else if negb (ch =? num_features m) then raise RuntimeError
      else
        let* y := normalised m (fun c => data (running_mean m) [c])
                    (fun c => data (running_var m) [c]) x in
        ret (y, m)
  | _ => raise ValueError
  end.
End BatchNorm2d.

(** The remaining library modules, which have no state of their own, and the
    ones above, as members of [nn.Sequential] and [nn.ModuleList]. *)
Inductive Layer : Type :=
| L_Conv2d (c : Conv2d.t)
| L_ConvTranspose2d (c : ConvTranspose2d.t)
| L_Linear (l : Linear.t)
| L_ReLU (inplace : bool)
| L_GELU
| L_Identity.

Module Layers.
Section Forward.
Context `{Transcendental}.

Definition gelu_F (v : float32) : float32 :=
  (v * fhalf * (fone + erfF (v / fsqrt (fofN 2))))%F.

Definition forward (l : Layer) (x : Tensor) : M Tensor :=
  match l with
  | L_Conv2d c => Conv2d.forward c x
  | L_ConvTranspose2d c => ConvTranspose2d.forward c x
  | L_Linear l => Linear.forward l x
  | L_ReLU inplace => if inplace then relu_ x else relu x
  | L_GELU => op (shape x) (fun idx => gelu_F (data x idx)) (requires_grad x)
  | L_Identity => ret x
  end.

(** An in-place activation leaves its result in its argument. *)
Definition overwrites_input (l : Layer) : bool :=
  match l with L_ReLU inplace => inplace | _ => false end.
End Forward.
End Layers.

(** [nn.Sequential] *)
Module Sequential.
Definition t : Type := list Layer.

Section Forward.
Context `{Transcendental}.

Fixpoint forward (s : t) (x : Tensor) : M Tensor :=
  match s with
  | [] => ret x
  | l :: s' => let* y := Layers.forward l x in forward s' y
  end.
End Forward.
End Sequential.

Fixpoint imapM {A B} (f : A -> Init B) (l : list A) : Init (list B) :=
  match l with
  | [] => iret []
  | a :: l' => let+ b := f a in let+ bs := imapM f l' in iret (b :: bs)
  end.

(** [l[i]] on a Python list. *)
Definition getitem {A} (l : list A) (i : nat) : Init A :=
  match l !! i with Some a => iret a | None => iraise IndexError end.

(** ** The depth head *)

(** [ResidualConvUnit] *)
Module ResidualConvUnit.
Record t : Type := mk {
  bn : bool;
  groups : N;
  conv1 : Conv2d.t;
  conv2 : Conv2d.t;
  bn1 : option BatchNorm2d.t;
  bn2 : option BatchNorm2d.t;
  activation : Layer
}.

Definition init (features : N) (activation : Layer) (bn : bool) : Init t :=
  let+ conv1 := Conv2d.init features features 3 1 1 true in
  let+ conv2 := Conv2d.init features features 3 1 1 true in
  let+ bns :=
    if bn then
      let+ bn1 := BatchNorm2d.init features in
      let+ bn2 := BatchNorm2d.init features in
      iret (Some bn1, Some bn2)
    else iret (None, None) in
  iret (mk bn 1 conv1 conv2 (fst bns) (snd bns) activation).

Section Forward.
Context `{Transcendental}.

(** [if self.bn == True: out = self.bnK(out)] *)
Definition maybe_bn (flag : bool) (b : option BatchNorm2d.t) (out : Tensor)
    : M (Tensor * option BatchNorm2d.t) :=
  if flag then
    match b with
    | Some m =>
        let* (out, m') := BatchNorm2d.forward m out in ret (out, Some m')
    | None => raise AttributeError
    end
  else ret (out, b).

Definition forward (self : t) (x : Tensor) : M (Tensor * t) :=
  let* out := Layers.forward (activation self) x in
  let x := if Layers.overwrites_input (activation self) then out else x in
  let* out := Conv2d.forward (conv1 self) out in
  let* (out, bn1') := maybe_bn (bn self) (bn1 self) out in
  let* out := Layers.forward (activation self) out in
  let* out := Conv2d.forward (conv2 self) out in
  let* (out, bn2') := maybe_bn (bn self) (bn2 self) out in
  (* [self.conv_merge] is never defined *)
  let* out := if 1 <? groups self then raise AttributeError else ret out in
  let* out := add out x in
  ret (out, mk (bn self) (groups self) (conv1 self) (conv2 self) bn1' bn2'
               (activation self)).
End Forward.
End ResidualConvUnit.

(** [FeatureFusionBlock] *)
Module FeatureFusionBlock.
Record t : Type := mk {
  deconv : bool;
  align_corners : bool;
  groups : N;
  expand : bool;
  out_conv : Conv2d.t;
  resConfUnit1 : ResidualConvUnit.t;
  resConfUnit2 : ResidualConvUnit.t;
  size : option (list N)
}.

Definition init (features : N) (activation : Layer) (deconv bn expand
    align_corners : bool) (size : option (list N)) : Init t :=
  let out_features := if expand then features / 2 else features in
  let+ out_conv := Conv2d.init features out_features 1 1 0 true in
  let+ resConfUnit1 := ResidualConvUnit.init features activation bn in
  let+ resConfUnit2 := ResidualConvUnit.init features activation bn in
  iret (mk deconv align_corners 1 expand out_conv resConfUnit1 resConfUnit2 size).

(** The keyword passed to [interpolate]. *)
Definition modifier_of (self_size size : option (list N)) : modifier :=
  match size, self_size with
  | None, None => ScaleFactor 2
  | None, Some s => Size s
  | Some s, _ => Size s
  end.

Section Forward.
Context `{Transcendental}.

Definition forward (self : t) (xs : list Tensor) (size : option (list N))
    : M (Tensor * t) :=
  match xs with
  | [] => raise IndexError
  | output :: _ =>
      let* (output, unit1) :=
        match xs with
        | [_; skip] =>
            let* (res, unit1) :=
              ResidualConvUnit.forward (resConfUnit1 self) skip in
            let* output := add output res in
            ret (output, unit1)
        | _ => ret (output, resConfUnit1 self)
        end in
      let* (output, unit2) :=
        ResidualConvUnit.forward (resConfUnit2 self) output in
      let* output :=
        interpolate output (modifier_of (FeatureFusionBlock.size self) size)
          (align_corners self) in
      let* output := Conv2d.forward (out_conv self) output in
      ret (output,
           mk (deconv self) (align_corners self) (groups self) (expand self)
              (out_conv self) unit1 unit2 (FeatureFusionBlock.size self))
  end.
End Forward.
End FeatureFusionBlock.

Definition _make_fusion_block (features : N) (use_bn : bool)
    (size : option (list N)) : Init FeatureFusionBlock.t :=
  FeatureFusionBlock.init features (L_ReLU false) false use_bn false true size.

(** The attribute bag that [_make_scratch] creates and [DPTHead.__init__]
    completes; an attribute that was never assigned is [None]. *)
Module Scratch.
Record t : Type := mk {
  layer1_rn : Conv2d.t;
  layer2_rn : Conv2d.t;
  layer3_rn : Conv2d.t;
  layer4_rn : option Conv2d.t;
  refinenet1 : option FeatureFusionBlock.t;
  refinenet2 : option FeatureFusionBlock.t;
  refinenet3 : option FeatureFusionBlock.t;
  refinenet4 : option FeatureFusionBlock.t;
  output_conv1 : option Conv2d.t;
  output_conv2 : option Sequential.t
}.
End Scratch.

(** [_make_scratch(in_shape, out_shape, groups=1, expand=False)]; the
    convolutions of this model are not grouped. *)
Definition _make_scratch (in_shape : list N) (out_shape : N) (expand : bool)
    : Init Scratch.t :=
  let out_shape1 := out_shape in
  let out_shape2 := if expand then out_shape * 2 else out_shape in
  let out_shape3 := if expand then out_shape * 4 else out_shape in
  let out_shape4 := if expand then out_shape * 8 else out_shape in
  let+ in0 := getitem in_shape 0 in
  let+ layer1_rn := Conv2d.init in0 out_shape1 3 1 1 false in
  let+ in1 := getitem in_shape 1 in
  let+ layer2_rn := Conv2d.init in1 out_shape2 3 1 1 false in
  let+ in2 := getitem in_shape 2 in
  let+ layer3_rn := Conv2d.init in2 out_shape3 3 1 1 false in
  let+ layer4_rn :=
    if Nat.leb 4 (length in_shape) then
      let+ in3 := getitem in_shape 3 in
      let+ c := Conv2d.init in3 out_shape4 3 1 1 false in
      iret (Some c)
    else iret None in
  iret (Scratch.mk layer1_rn layer2_rn layer3_rn layer4_rn
          None None None None None None).

(** [self.name] of an attribute that may be missing, and [l[i]] at run time. *)
Definition attr {A} (o : option A) : M A :=
  match o with Some a => ret a | None => raise AttributeError end.
Definition item {A} (l : list A) (i : nat) : M A :=
  match l !! i with Some a => ret a | None => raise IndexError end.

(** [DPTHead] *)
Module DPTHead.
Record t : Type := mk {
  use_clstoken : bool;
  projects : list Conv2d.t;
  resize_layers : list Layer;
  readout_projects : option (list Sequential.t);
  scratch : Scratch.t
}.

Definition init (in_channels features : N) (use_bn : bool)
    (out_channels : list N) (use_clstoken : bool) : Init t :=
  let+ projects :=
    imapM (fun out_channel => Conv2d.init in_channels out_channel 1 1 0 true)
      out_channels in
  let+ oc0 := getitem out_channels 0 in
  let+ resize0 := ConvTranspose2d.init oc0 oc0 4 4 0 in
  let+ oc1 := getitem out_channels 1 in
  let+ resize1 := ConvTranspose2d.init oc1 oc1 2 2 0 in
  let+ oc3 := getitem out_channels 3 in
  let+ resize3 := Conv2d.init oc3 oc3 3 2 1 true in
  let resize_layers :=
    [L_ConvTranspose2d resize0; L_ConvTranspose2d resize1; L_Identity;
     L_Conv2d resize3] in
  let+ readout_projects :=
    if use_clstoken then
      let+ l := imapM (fun _ =>
                  let+ lin := Linear.init (2 * in_channels) in_channels in
                  iret [L_Linear lin; L_GELU]) projects in
      iret (Some l)
    else iret None in
  let+ scratch := _make_scratch out_channels features false in
  let+ refinenet1 := _make_fusion_block features use_bn None in
  let+ refinenet2 := _make_fusion_block features use_bn None in
  let+ refinenet3 := _make_fusion_block features use_bn None in
  let+ refinenet4 := _make_fusion_block features use_bn None in
  let head_features_1 := features in
  let head_features_2 := 32 in
  let+ output_conv1 :=
    Conv2d.init head_features_1 (head_features_1 / 2) 3 1 1 true in
  let+ conv_a := Conv2d.init (head_features_1 / 2) head_features_2 3 1 1 true in
  let+ conv_b := Conv2d.init head_features_2 1 1 1 0 true in
  iret (mk use_clstoken projects resize_layers readout_projects
          (Scratch.mk (Scratch.layer1_rn scratch) (Scratch.layer2_rn scratch)
             (Scratch.layer3_rn scratch) (Scratch.layer4_rn scratch)
             (Some refinenet1) (Some refinenet2) (Some refinenet3)
             (Some refinenet4) (Some output_conv1)
             (Some [L_Conv2d conv_a; L_ReLU true; L_Conv2d conv_b; L_ReLU true;
                    L_Identity]))).

Section Forward.
Context `{Transcendental}.

(** The body of the loop over the scale entries, for entry [x] at
    position [i]. *)
Definition scale_map (self : t) (patch_h patch_w : N) (i : nat)
    (x : list Tensor) : M Tensor :=
  let* x :=
    if use_clstoken self then
      let* x0 := item x 0 in
      let* cls_token := item x 1 in
      let* u := unsqueeze cls_token 1 in
      let* readout := expand_as u x0 in
      let* ps := attr (readout_projects self) in
      let* p := item ps i in
      let* c := cat_last x0 readout in
      Sequential.forward p c
    else item x 0 in
  let* xp := permute x [0; 2; 1]%nat in
  let* x := reshape xp [ix (shape x) 0; List.last (shape x) 0; patch_h; patch_w] in
  let* p := item (projects self) i in
  let* x := Conv2d.forward p x in
  let* r := item (resize_layers self) i in
  Layers.forward r x.

(** [for i, x in enumerate(out_features): ...; out.append(x)] *)
Fixpoint scale_loop (self : t) (patch_h patch_w : N) (i : nat)
    (out_features : list (list Tensor)) (out : list Tensor)
    : M (list Tensor) :=
  match out_features with
  | [] => ret out
  | x :: rest =>
      let* x := scale_map self patch_h patch_w i x in
      scale_loop self patch_h patch_w (S i) rest (out ++ [x])
  end.

Definition forward (self : t) (out_features : list (list Tensor))
    (patch_h patch_w : N) : M (Tensor * t) :=
  let* out := scale_loop self patch_h patch_w 0 out_features [] in
  match out with
  | [layer_1; layer_2; layer_3; layer_4] =>
      let s := scratch self in
      let* layer_1_rn := Conv2d.forward (Scratch.layer1_rn s) layer_1 in
      let* layer_2_rn := Conv2d.forward (Scratch.layer2_rn s) layer_2 in
      let* layer_3_rn := Conv2d.forward (Scratch.layer3_rn s) layer_3 in
      let* l4 := attr (Scratch.layer4_rn s) in
      let* layer_4_rn := Conv2d.forward l4 layer_4 in

      let* r4 := attr (Scratch.refinenet4 s) in
      let* (path_4, r4) :=
        FeatureFusionBlock.forward r4 [layer_4_rn]
          (Some (skipn 2 (shape layer_3_rn))) in
      let* r3 := attr (Scratch.refinenet3 s) in
      let* (path_3, r3) :=
        FeatureFusionBlock.forward r3 [path_4; layer_3_rn]
          (Some (skipn 2 (shape layer_2_rn))) in
      let* r2 := attr (Scratch.refinenet2 s) in
      let* (path_2, r2) :=
        FeatureFusionBlock.forward r2 [path_3; layer_2_rn]
          (Some (skipn 2 (shape layer_1_rn))) in
      let* r1 := attr (Scratch.refinenet1 s) in
      let* (path_1, r1) :=
        FeatureFusionBlock.forward r1 [path_2; layer_1_rn] None in

      let* oc1 := attr (Scratch.output_conv1 s) in
      let* out := Conv2d.forward oc1 path_1 in
      let* out := interpolate out (Size [patch_h * 14; patch_w * 14]) true in
      let* oc2 := attr (Scratch.output_conv2 s) in
      let* out := Sequential.forward oc2 out in
      ret (out,
           mk (use_clstoken self) (projects self) (resize_layers self)
              (readout_projects self)
              (Scratch.mk (Scratch.layer1_rn s) (Scratch.layer2_rn s)
                 (Scratch.layer3_rn s) (Scratch.layer4_rn s)
                 (Some r1) (Some r2) (Some r3) (Some r4)
                 (Scratch.output_conv1 s) (Scratch.output_conv2 s)))
  | _ => raise ValueError
  end.
End Forward.
End DPTHead.

(** [numpy.ndarray] *)
Record ndarray : Type := {
  nd_shape : list N;
  nd_data : list N -> float32
}.

(** [t.cpu().numpy()] *)
Definition numpy (t : Tensor) : M ndarray :=
  if requires_grad t then raise RuntimeError
  else ret {| nd_shape := shape t; nd_data := data t |}.

(** [DAv2_Head] *)
Module DAv2_Head.
Record t : Type := mk {
  embd_dims : gmap string N;
  depth_head : DPTHead.t
}.

Definition init (encoder : string) (features : N) (out_channels : list N)
    (use_bn use_clstoken : bool) : Init t :=
  let embd_dims : gmap string N :=
    <["vits" := 1024]> (<["vitb" := 1024]> (<["vitl" := 1024]>
      (<["vitg" := 1024]> ∅))) in
  let+ dim := match embd_dims !! encoder with
              | Some d => iret d
              | None => iraise KeyError
              end in
  let+ depth_head := DPTHead.init dim features use_bn out_channels use_clstoken in
  iret (mk embd_dims depth_head).

Section Forward.
Context `{Transcendental}.

Definition forward (self : t) (features : list (list Tensor)) : M (Tensor * t) :=
  let patch_h := 336 / 14 in
  let patch_w := 336 / 14 in
  let* (depth, head) :=
    DPTHead.forward (depth_head self) features patch_h patch_w in
  let* depth := relu depth in
  let* depth := squeeze depth 1 in
  ret (depth, mk (embd_dims self) head).

(** [@torch.no_grad() def infer_feats(self, feats, image_size=(336, 336))] *)
Definition infer_feats (self : t) (feats : list (list Tensor))
    (image_size : N * N) : M (ndarray * t) :=
  no_grad (
    let (h, w) := image_size in
    let* (depth, self) := forward self feats in
    let* depth := unsqueeze depth 1 in
    let* depth := interpolate depth (Size [h; w]) true in
    let* depth := select0 depth 0 in
    let* depth := select0 depth 0 in
    let* arr := numpy depth in
    ret (arr, self)).
End Forward.
End DAv2_Head.

(** ** Language-feature projection heads *)

Definition build_mlp (in_hidden_size hidden_size : N) : Init Sequential.t :=
  let+ l1 := Linear.init in_hidden_size hidden_size in
  let+ l2 := Linear.init hidden_size hidden_size in
  iret [L_Linear l1; L_ReLU false; L_Linear l2].

(** [proj_config[key]] *)
Definition config_get (proj_config : option (gmap string N)) (key : string) : Init N :=
  match proj_config with
  | None => iraise TypeError
  | Some d => match d !! key with Some v => iret v | None => iraise KeyError end
  end.

(** [DepthProbeHead] *)
Module DepthProbeHead.
Record t : Type := mk {
  linear_1 : Sequential.t;
  linear_2 : Sequential.t;
  linear_3 : Sequential.t;
  linear_4 : Sequential.t
}.

Definition init (llm_hidden_size : N) (proj_config : option (gmap string N)) : Init t :=
  let+ d1 := config_get proj_config "output_dim" in
  let+ linear_1 := build_mlp llm_hidden_size d1 in
  let+ d2 := config_get proj_config "output_dim" in
  let+ linear_2 := build_mlp llm_hidden_size d2 in
  let+ d3 := config_get proj_config "output_dim" in
  let+ linear_3 := build_mlp llm_hidden_size d3 in
  let+ d4 := config_get proj_config "output_dim" in
  let+ linear_4 := build_mlp llm_hidden_size d4 in
  iret (mk linear_1 linear_2 linear_3 linear_4).

Section Forward.
Context `{Transcendental}.

Definition forward (self : t) (llm_feats : Tensor)
    : M (list (Tensor * option Tensor)) :=
  let* f0 := Sequential.forward (linear_1 self) llm_feats in
  let* f1 := Sequential.forward (linear_1 self) llm_feats in
  let* f2 := Sequential.forward (linear_2 self) llm_feats in
  let* f3 := Sequential.forward (linear_3 self) llm_feats in
  ret [(f0, None); (f1, None); (f2, None); (f3, None)].
End Forward.
End DepthProbeHead.

(** The resampler of [ola_vlm.model.multimodal_projector.resampler] is not
    part of this file: its constructor and forward pass are parameters. *)
Class ResamplerModel : Type := {
  Resampler : Type;
  Resampler_init :
    forall (dim depth dim_head heads num_queries embedding_dim output_dim
            ff_mult : N), Init Resampler;
  Resampler_forward : Resampler -> Tensor -> M Tensor
}.

(** [DepthHead] *)
Module DepthHead.
Section WithResampler.
Context `{ResamplerModel}.

Record t : Type := mk {
  projector : Resampler;
  use_intermediate_depth : bool;
  linear_1 : option Sequential.t;
  linear_2 : option Sequential.t;
  linear_3 : option Sequential.t
}.

Definition init (llm_hidden_size : N) (proj_config : option (gmap string N))
    (use_intermediate_depth : bool) : Init t :=
  let+ dim := config_get proj_config "output_dim" in
  let+ depth := config_get proj_config "depth" in
  let+ dim_head := config_get proj_config "dim_head" in
  let+ heads := config_get proj_config "num_heads" in
  let+ num_queries := config_get proj_config "num_tokens" in
  let+ output_dim := config_get proj_config "output_dim" in
  let+ ff_mult := config_get proj_config "ff_mult" in
  let+ projector :=
    Resampler_init dim depth dim_head heads num_queries llm_hidden_size
      output_dim ff_mult in
  if use_intermediate_depth then
    let+ a1 := config_get proj_config "output_dim" in
    let+ b1 := config_get proj_config "output_dim" in
    let+ linear_1 := build_mlp a1 b1 in
    let+ a2 := config_get proj_config "output_dim" in
    let+ b2 := config_get proj_config "output_dim" in
    let+ linear_2 := build_mlp a2 b2 in
    let+ a3 := config_get proj_config "output_dim" in
    let+ b3 := config_get proj_config "output_dim" in
    let+ linear_3 := build_mlp a3 b3 in
    iret (mk projector true (Some linear_1) (Some linear_2) (Some linear_3))
  else iret (mk projector false None None None).

Context `{Transcendental}.

(** [features.append((self.linear_K(visual_feats), None))] *)
Definition append_aux (features : list (Tensor * option Tensor))
    (linear : option Sequential.t) (visual_feats : Tensor)
    : M (list (Tensor * option Tensor)) :=
  let* l := attr linear in
  let* f := Sequential.forward l visual_feats in
  ret (features ++ [(f, None)]).

Definition forward (self : t) (llm_feats : Tensor)
    : M (list (Tensor * option Tensor)) :=
  let* visual_feats := Resampler_forward (projector self) llm_feats in
  let features := [] in
  let* features :=
    if use_intermediate_depth self then
      let* features := append_aux features (linear_1 self) visual_feats in
      let* features := append_aux features (linear_2 self) visual_feats in
      append_aux features (linear_3 self) visual_feats
    else ret features in
  ret (features ++ [(visual_feats, None)]).
End WithResampler.
End DepthHead.

(** * Properties *)

(** ** Reasoning about computations *)

(** [returns m g P]: under gradient mode [g], [m] returns a value in [P]. *)
Definition returns {A} (m : M A) (g : bool) (P : A -> Prop) : Prop :=
  exists a, m g = Ok a /\ P a.

(** [ensures m g P]: whatever [m] returns under [g] is in [P]. *)
Definition ensures {A} (m : M A) (g : bool) (P : A -> Prop) : Prop :=
  forall a, m g = Ok a -> P a.

(** [raises m g]: [m] raises under [g]. *)
Definition raises {A} (m : M A) (g : bool) : Prop :=
  exists e, m g = Raise e.


(** ** Modules as their constructors build them

    The forward passes are stated for every module state that has the
    structure its constructor gives it: the hyperparameters are fixed by the
    configuration, while the parameters, the buffers and the training flags
    are arbitrary. *)

Definition conv_is (c : Conv2d.t) (i o k s p : N) : Prop :=
  Conv2d.in_channels c = i /\ Conv2d.out_channels c = o
  /\ Conv2d.kernel_size c = k /\ Conv2d.stride c = s /\ Conv2d.padding c = p.

Definition convT_is (c : ConvTranspose2d.t) (i o k s p : N) : Prop :=
  ConvTranspose2d.in_channels c = i /\ ConvTranspose2d.out_channels c = o
  /\ ConvTranspose2d.kernel_size c = k /\ ConvTranspose2d.stride c = s
  /\ ConvTranspose2d.padding c = p.

Definition linear_is (l : Linear.t) (i o : N) : Prop :=
  Linear.in_features l = i /\ Linear.out_features l = o.

Definition bn_is (b : option BatchNorm2d.t) (features : N) : Prop :=
  exists m, b = Some m /\ BatchNorm2d.num_features m = features.

(** A tensor that an in-place operation can write to under the gradient
    mode [g]: not a leaf that requires grad while the mode is on.  The
    result of an operation always is. *)
Definition writable (g : bool) (x : Tensor) : Prop :=
  g && requires_grad x && is_leaf x = false.

(** The activation [l] accepts [x]: it is not in-place, or [x] can be
    written to. *)
Definition activation_accepts (l : Layer) (g : bool) (x : Tensor) : Prop :=
  Layers.overwrites_input l = true -> writable g x.

(** The activations that keep the shape of their input. *)
Definition pointwise (l : Layer) : Prop :=
  match l with
  | L_ReLU _ | L_GELU | L_Identity => True
  | _ => False
  end.

(** [ResidualConvUnit(features, activation, bn)] *)
Definition rcu_wf (features : N) (use_bn : bool) (r : ResidualConvUnit.t) : Prop :=
  ResidualConvUnit.bn r = use_bn
  /\ ResidualConvUnit.groups r = 1
  /\ conv_is (ResidualConvUnit.conv1 r) features features 3 1 1
  /\ conv_is (ResidualConvUnit.conv2 r) features features 3 1 1
  /\ (use_bn = true ->
      bn_is (ResidualConvUnit.bn1 r) features
      /\ bn_is (ResidualConvUnit.bn2 r) features)
  /\ pointwise (ResidualConvUnit.activation r).

(** [FeatureFusionBlock(features, activation, bn=use_bn, expand=expand,
    size=size)] *)
Definition ffb_wf (features : N) (use_bn expand : bool) (size : option (list N))
    (f : FeatureFusionBlock.t) : Prop :=
  conv_is (FeatureFusionBlock.out_conv f) features
    (if expand then features / 2 else features) 1 1 0
  /\ rcu_wf features use_bn (FeatureFusionBlock.resConfUnit1 f)
  /\ rcu_wf features use_bn (FeatureFusionBlock.resConfUnit2 f)
  /\ FeatureFusionBlock.expand f = expand
  /\ FeatureFusionBlock.size f = size.

(** [_make_fusion_block(features, use_bn)] *)
Definition fusion_block_wf (features : N) (use_bn : bool)
    (o : option FeatureFusionBlock.t) : Prop :=
  exists f, o = Some f /\ ffb_wf features use_bn false None f
            /\ FeatureFusionBlock.align_corners f = true.

(** [build_mlp(in_hidden_size, hidden_size)] *)
Definition mlp_is (s : Sequential.t) (in_hidden_size hidden_size : N) : Prop :=
  exists l1 l2, s = [L_Linear l1; L_ReLU false; L_Linear l2]
                /\ linear_is l1 in_hidden_size hidden_size
                /\ linear_is l2 hidden_size hidden_size.

(** A member of [readout_projects]. *)
Definition readout_is (in_channels : N) (s : Sequential.t) : Prop :=
  exists l, s = [L_Linear l; L_GELU] /\ linear_is l (2 * in_channels) in_channels.

(** The scratch bag of [DPTHead(in_channels, features, use_bn, out_channels)]
    for [out_channels = [oc0; oc1; oc2; oc3; ...]]. *)
Definition scratch_wf (features : N) (use_bn : bool) (oc0 oc1 oc2 oc3 : N)
    (s : Scratch.t) : Prop :=
  conv_is (Scratch.layer1_rn s) oc0 features 3 1 1
  /\ conv_is (Scratch.layer2_rn s) oc1 features 3 1 1
  /\ conv_is (Scratch.layer3_rn s) oc2 features 3 1 1
  /\ (exists l4, Scratch.layer4_rn s = Some l4 /\ conv_is l4 oc3 features 3 1 1)
  /\ fusion_block_wf features use_bn (Scratch.refinenet1 s)
  /\ fusion_block_wf features use_bn (Scratch.refinenet2 s)
  /\ fusion_block_wf features use_bn (Scratch.refinenet3 s)
  /\ fusion_block_wf features use_bn (Scratch.refinenet4 s)
  /\ (exists c1, Scratch.output_conv1 s = Some c1
                 /\ conv_is c1 features (features / 2) 3 1 1)
  /\ (exists ca cb,
        Scratch.output_conv2 s
        = Some [L_Conv2d ca; L_ReLU true; L_Conv2d cb; L_ReLU true; L_Identity]
        /\ conv_is ca (features / 2) 32 3 1 1 /\ conv_is cb 32 1 1 1 0).

Definition resize_layers_wf (oc0 oc1 oc3 : N) (ls : list Layer) : Prop :=
  exists r0 r1 r3,
    ls = [L_ConvTranspose2d r0; L_ConvTranspose2d r1; L_Identity; L_Conv2d r3]
    /\ convT_is r0 oc0 oc0 4 4 0 /\ convT_is r1 oc1 oc1 2 2 0
    /\ conv_is r3 oc3 oc3 3 2 1.

(** [DPTHead(in_channels, features, use_bn, out_channels, use_clstoken)] *)
Definition dpt_wf (in_channels features : N) (use_bn : bool)
    (out_channels : list N) (use_clstoken : bool) (m : DPTHead.t) : Prop :=
  exists oc0 oc1 oc2 oc3 rest,
    out_channels = oc0 :: oc1 :: oc2 :: oc3 :: rest
    /\ DPTHead.use_clstoken m = use_clstoken
    /\ Forall2 (fun c oc => conv_is c in_channels oc 1 1 0)
         (DPTHead.projects m) out_channels
    /\ resize_layers_wf oc0 oc1 oc3 (DPTHead.resize_layers m)
    /\ (use_clstoken = true ->
        exists ps, DPTHead.readout_projects m = Some ps
                   /\ length ps = length out_channels
                   /\ Forall (readout_is in_channels) ps)
    /\ scratch_wf features use_bn oc0 oc1 oc2 oc3 (DPTHead.scratch m).

(** [DAv2_Head(encoder, features, out_channels, use_bn, use_clstoken)]; every
    encoder name selects the embedding width 1024. *)
Definition dav2_wf (features : N) (out_channels : list N)
    (use_bn use_clstoken : bool) (m : DAv2_Head.t) : Prop :=
  dpt_wf 1024 features use_bn out_channels use_clstoken (DAv2_Head.depth_head m).

(** [DepthProbeHead(llm_hidden_size, proj_config)] with
    [proj_config["output_dim"] = output_dim]. *)
Definition probe_wf (llm_hidden_size output_dim : N) (m : DepthProbeHead.t) : Prop :=
  mlp_is (DepthProbeHead.linear_1 m) llm_hidden_size output_dim
  /\ mlp_is (DepthProbeHead.linear_2 m) llm_hidden_size output_dim
  /\ mlp_is (DepthProbeHead.linear_3 m) llm_hidden_size output_dim
  /\ mlp_is (DepthProbeHead.linear_4 m) llm_hidden_size output_dim.

(** ** Inputs *)

(** A scale entry: the patch tokens [(batch, tokens, dim)], followed by the
    class token [(batch, dim)] when the head fuses it. *)
Definition entry_ok (use_clstoken : bool) (b tokens dim : N) (x : list Tensor) : Prop :=
  exists x0, x !! 0%nat = Some x0 /\ shape x0 = [b; tokens; dim]
  /\ (use_clstoken = true ->
      exists cls, x !! 1%nat = Some cls /\ shape cls = [b; dim]).

(** ** Buffers and parameters *)

(** Whether a forward pass of the module writes to its buffers. *)
Definition bn_updates (b : option BatchNorm2d.t) : bool :=
  match b with Some m => BatchNorm2d.training m | None => false end.





(** Two module states with the same learned parameters, hyperparameters and
    flags: they differ at most in the running statistics. *)
Definition bn_same_params (a b : BatchNorm2d.t) : Prop :=
  BatchNorm2d.num_features a = BatchNorm2d.num_features b
  /\ BatchNorm2d.eps a = BatchNorm2d.eps b
  /\ BatchNorm2d.momentum a = BatchNorm2d.momentum b
  /\ BatchNorm2d.weight a = BatchNorm2d.weight b
  /\ BatchNorm2d.bias a = BatchNorm2d.bias b
  /\ BatchNorm2d.training a = BatchNorm2d.training b.

Definition opt_same {A} (R : A -> A -> Prop) (a b : option A) : Prop :=
  match a, b with
  | Some x, Some y => R x y
  | None, None => True
  | _, _ => False
  end.

Definition rcu_same_params (a b : ResidualConvUnit.t) : Prop :=
  ResidualConvUnit.bn a = ResidualConvUnit.bn b
  /\ ResidualConvUnit.groups a = ResidualConvUnit.groups b
  /\ ResidualConvUnit.conv1 a = ResidualConvUnit.conv1 b
  /\ ResidualConvUnit.conv2 a = ResidualConvUnit.conv2 b
  /\ opt_same bn_same_params (ResidualConvUnit.bn1 a) (ResidualConvUnit.bn1 b)
  /\ opt_same bn_same_params (ResidualConvUnit.bn2 a) (ResidualConvUnit.bn2 b)
  /\ ResidualConvUnit.activation a = ResidualConvUnit.activation b.

Definition ffb_same_params (a b : FeatureFusionBlock.t) : Prop :=
  FeatureFusionBlock.deconv a = FeatureFusionBlock.deconv b
  /\ FeatureFusionBlock.align_corners a = FeatureFusionBlock.align_corners b
  /\ FeatureFusionBlock.groups a = FeatureFusionBlock.groups b
  /\ FeatureFusionBlock.expand a = FeatureFusionBlock.expand b
  /\ FeatureFusionBlock.out_conv a = FeatureFusionBlock.out_conv b
  /\ rcu_same_params (FeatureFusionBlock.resConfUnit1 a)
       (FeatureFusionBlock.resConfUnit1 b)
  /\ rcu_same_params (FeatureFusionBlock.resConfUnit2 a)
       (FeatureFusionBlock.resConfUnit2 b)
  /\ FeatureFusionBlock.size a = FeatureFusionBlock.size b.




(** ** The resize target of a fusion block, as the specification words it:
    the explicit size if one is given, else the size configured at
    construction if there is one, else twice the spatial extent [h], [w] of
    the tensor that is resized. *)
Definition resize_target_spec (explicit configured : option (list N)) (h w : N)
    : list N :=
  match explicit with
  | Some s => s
  | None =>
      match configured with
      | Some s => s
      | None => [2 * h; 2 * w]
      end
  end.

(** The tensors a fusion block is called on: the deep path alone, or the
    deep path and a skip tensor of the same shape. *)
Definition fusion_inputs (xs : list Tensor) (x : Tensor) : Prop :=
  xs = [x] \/ exists skip, xs = [x; skip] /\ shape skip = shape x.

(** The tensor that a residual unit of the block reads as the caller gave
    it (the skip tensor when there is one, else the deep path) is accepted by
    the unit's activation. *)
Definition fusion_accepts (f : FeatureFusionBlock.t) (g : bool) (xs : list Tensor)
    : Prop :=
  match xs with
  | [_; skip] =>
      activation_accepts
        (ResidualConvUnit.activation (FeatureFusionBlock.resConfUnit1 f)) g skip
  | x :: _ =>
      activation_accepts
        (ResidualConvUnit.activation (FeatureFusionBlock.resConfUnit2 f)) g x
  | [] => True
  end.

(** The shape of the map of scale [i] after projection and resizing, for
    batch [b], channel widths [oc0..oc3] and patch grid [ph] by [pw]. *)
Definition scale_shape (b oc0 oc1 oc2 oc3 ph pw : N) (i : nat) : list N :=
  match i with
  | 0%nat => [b; oc0; 4 * ph; 4 * pw]
  | 1%nat => [b; oc1; 2 * ph; 2 * pw]
  | 2%nat => [b; oc2; ph; pw]
  | _ => [b; oc3; (ph + 1) / 2; (pw + 1) / 2]
  end.

(** [DepthHead(llm_hidden_size, proj_config, use_intermediate_depth)] with
    [proj_config["output_dim"] = output_dim]: the auxiliary perceptrons
    exist exactly when the intermediate depth is used. *)
Definition depth_head_wf `{ResamplerModel} (output_dim : N) (m : DepthHead.t) : Prop :=
  if DepthHead.use_intermediate_depth m then
    exists s1 s2 s3,
      DepthHead.linear_1 m = Some s1 /\ DepthHead.linear_2 m = Some s2
      /\ DepthHead.linear_3 m = Some s3
      /\ mlp_is s1 output_dim output_dim /\ mlp_is s2 output_dim output_dim
      /\ mlp_is s3 output_dim output_dim
  else True.

(** ** Concrete modules and inputs *)

(** A coarse stand-in for the error function, to run the model on
    examples. *)
Definition coarse_erf (v : float32) : float32 :=
  (v / (fone + SFabs v))%F.

Definition approx : Transcendental :=
  {| erfF := coarse_erf |}.

Definition gen0 : Generator :=
  {| stream := fun n => (fofN (n mod 7) - fofN 3)%F; position := 0 |}.

Definition blank_conv : Conv2d.t :=
  Conv2d.mk 0 0 0 0 0 (constant [] fzero false) None.

(** A head without layers: what the examples fall back to if a
    construction raises. *)
Definition blank_dpt : DPTHead.t :=
  DPTHead.mk false [] [] None
    (Scratch.mk blank_conv blank_conv blank_conv None None None None None None None).

(** [DAv2_Head(use_bn=.., use_clstoken=..)] with the default encoder, width
    and channel list. *)
Definition sample_head (use_bn use_clstoken : bool) : DAv2_Head.t :=
  match DAv2_Head.init "vitl" 256 [256; 512; 1024; 1024] use_bn use_clstoken gen0 with
  | Ok (m, _) => m
  | Raise _ => DAv2_Head.mk ∅ blank_dpt
  end.

(** Four scale entries of [b] images: 576 patch tokens of width 1024, and
    the class token. *)
Definition sample_entry (b : N) : list Tensor :=
  [constant [b; 576; 1024] fhalf true; constant [b; 1024] (SFopp fone) false].
Definition sample_feats (b : N) : list (list Tensor) :=
  [sample_entry b; sample_entry b; sample_entry b; sample_entry b].

(** A small dense prediction head: embedding width 8, fusion width 4,
    channel widths 2, 3, 4, 5, with batch normalisation. *)
Definition small_dpt (use_bn use_clstoken : bool) : DPTHead.t :=
  match DPTHead.init 8 4 use_bn [2; 3; 4; 5] use_clstoken gen0 with
  | Ok (m, _) => m
  | Raise _ => blank_dpt
  end.

Definition small_entry (b tokens : N) : list Tensor :=
  [constant [b; tokens; 8] fone false; constant [b; 8] (fofN 2) false].
Definition small_feats (b tokens : N) : list (list Tensor) :=
  [small_entry b tokens; small_entry b tokens; small_entry b tokens;
   small_entry b tokens].


(** What a run left behind, for the examples. *)
Definition output_of {A B} (r : result (A * B)) (a : A) (b : B) : A * B :=
  match r with Ok p => p | Raise _ => (a, b) end.


Definition value_of {A} (r : result A) (d : A) : A :=
  match r with Ok a => a | Raise _ => d end.

Definition blank_tensor : Tensor := constant [] fzero false.

Definition blank_rcu : ResidualConvUnit.t :=
  ResidualConvUnit.mk false 1 blank_conv blank_conv None None L_Identity.

Definition blank_block : FeatureFusionBlock.t :=
  FeatureFusionBlock.mk false true 1 false blank_conv blank_rcu blank_rcu None.

(** [_make_fusion_block(4, use_bn)] *)
Definition sample_block (use_bn : bool) : FeatureFusionBlock.t :=
  match _make_fusion_block 4 use_bn None gen0 with
  | Ok (f, _) => f
  | Raise _ => blank_block
  end.

(** [FeatureFusionBlock(4, nn.ReLU(False), bn=True, expand=True, size=(7, 9))] *)
Definition sized_block : FeatureFusionBlock.t :=
  match FeatureFusionBlock.init 4 (L_ReLU false) false true true true
          (Some [7; 9]) gen0 with
  | Ok (f, _) => f
  | Raise _ => blank_block
  end.

Definition sample_config : gmap string N :=
  <["output_dim" := 3]> (<["depth" := 2]> (<["dim_head" := 4]> (<["num_heads" := 2]>
    (<["num_tokens" := 5]> (<["ff_mult" := 4]> ∅))))).

(** [DepthProbeHead(llm_hidden_size=6, proj_config=sample_config)] *)
Definition sample_probe : DepthProbeHead.t :=
  match DepthProbeHead.init 6 (Some sample_config) gen0 with
  | Ok (m, _) => m
  | Raise _ => DepthProbeHead.mk [] [] [] []
  end.

(** A stand-in for the resampler in the examples: every one of the
    [num_queries] output tokens is a learned linear map of the mean of the
    input tokens. *)
Record pooling : Type := {
  pool_queries : N;
  pool_map : Linear.t
}.

Definition pooling_forward (p : pooling) (x : Tensor) : M Tensor :=
  match shape x with
  | [b; n; d] =>
      let* mean :=
        op [b; d] (fun idx => (sumF n (fun t => data x [ix idx 0; t; ix idx 1])
                               / fofN n)%F) (requires_grad x) in
      let* y := Linear.forward (pool_map p) mean in
      let* u := unsqueeze y 1 in
      op [b; pool_queries p; Linear.out_features (pool_map p)]
         (fun idx => data u [ix idx 0; 0; ix idx 2]) (requires_grad u)
  | _ => raise RuntimeError
  end.

Definition pooling_resampler : ResamplerModel :=
  {| Resampler := pooling;
     Resampler_init := fun dim depth dim_head heads num_queries embedding_dim
                           output_dim ff_mult =>
       let+ l := Linear.init embedding_dim output_dim in
       iret {| pool_queries := num_queries; pool_map := l |};
     Resampler_forward := pooling_forward |}.

(** [DepthHead(llm_hidden_size=6, proj_config=sample_config,
    use_intermediate_depth=..)] over the stand-in resampler. *)
Definition sample_depth_head (use_intermediate_depth : bool)
    : @DepthHead.t pooling_resampler :=
  match @DepthHead.init pooling_resampler 6 (Some sample_config)
          use_intermediate_depth gen0 with
  | Ok (m, _) => m
  | Raise _ =>
      @DepthHead.mk pooling_resampler
        {| pool_queries := 0; pool_map := Linear.mk 0 0 blank_tensor None |}
        false None None None
  end.

(** * The rest of the file *)

(** [ConvBlock]: [nn.Sequential(Conv2d(3x3, padding 1), BatchNorm2d,
    ReLU(True))]. *)
Module ConvBlock.
Record t : Type := mk {
  conv : Conv2d.t;
  norm : BatchNorm2d.t;
  act : Layer
}.

Definition init (in_feature out_feature : N) : Init t :=
  let+ conv := Conv2d.init in_feature out_feature 3 1 1 true in
  let+ norm := BatchNorm2d.init out_feature in
  iret (mk conv norm (L_ReLU true)).

Section Forward.
Context `{Transcendental}.

Definition forward (self : t) (x : Tensor) : M (Tensor * t) :=
  let* y := Conv2d.forward (conv self) x in
  let* (y, norm') := BatchNorm2d.forward (norm self) y in
  let* y := Layers.forward (act self) y in
  ret (y, mk (conv self) norm' (act self)).
End Forward.
End ConvBlock.

Definition build_expand_mlp (in_hidden_size hidden_size out_size : N)
    : Init Sequential.t :=
  let+ l1 := Linear.init in_hidden_size hidden_size in
  let+ l2 := Linear.init hidden_size hidden_size in
  let+ l3 := Linear.init hidden_size out_size in
  iret [L_Linear l1; L_ReLU false; L_Linear l2; L_ReLU false; L_Linear l3].

(** The task-token resampler of
    [ola_vlm.model.multimodal_projector.resampler] is not part of this file:
    its constructor and forward pass are parameters. *)
Class TaskTokenResamplerModel : Type := {
  TaskTokenResampler : Type;
  TaskTokenResampler_init :
    forall (dim depth dim_head heads num_queries embedding_dim output_dim
            ff_mult : N), Init TaskTokenResampler;
  TaskTokenResampler_forward : TaskTokenResampler -> Tensor -> Tensor -> M Tensor
}.

(** [TaskTokenDepthHead] *)
Module TaskTokenDepthHead.
Section WithResampler.
Context `{TaskTokenResamplerModel}.

Record t : Type := mk {
  projector : TaskTokenResampler;
  use_intermediate_depth : bool;
  linear_1 : option Sequential.t;
  linear_2 : option Sequential.t;
  linear_3 : option Sequential.t
}.

Definition init (proj_config : option (gmap string N)) (llm_hidden_size : N)
    (use_intermediate_depth : bool) : Init t :=
  let+ depth := config_get proj_config "depth" in
  let+ dim_head := config_get proj_config "dim_head" in
  let+ heads := config_get proj_config "num_heads" in
  let+ num_queries := config_get proj_config "num_tokens" in
  let+ output_dim := config_get proj_config "output_dim" in
  let+ ff_mult := config_get proj_config "ff_mult" in
  let+ projector :=
    TaskTokenResampler_init llm_hidden_size depth dim_head heads num_queries
      llm_hidden_size output_dim ff_mult in
  if use_intermediate_depth then
    let+ a1 := config_get proj_config "output_dim" in
    let+ b1 := config_get proj_config "output_dim" in
    let+ linear_1 := build_mlp a1 b1 in
    let+ a2 := config_get proj_config "output_dim" in
    let+ b2 := config_get proj_config "output_dim" in
    let+ linear_2 := build_mlp a2 b2 in
    let+ a3 := config_get proj_config "output_dim" in
    let+ b3 := config_get proj_config "output_dim" in
    let+ linear_3 := build_mlp a3 b3 in
    iret (mk projector true (Some linear_1) (Some linear_2) (Some linear_3))
  else iret (mk projector false None None None).

Context `{Transcendental}.

(** [features.append((self.linear_K(visual_feats), None))] *)
Definition append_aux (features : list (Tensor * option Tensor))
    (linear : option Sequential.t) (visual_feats : Tensor)
    : M (list (Tensor * option Tensor)) :=
  let* l := attr linear in
  let* f := Sequential.forward l visual_feats in
  ret (features ++ [(f, None)]).

Definition forward (self : t) (llm_feats latents : Tensor)
    : M (list (Tensor * option Tensor)) :=
  let* visual_feats :=
    TaskTokenResampler_forward (projector self) llm_feats latents in
  let features := [] in
  let* features :=
    if use_intermediate_depth self then
      let* features := append_aux features (linear_1 self) visual_feats in
      let* features := append_aux features (linear_2 self) visual_feats in
      append_aux features (linear_3 self) visual_feats
    else ret features in
  ret (features ++ [(visual_feats, None)]).
End WithResampler.
End TaskTokenDepthHead.

(** ** More vocabulary *)

(** [ConvBlock(in_feature, out_feature)] *)
Definition conv_block_wf (in_feature out_feature : N) (c : ConvBlock.t) : Prop :=
  conv_is (ConvBlock.conv c) in_feature out_feature 3 1 1
  /\ BatchNorm2d.num_features (ConvBlock.norm c) = out_feature
  /\ ConvBlock.act c = L_ReLU true.

(** [build_expand_mlp(in_hidden_size, hidden_size, out_size)] *)
Definition expand_mlp_is (s : Sequential.t) (in_hidden_size hidden_size out_size : N)
    : Prop :=
  exists l1 l2 l3,
    s = [L_Linear l1; L_ReLU false; L_Linear l2; L_ReLU false; L_Linear l3]
    /\ linear_is l1 in_hidden_size hidden_size
    /\ linear_is l2 hidden_size hidden_size
    /\ linear_is l3 hidden_size out_size.

Definition task_head_wf `{TaskTokenResamplerModel} (output_dim : N)
    (m : TaskTokenDepthHead.t) : Prop :=
  if TaskTokenDepthHead.use_intermediate_depth m then
    exists s1 s2 s3,
      TaskTokenDepthHead.linear_1 m = Some s1
      /\ TaskTokenDepthHead.linear_2 m = Some s2
      /\ TaskTokenDepthHead.linear_3 m = Some s3
      /\ mlp_is s1 output_dim output_dim /\ mlp_is s2 output_dim output_dim
      /\ mlp_is s3 output_dim output_dim
  else True.

(** Two states of a module that compute the same function: the same
    parameters and flags, and the same running statistics wherever these are
    read, that is in evaluation mode. *)
Definition bn_equiv (a b : BatchNorm2d.t) : Prop :=
  bn_same_params a b /\ (BatchNorm2d.training a = false -> b = a).

Definition rcu_equiv (a b : ResidualConvUnit.t) : Prop :=
  ResidualConvUnit.bn a = ResidualConvUnit.bn b
  /\ ResidualConvUnit.groups a = ResidualConvUnit.groups b
  /\ ResidualConvUnit.conv1 a = ResidualConvUnit.conv1 b
  /\ ResidualConvUnit.conv2 a = ResidualConvUnit.conv2 b
  /\ opt_same bn_equiv (ResidualConvUnit.bn1 a) (ResidualConvUnit.bn1 b)
  /\ opt_same bn_equiv (ResidualConvUnit.bn2 a) (ResidualConvUnit.bn2 b)
  /\ ResidualConvUnit.activation a = ResidualConvUnit.activation b.

Definition ffb_equiv (a b : FeatureFusionBlock.t) : Prop :=
  FeatureFusionBlock.deconv a = FeatureFusionBlock.deconv b
  /\ FeatureFusionBlock.align_corners a = FeatureFusionBlock.align_corners b
  /\ FeatureFusionBlock.groups a = FeatureFusionBlock.groups b
  /\ FeatureFusionBlock.expand a = FeatureFusionBlock.expand b
  /\ FeatureFusionBlock.out_conv a = FeatureFusionBlock.out_conv b
  /\ rcu_equiv (FeatureFusionBlock.resConfUnit1 a) (FeatureFusionBlock.resConfUnit1 b)
  /\ rcu_equiv (FeatureFusionBlock.resConfUnit2 a) (FeatureFusionBlock.resConfUnit2 b)
  /\ FeatureFusionBlock.size a = FeatureFusionBlock.size b.

Definition scratch_equiv (a b : Scratch.t) : Prop :=
  Scratch.layer1_rn a = Scratch.layer1_rn b
  /\ Scratch.layer2_rn a = Scratch.layer2_rn b
  /\ Scratch.layer3_rn a = Scratch.layer3_rn b
  /\ Scratch.layer4_rn a = Scratch.layer4_rn b
  /\ opt_same ffb_equiv (Scratch.refinenet1 a) (Scratch.refinenet1 b)
  /\ opt_same ffb_equiv (Scratch.refinenet2 a) (Scratch.refinenet2 b)
  /\ opt_same ffb_equiv (Scratch.refinenet3 a) (Scratch.refinenet3 b)
  /\ opt_same ffb_equiv (Scratch.refinenet4 a) (Scratch.refinenet4 b)
  /\ Scratch.output_conv1 a = Scratch.output_conv1 b
  /\ Scratch.output_conv2 a = Scratch.output_conv2 b.

Definition dpt_equiv (a b : DPTHead.t) : Prop :=
  DPTHead.use_clstoken a = DPTHead.use_clstoken b
  /\ DPTHead.projects a = DPTHead.projects b
  /\ DPTHead.resize_layers a = DPTHead.resize_layers b
  /\ DPTHead.readout_projects a = DPTHead.readout_projects b
  /\ scratch_equiv (DPTHead.scratch a) (DPTHead.scratch b).

Definition dav2_equiv (a b : DAv2_Head.t) : Prop :=
  DAv2_Head.embd_dims a = DAv2_Head.embd_dims b
  /\ dpt_equiv (DAv2_Head.depth_head a) (DAv2_Head.depth_head b).

(** Two runs that agree: both raise the same exception, or both return,
    with values related by [R]. *)
Definition agree {A B} (R : A -> B -> Prop) (r1 : result A) (r2 : result B) : Prop :=
  match r1, r2 with
  | Ok a, Ok b => R a b
  | Raise e1, Raise e2 => e1 = e2
  | _, _ => False
  end.

(** The same returned value, beside module states related by [R]. *)
Definition same_output {V S} (R : S -> S -> Prop) (p q : V * S) : Prop :=
  fst p = fst q /\ R (snd p) (snd q).

(** The encoder names the wrapper knows. *)
Definition known_encoders : list string := ["vits"; "vitb"; "vitl"; "vitg"].

(** The configuration keys the resampler heads read. *)
Definition resampler_keys : list string :=
  ["output_dim"; "depth"; "dim_head"; "num_heads"; "num_tokens"; "ff_mult"].

(** Examples for the rest of the file. *)
Definition sample_unit : ResidualConvUnit.t :=
  FeatureFusionBlock.resConfUnit2 (sample_block true).

Definition sample_conv_block : ConvBlock.t :=
  match ConvBlock.init 3 5 gen0 with
  | Ok (c, _) => c
  | Raise _ => ConvBlock.mk blank_conv
                 (BatchNorm2d.mk 0 fzero fzero blank_tensor blank_tensor blank_tensor
                    blank_tensor 0 false) L_Identity
  end.

Definition sample_expand_mlp : Sequential.t :=
  match build_expand_mlp 6 4 3 gen0 with
  | Ok (s, _) => s
  | Raise _ => []
  end.

(** A stand-in for the task-token resampler in the examples: the pooling
    stand-in applied to the sum of the hidden states and the latents. *)
Definition pooling_task_resampler : TaskTokenResamplerModel :=
  {| TaskTokenResampler := pooling;
     TaskTokenResampler_init := fun dim depth dim_head heads num_queries
                                    embedding_dim output_dim ff_mult =>
       let+ l := Linear.init embedding_dim output_dim in
       iret {| pool_queries := num_queries; pool_map := l |};
     TaskTokenResampler_forward := fun p x latents =>
       let* s := add x latents in pooling_forward p s |}.

Definition sample_task_head (use_intermediate_depth : bool)
    : @TaskTokenDepthHead.t pooling_task_resampler :=
  match @TaskTokenDepthHead.init pooling_task_resampler (Some sample_config) 6
          use_intermediate_depth gen0 with
  | Ok (m, _) => m
  | Raise _ =>
      @TaskTokenDepthHead.mk pooling_task_resampler
        {| pool_queries := 0; pool_map := Linear.mk 0 0 blank_tensor None |}
        false None None None
  end.

(** Tensors that hold NaN: at every index, or at every position of an [h]
    by [w] grid in every plane. *)
Definition all_nan (x : Tensor) : Prop := forall idx, data x idx = fnan.
Definition nan_within (h w : N) (x : Tensor) : Prop :=
  forall b c i j, i < h -> j < w -> data x [b; c; i; j] = fnan.

(** Four scale entries of one image whose patch tokens hold no number. *)
Definition nan_entry : list Tensor := [constant [1; 576; 1024] fnan false].
Definition nan_feats : list (list Tensor) :=
  [nan_entry; nan_entry; nan_entry; nan_entry].

Lemma bind_ok {A B} (m : M A) (k : A -> M B) g a :
  m g = Ok a -> bind m k g = k a g.
Proof. intros E. unfold bind. now rewrite E. Qed.

Lemma bind_raise {A B} (m : M A) (k : A -> M B) g e :
  m g = Raise e -> bind m k g = Raise e.
Proof. intros E. unfold bind. now rewrite E. Qed.

Lemma bind_inv {A B} (m : M A) (k : A -> M B) g b :
  bind m k g = Ok b -> exists a, m g = Ok a /\ k a g = Ok b.
Proof.
  unfold bind. destruct (m g) as [a|e]; [|discriminate].
  intros E. now exists a.
Qed.

Lemma returns_bind {A B} (m : M A) (k : A -> M B) g (P : A -> Prop) (Q : B -> Prop) :
  returns m g P -> (forall a, P a -> returns (k a) g Q) -> returns (bind m k) g Q.
Proof.
  intros (a & E & Pa) K. destruct (K a Pa) as (b & Eb & Qb).
  exists b. split; [|exact Qb]. now rewrite (bind_ok _ _ _ _ E).
Qed.

Lemma returns_ret {A} (a : A) g (P : A -> Prop) : P a -> returns (ret a) g P.
Proof. intros Pa. now exists a. Qed.

Lemma returns_weaken {A} (m : M A) g (P Q : A -> Prop) :
  returns m g P -> (forall a, P a -> Q a) -> returns m g Q.
Proof. intros (a & E & Pa) PQ. exists a. auto. Qed.

Lemma ensures_bind {A B} (m : M A) (k : A -> M B) g (P : A -> Prop) (Q : B -> Prop) :
  ensures m g P -> (forall a, P a -> ensures (k a) g Q) -> ensures (bind m k) g Q.
Proof.
  intros Em K b Eb. apply bind_inv in Eb as (a & Ea & Eb).
  exact (K a (Em a Ea) b Eb).
Qed.

Lemma ensures_ret {A} (a : A) g (P : A -> Prop) : P a -> ensures (ret a) g P.
Proof. intros Pa b E. injection E as <-. exact Pa. Qed.

Lemma ensures_raise {A} e g (P : A -> Prop) : ensures (raise e) g P.
Proof. intros b E. discriminate. Qed.

Lemma ensures_weaken {A} (m : M A) g (P Q : A -> Prop) :
  ensures m g P -> (forall a, P a -> Q a) -> ensures m g Q.
Proof. intros Em PQ a E. auto. Qed.

Lemma raises_bind_l {A B} (m : M A) (k : A -> M B) g :
  raises m g -> raises (bind m k) g.
Proof. intros (e & E). exists e. now apply bind_raise. Qed.

Lemma raises_bind_r {A B} (m : M A) (k : A -> M B) g :
  (forall a, m g = Ok a -> raises (k a) g) -> raises (bind m k) g.
Proof.
  intros K. unfold raises, bind in *. destruct (m g) as [a|e]; eauto.
Qed.

Lemma raises_not_ok {A} (m : M A) g a : raises m g -> m g <> Ok a.
Proof. intros (e & E). congruence. Qed.

Lemma ok_or_raises {A} (m : M A) g : (exists a, m g = Ok a) \/ raises m g.
Proof. unfold raises. destruct (m g); eauto. Qed.

(** ** The tensor operations *)

Lemma op_ok s f rg g : op s f rg g = Ok (out_of g s f rg).
Proof. reflexivity. Qed.

Lemma op_returns s f rg g :
  returns (op s f rg) g (fun y => shape y = s /\ data y = f).
Proof. eexists. split; [reflexivity|]. now split. Qed.

Lemma no_grad_output s f rg : requires_grad (out_of false s f rg) = false.
Proof. reflexivity. Qed.

(** A rectified value is not negative: it is zero or more, or NaN. *)
Lemma relu_F_not_negative v : fltb (relu_F v) fzero = false.
Proof.
  unfold relu_F. destruct (fltb v fzero) eqn:E; [reflexivity|exact E].
Qed.

Lemma not_negative_cases v :
  fltb v fzero = false -> fleb fzero v = true \/ is_nan v = true.
Proof.
  destruct v as [s|s| |s m e]; cbn; auto; destruct s; cbn; auto; discriminate.
Qed.

Lemma relu_F_idem v : relu_F (relu_F v) = relu_F v.
Proof.
  unfold relu_F at 1. now rewrite relu_F_not_negative.
Qed.

Lemma relu_F_nan : relu_F fnan = fnan.
Proof. reflexivity. Qed.

Lemma relu_ok x g :
  relu x g = Ok (out_of g (shape x) (fun idx => relu_F (data x idx)) (requires_grad x)).
Proof. reflexivity. Qed.

Lemma permute_021 x g b n c :
  shape x = [b; n; c] ->
  returns (permute x [0; 2; 1]%nat) g (fun y => shape y = [b; c; n]).
Proof.
  intros Hs. unfold permute, rank. rewrite Hs. cbn.
  eexists. split; [reflexivity|]. reflexivity.
Qed.


Lemma reshape_ok x sizes g :
  numel_of sizes = numel x ->
  returns (reshape x sizes) g (fun y => shape y = sizes).
Proof.
  intros E. unfold reshape. apply N.eqb_eq in E. rewrite E.
  eexists. split; [reflexivity|]. reflexivity.
Qed.


Lemma conv_out_size_inv n k s p m :
  Conv2d.out_size n k s p = Some m ->
  n <> 0 /\ k <> 0 /\ s <> 0 /\ k <= n + 2 * p /\ m = (n + 2 * p - k) / s + 1.
Proof.
  unfold Conv2d.out_size.
  destruct (n =? 0) eqn:E1; [discriminate|].
  destruct (k =? 0) eqn:E2; [discriminate|].
  destruct (s =? 0) eqn:E3; [discriminate|].
  destruct (n + 2 * p <? k) eqn:E4; [discriminate|].
  cbn. intros E. injection E as <-.
  apply N.eqb_neq in E1, E2, E3. apply N.ltb_ge in E4. auto.
Qed.

Lemma conv_out_size_some n k s p :
  n <> 0 -> k <> 0 -> s <> 0 -> k <= n + 2 * p ->
  Conv2d.out_size n k s p = Some ((n + 2 * p - k) / s + 1).
Proof.
  intros H1 H2 H3 H4. unfold Conv2d.out_size.
  apply N.eqb_neq in H1, H2, H3. apply N.ltb_ge in H4.
  now rewrite H1, H2, H3, H4.
Qed.

Lemma conv_out_size_3_1_1 n : n <> 0 -> Conv2d.out_size n 3 1 1 = Some n.
Proof.
  intros Hn. rewrite conv_out_size_some by lia. f_equal.
  rewrite N.div_1_r. lia.
Qed.

Lemma conv_out_size_1_1_0 n : n <> 0 -> Conv2d.out_size n 1 1 0 = Some n.
Proof.
  intros Hn. rewrite conv_out_size_some by lia. f_equal.
  rewrite N.div_1_r. lia.
Qed.

Lemma conv_out_size_3_2_1 n : n <> 0 -> Conv2d.out_size n 3 2 1 = Some ((n + 1) / 2).
Proof.
  intros Hn. rewrite conv_out_size_some by lia. f_equal.
  replace (n + 2 * 1 - 3) with (n - 1) by lia.
  replace (n + 1) with ((n - 1) + 1 * 2) by lia.
  rewrite N.div_add by lia. reflexivity.
Qed.

Lemma convT_out_size_inv n k s p m :
  ConvTranspose2d.out_size n k s p = Some m ->
  n <> 0 /\ k <> 0 /\ s <> 0 /\ m = (n - 1) * s + k - 2 * p /\ m <> 0.
Proof.
  unfold ConvTranspose2d.out_size.
  destruct (n =? 0) eqn:E1; [discriminate|].
  destruct (k =? 0) eqn:E2; [discriminate|].
  destruct (s =? 0) eqn:E3; [discriminate|].
  destruct ((n - 1) * s + k <=? 2 * p) eqn:E4; [discriminate|].
  cbn. intros E. injection E as <-.
  apply N.eqb_neq in E1, E2, E3. apply N.leb_gt in E4.
  repeat split; auto. lia.
Qed.

Lemma convT_out_size_k_k_0 n k :
  n <> 0 -> k <> 0 -> ConvTranspose2d.out_size n k k 0 = Some (k * n).
Proof.
  intros Hn Hk. unfold ConvTranspose2d.out_size.
  apply N.eqb_neq in Hn as En. apply N.eqb_neq in Hk as Ek. rewrite En, Ek. cbn.
  assert (exists m, n = m + 1) as [m ->] by (exists (n - 1); lia).
  replace (m + 1 - 1) with m by lia.
  rewrite N.mul_0_r, N.sub_0_r.
  destruct (m * k + k <=? 0) eqn:E.
  - apply N.leb_le in E. nia.
  - f_equal. ring.
Qed.

Lemma out_of_writable g g' s f rg : writable g (out_of g' s f rg).
Proof.
  unfold writable, out_of. cbn. destruct (g' && rg); cbn; now rewrite ?andb_false_r.
Qed.

Lemma op_writable s f rg g g' y : op s f rg g = Ok y -> writable g' y.
Proof. intros E. injection E as <-. apply out_of_writable. Qed.

Lemma Conv2d_forward_batched c x b ch h w :
  shape x = [b; ch; h; w] -> Conv2d.forward c x = Conv2d.batched c x.
Proof. intros Hs. unfold Conv2d.forward. now rewrite Hs. Qed.

Lemma Conv2d_batched_inv c x g y :
  Conv2d.batched c x g = Ok y ->
  exists b h w ho wo,
    shape x = [b; Conv2d.in_channels c; h; w]
    /\ Conv2d.out_size h (Conv2d.kernel_size c) (Conv2d.stride c) (Conv2d.padding c)
       = Some ho
    /\ Conv2d.out_size w (Conv2d.kernel_size c) (Conv2d.stride c) (Conv2d.padding c)
       = Some wo
    /\ Conv2d.out_channels c <> 0
    /\ y = out_of g [b; Conv2d.out_channels c; ho; wo] (Conv2d.at_ c x h w)
             (requires_grad x || requires_grad (Conv2d.weight c)
              || opt_requires_grad (Conv2d.bias c)).
Proof.
  unfold Conv2d.batched.
  destruct (shape x) as [|b [|ch [|h [|w [|? ?]]]]]; try discriminate.
  destruct (Conv2d.out_channels c =? 0) eqn:Eo; [discriminate|].
  destruct (ch =? Conv2d.in_channels c) eqn:Ec; [|discriminate].
  apply N.eqb_eq in Ec. subst ch. cbn [negb].
  destruct (_ && _); [discriminate|].
  destruct (Conv2d.out_size h _ _ _) as [ho|] eqn:Eh; [|discriminate].
  destruct (Conv2d.out_size w _ _ _) as [wo|] eqn:Ew; [|discriminate].
  intros E. injection E as <-. exists b, h, w, ho, wo.
  apply N.eqb_neq in Eo. auto.
Qed.

(** A convolution that returns was given a batch [(N, C, H, W)] or a single
    image [(C, H, W)]: [lead] is the batch axis, if there is one. *)
Lemma Conv2d_forward_inv c x g y :
  Conv2d.forward c x g = Ok y ->
  exists lead h w ho wo,
    (length lead <= 1)%nat
    /\ shape x = lead ++ [Conv2d.in_channels c; h; w]
    /\ Conv2d.out_size h (Conv2d.kernel_size c) (Conv2d.stride c) (Conv2d.padding c)
       = Some ho
    /\ Conv2d.out_size w (Conv2d.kernel_size c) (Conv2d.stride c) (Conv2d.padding c)
       = Some wo
    /\ Conv2d.out_channels c <> 0
    /\ shape y = lead ++ [Conv2d.out_channels c; ho; wo]
    /\ (forall g', writable g' y).
Proof.
  unfold Conv2d.forward.
  destruct (shape x) as [|d0 [|d1 [|d2 [|d3 [|? ?]]]]] eqn:Hs.
  - intros E. apply Conv2d_batched_inv in E as (? & ? & ? & ? & ? & E & _).
    rewrite Hs in E. discriminate.
  - intros E. apply Conv2d_batched_inv in E as (? & ? & ? & ? & ? & E & _).
    rewrite Hs in E. discriminate.
  - intros E. apply Conv2d_batched_inv in E as (? & ? & ? & ? & ? & E & _).
    rewrite Hs in E. discriminate.
  - intros E. apply bind_inv in E as (x1 & E1 & E).
    unfold unsqueeze, rank in E1. rewrite Hs in E1. cbn in E1. injection E1 as <-.
    apply bind_inv in E as (y1 & Ey & E).
    apply Conv2d_batched_inv in Ey as (b & h & w & ho & wo & Hx & Hh & Hw & Ho & ->).
    cbn in Hx. injection Hx as <- -> -> ->.
    unfold squeeze in E. cbn in E. injection E as <-.
    exists [], h, w, ho, wo. cbn. repeat split; auto.
    intros g'. apply out_of_writable.
  - intros E.
    apply Conv2d_batched_inv in E as (b & h & w & ho & wo & Hx & Hh & Hw & Ho & ->).
    rewrite Hs in Hx. injection Hx as <- -> -> ->.
    exists [d0], h, w, ho, wo. cbn. repeat split; auto.
    intros g'. apply out_of_writable.
  - intros E. apply Conv2d_batched_inv in E as (? & ? & ? & ? & ? & E & _).
    rewrite Hs in E. discriminate.
Qed.

(** The same, for an input known to be a batch. *)
Lemma Conv2d_forward_inv4 c x g y b0 c0 h0 w0 :
  shape x = [b0; c0; h0; w0] ->
  Conv2d.forward c x g = Ok y ->
  exists ho wo,
    c0 = Conv2d.in_channels c
    /\ Conv2d.out_size h0 (Conv2d.kernel_size c) (Conv2d.stride c) (Conv2d.padding c)
       = Some ho
    /\ Conv2d.out_size w0 (Conv2d.kernel_size c) (Conv2d.stride c) (Conv2d.padding c)
       = Some wo
    /\ Conv2d.out_channels c <> 0
    /\ y = out_of g [b0; Conv2d.out_channels c; ho; wo] (Conv2d.at_ c x h0 w0)
             (requires_grad x || requires_grad (Conv2d.weight c)
              || opt_requires_grad (Conv2d.bias c)).
Proof.
  intros Hs E. rewrite (Conv2d_forward_batched c x _ _ _ _ Hs) in E.
  apply Conv2d_batched_inv in E as (b & h & w & ho & wo & Hx & Hh & Hw & Ho & ->).
  rewrite Hs in Hx. injection Hx as <- -> <- <-.
  exists ho, wo. auto.
Qed.

Lemma Conv2d_forward_returns c x g b h w ho wo i o k s p :
  conv_is c i o k s p ->
  shape x = [b; i; h; w] ->
  Conv2d.out_size h k s p = Some ho ->
  Conv2d.out_size w k s p = Some wo ->
  i <> 0 -> o <> 0 ->
  returns (Conv2d.forward c x) g
    (fun y => shape y = [b; o; ho; wo] /\ forall g', writable g' y).
Proof.
  intros (<- & <- & <- & <- & <-) Hs Hh Hw Hi Ho.
  rewrite (Conv2d_forward_batched c x _ _ _ _ Hs).
  unfold Conv2d.batched. rewrite Hs, N.eqb_refl, Hh, Hw.
  apply N.eqb_neq in Hi, Ho. rewrite Hi, Ho. cbn.
  eexists. split; [reflexivity|]. split; [reflexivity|].
  intros g'. apply out_of_writable.
Qed.

Lemma Conv2d_forward_wrong_channels c x g b ch h w :
  shape x = [b; ch; h; w] -> ch <> Conv2d.in_channels c ->
  raises (Conv2d.forward c x) g.
Proof.
  intros Hs Hc. rewrite (Conv2d_forward_batched c x _ _ _ _ Hs).
  unfold Conv2d.batched. rewrite Hs.
  apply N.eqb_neq in Hc. rewrite Hc.
  destruct (Conv2d.out_channels c =? 0); now exists RuntimeError.
Qed.

(** A convolution without output channels raises on every input. *)
Lemma Conv2d_forward_no_output c x g :
  Conv2d.out_channels c = 0 -> raises (Conv2d.forward c x) g.
Proof.
  intros Ho. destruct (Conv2d.forward c x g) as [y|e] eqn:E; [|now exists e].
  apply Conv2d_forward_inv in E as (? & ? & ? & ? & ? & _ & _ & _ & _ & H & _).
  contradiction.
Qed.

Lemma ConvTranspose2d_forward_batched c x b ch h w :
  shape x = [b; ch; h; w] ->
  ConvTranspose2d.forward c x = ConvTranspose2d.batched c x.
Proof. intros Hs. unfold ConvTranspose2d.forward. now rewrite Hs. Qed.

Lemma ConvTranspose2d_forward_inv4 c x g y b0 c0 h0 w0 :
  shape x = [b0; c0; h0; w0] ->
  ConvTranspose2d.forward c x g = Ok y ->
  exists ho wo,
    c0 = ConvTranspose2d.in_channels c
    /\ ConvTranspose2d.out_size h0 (ConvTranspose2d.kernel_size c)
         (ConvTranspose2d.stride c) (ConvTranspose2d.padding c) = Some ho
    /\ ConvTranspose2d.out_size w0 (ConvTranspose2d.kernel_size c)
         (ConvTranspose2d.stride c) (ConvTranspose2d.padding c) = Some wo
    /\ y = out_of g [b0; ConvTranspose2d.out_channels c; ho; wo]
             (ConvTranspose2d.at_ c x h0 w0)
             (requires_grad x || requires_grad (ConvTranspose2d.weight c)
              || opt_requires_grad (ConvTranspose2d.bias c)).
Proof.
  intros Hs E. rewrite (ConvTranspose2d_forward_batched c x _ _ _ _ Hs) in E.
  unfold ConvTranspose2d.batched in E. rewrite Hs in E.
  destruct (ConvTranspose2d.in_channels c =? 0); [discriminate|].
  destruct (c0 =? ConvTranspose2d.in_channels c) eqn:Ec; [|discriminate].
  apply N.eqb_eq in Ec. cbn [negb] in E.
  destruct (ConvTranspose2d.out_size h0 _ _ _) as [ho|] eqn:Eh; [|discriminate].
  destruct (ConvTranspose2d.out_size w0 _ _ _) as [wo|] eqn:Ew; [|discriminate].
  injection E as <-. exists ho, wo. auto.
Qed.

Lemma ConvTranspose2d_forward_returns c x g b h w ho wo i o k s p :
  convT_is c i o k s p ->
  shape x = [b; i; h; w] ->
  ConvTranspose2d.out_size h k s p = Some ho ->
  ConvTranspose2d.out_size w k s p = Some wo ->
  i <> 0 ->
  returns (ConvTranspose2d.forward c x) g
    (fun y => shape y = [b; o; ho; wo] /\ forall g', writable g' y).
Proof.
  intros (<- & <- & <- & <- & <-) Hs Hh Hw Hi.
  rewrite (ConvTranspose2d_forward_batched c x _ _ _ _ Hs).
  unfold ConvTranspose2d.batched. rewrite Hs, N.eqb_refl, Hh, Hw.
  apply N.eqb_neq in Hi. rewrite Hi. cbn.
  eexists. split; [reflexivity|]. split; [reflexivity|].
  intros g'. apply out_of_writable.
Qed.

Lemma Linear_forward_returns l x g lead i o :
  linear_is l i o ->
  shape x = lead ++ [i] ->
  returns (Linear.forward l x) g (fun y => shape y = lead ++ [o]).
Proof.
  intros (<- & <-) Hs. unfold Linear.forward.
  rewrite Hs, rev_app_distr. cbn. rewrite N.eqb_refl, rev_involutive.
  eexists. split; reflexivity.
Qed.


Lemma interpolate_size_ok x a g b c h w ho wo :
  shape x = [b; c; h; w] -> h <> 0 -> w <> 0 -> ho <> 0 -> wo <> 0 ->
  interpolate x (Size [ho; wo]) a g
  = Ok (out_of g [b; c; ho; wo]
          (fun idx => bilinear_plane a h w ho wo (plane x (ix idx 0) (ix idx 1))
                        (ix idx 2) (ix idx 3))
          (requires_grad x)).
Proof.
  intros Hs Hh Hw Hho Hwo. unfold interpolate. rewrite Hs. cbn.
  apply N.eqb_neq in Hh, Hw, Hho, Hwo. now rewrite Hh, Hw, Hho, Hwo.
Qed.

Lemma interpolate_size_returns x a g b c h w ho wo :
  shape x = [b; c; h; w] -> h <> 0 -> w <> 0 -> ho <> 0 -> wo <> 0 ->
  returns (interpolate x (Size [ho; wo]) a) g (fun y => shape y = [b; c; ho; wo]).
Proof.
  intros Hs Hh Hw Hho Hwo.
  unfold returns. rewrite (interpolate_size_ok x a g b c h w ho wo Hs Hh Hw Hho Hwo).
  eexists. split; reflexivity.
Qed.

Lemma interpolate_scale_returns x a g b c h w f :
  shape x = [b; c; h; w] -> h <> 0 -> w <> 0 -> f <> 0 ->
  returns (interpolate x (ScaleFactor f) a) g
    (fun y => shape y = [b; c; h * f; w * f]).
Proof.
  intros Hs Hh Hw Hf. unfold interpolate. rewrite Hs. cbn.
  assert (h * f <> 0) as Hhf by nia. assert (w * f <> 0) as Hwf by nia.
  apply N.eqb_neq in Hh, Hw, Hhf, Hwf. rewrite Hh, Hw, Hhf, Hwf. cbn.
  eexists. split; reflexivity.
Qed.

(** What a successful resize says about its argument and its result. *)
Lemma interpolate_inv x m a g y :
  interpolate x m a g = Ok y ->
  exists b c h w ho wo,
    shape x = [b; c; h; w] /\ shape y = [b; c; ho; wo]
    /\ h <> 0 /\ w <> 0 /\ ho <> 0 /\ wo <> 0
    /\ match m with
       | Size s => s = [ho; wo]
       | ScaleFactor f => ho = h * f /\ wo = w * f
       end.
Proof.
  unfold interpolate.
  set (target := match m with Size s => s | ScaleFactor f => _ end).
  destruct (negb _) eqn:El; [discriminate|].
  destruct (shape x) as [|b [|c [|h [|w [|? ?]]]]] eqn:Hs; try discriminate;
    try (destruct target as [|? [|? [|? ?]]]; discriminate).
  destruct target as [|ho [|wo [|? ?]]] eqn:Ht; try discriminate.
  destruct ((h =? 0) || (w =? 0) || (ho =? 0) || (wo =? 0)) eqn:Ez; [discriminate|].
  apply orb_false_elim in Ez as [Ez Ewo]. apply orb_false_elim in Ez as [Ez Eho].
  apply orb_false_elim in Ez as [Eh Ew].
  apply N.eqb_neq in Eh, Ew, Eho, Ewo.
  intros E. injection E as <-. exists b, c, h, w, ho, wo.
  repeat split; auto.
  subst target. destruct m as [s|f]; [exact Ht|].
  cbn in Ht. injection Ht as <- <-. auto.
Qed.

Lemma pad_left_same s : pad_left (length s) s = s.
Proof. unfold pad_left. now rewrite Nat.sub_diag. Qed.

Lemma broadcast_shapes_same s : broadcast_shapes s s = Some s.
Proof.
  unfold broadcast_shapes. rewrite Nat.max_id, pad_left_same.
  assert (forallb (fun p : N * N => (fst p =? snd p) || (fst p =? 1) || (snd p =? 1))
            (combine s s) = true) as ->.
  { induction s as [|d s IH]; [reflexivity|]. cbn. now rewrite N.eqb_refl, IH. }
  f_equal. induction s as [|d s IH]; [reflexivity|]. cbn. rewrite IH.
  now destruct (d =? 1) eqn:E.
Qed.

Lemma add_same_returns a b g :
  shape a = shape b -> returns (add a b) g (fun y => shape y = shape a).
Proof.
  intros E. unfold add. rewrite <- E, broadcast_shapes_same.
  eexists. split; reflexivity.
Qed.

Lemma add_same_inv a b g y :
  add a b g = Ok y -> shape a = shape b -> shape y = shape a.
Proof.
  intros E Hs. destruct (add_same_returns a b g Hs) as (y' & E' & Hy).
  congruence.
Qed.

Lemma BatchNorm2d_forward_inv `{Transcendental} m x g y m' :
  BatchNorm2d.forward m x g = Ok (y, m') ->
  shape y = shape x
  /\ bn_same_params m m'
  /\ (BatchNorm2d.training m = false -> m' = m)
  /\ (BatchNorm2d.training m = true ->
      BatchNorm2d.num_batches_tracked m' = BatchNorm2d.num_batches_tracked m + 1).
Proof.
  unfold BatchNorm2d.forward.
  destruct (shape x) as [|b [|ch [|h [|w [|? ?]]]]] eqn:Hs; try discriminate.
  destruct (BatchNorm2d.training m) eqn:Et.
  - destruct (b * h * w =? 1); [discriminate|].
    destruct (negb _); [discriminate|].
    intros E. cbv [bind BatchNorm2d.normalised op ret] in E. injection E as <- <-.
    cbn. repeat split; auto. discriminate.
  - destruct (negb _); [discriminate|].
    intros E. cbv [bind BatchNorm2d.normalised op ret] in E. injection E as <- <-.
    cbn. repeat split; auto. discriminate.
Qed.

Lemma BatchNorm2d_forward_writable `{Transcendental} m x g y m' g' :
  BatchNorm2d.forward m x g = Ok (y, m') -> writable g' y.
Proof.
  unfold BatchNorm2d.forward.
  destruct (shape x) as [|b [|ch [|h [|w [|? ?]]]]] eqn:Hs; try discriminate.
  destruct (BatchNorm2d.training m) eqn:Et.
  - destruct (b * h * w =? 1); [discriminate|].
    destruct (negb _); [discriminate|].
    intros E. cbv [bind BatchNorm2d.normalised op ret] in E. injection E as <- _.
    apply out_of_writable.
  - destruct (negb _); [discriminate|].
    intros E. cbv [bind BatchNorm2d.normalised op ret] in E. injection E as <- _.
    apply out_of_writable.
Qed.

Lemma BatchNorm2d_forward_returns `{Transcendental} m x g b f h w :
  shape x = [b; f; h; w] ->
  BatchNorm2d.num_features m = f ->
  b * h * w <> 1 ->
  returns (BatchNorm2d.forward m x) g
    (fun r => shape (fst r) = [b; f; h; w]
              /\ BatchNorm2d.num_features (snd r) = f).
Proof.
  intros Hs Hf Hn. unfold BatchNorm2d.forward. rewrite Hs, Hf, N.eqb_refl. cbn.
  apply N.eqb_neq in Hn. rewrite Hn.
  destruct (BatchNorm2d.training m); eexists; (split; [reflexivity|]); cbn; auto.
Qed.

Lemma relu__returns x g :
  writable g x ->
  relu_ x g = Ok {| shape := shape x; data := fun idx => relu_F (data x idx);
                    requires_grad := requires_grad x; is_leaf := is_leaf x |}.
Proof. unfold writable, relu_, bind, grad_enabled. now intros ->. Qed.

Lemma relu__raises x g :
  g = true -> requires_grad x = true -> is_leaf x = true ->
  relu_ x g = Raise RuntimeError.
Proof. unfold relu_, bind, grad_enabled. now intros -> -> ->. Qed.

Lemma relu__inv x g y :
  relu_ x g = Ok y ->
  writable g x
  /\ y = {| shape := shape x; data := fun idx => relu_F (data x idx);
            requires_grad := requires_grad x; is_leaf := is_leaf x |}.
Proof.
  unfold relu_, bind, grad_enabled, writable.
  destruct (g && requires_grad x && is_leaf x); [discriminate|].
  intros E. now injection E as <-.
Qed.

(** A pointwise activation keeps the shape, and its result can be written
    to wherever its argument can. *)
Lemma pointwise_returns `{Transcendental} l x g :
  pointwise l -> activation_accepts l g x ->
  returns (Layers.forward l x) g
    (fun y => shape y = shape x /\ forall g', writable g' x -> writable g' y).
Proof.
  destruct l as [| | |inplace| |]; cbn [pointwise Layers.forward];
    try contradiction; intros _ Ha.
  - destruct inplace.
    + unfold returns. rewrite (relu__returns x g (Ha eq_refl)).
      eexists. split; [reflexivity|].
      split; [reflexivity|]. intros g' Hw. exact Hw.
    + eexists. split; [reflexivity|]. split; [reflexivity|].
      intros g' _. apply out_of_writable.
  - eexists. split; [reflexivity|]. split; [reflexivity|].
    intros g' _. apply out_of_writable.
  - eexists. split; [reflexivity|]. split; [reflexivity|]. auto.
Qed.

Lemma pointwise_inv `{Transcendental} l x g y :
  pointwise l -> Layers.forward l x g = Ok y -> shape y = shape x.
Proof.
  destruct l as [| | |inplace| |]; cbn [pointwise Layers.forward];
    try contradiction; intros _ E.
  - destruct inplace.
    + apply relu__inv in E as [_ ->]. reflexivity.
    + now injection E as <-.
  - now injection E as <-.
  - now injection E as <-.
Qed.

Lemma pointwise_inv_writable `{Transcendental} l x g y g' :
  pointwise l -> Layers.forward l x g = Ok y -> writable g' x -> writable g' y.
Proof.
  destruct l as [| | |inplace| |]; cbn [pointwise Layers.forward];
    try contradiction; intros _ E Hw.
  - destruct inplace.
    + apply relu__inv in E as [_ ->]. exact Hw.
    + injection E as <-. apply out_of_writable.
  - injection E as <-. apply out_of_writable.
  - now injection E as <-.
Qed.

Lemma mlp_returns `{Transcendental} s x g lead i h :
  mlp_is s i h -> shape x = lead ++ [i] ->
  returns (Sequential.forward s x) g (fun y => shape y = lead ++ [h]).
Proof.
  intros (l1 & l2 & -> & H1 & H2) Hs. cbn.
  eapply returns_bind; [exact (Linear_forward_returns _ _ g _ _ _ H1 Hs)|].
  intros y1 Hy1. eapply returns_bind; [apply op_returns|].
  intros y2 [Hy2 _]. eapply returns_bind.
  - apply (Linear_forward_returns l2 y2 g lead h h H2). now rewrite Hy2.
  - intros y3 Hy3. now apply returns_ret.
Qed.

Lemma readout_returns `{Transcendental} s x g lead c :
  readout_is c s -> shape x = lead ++ [2 * c] ->
  returns (Sequential.forward s x) g (fun y => shape y = lead ++ [c]).
Proof.
  intros (l & -> & Hl) Hs. cbn.
  eapply returns_bind; [exact (Linear_forward_returns _ _ g _ _ _ Hl Hs)|].
  intros y1 Hy1. eapply returns_bind; [apply op_returns|].
  intros y2 [Hy2 _]. apply returns_ret. congruence.
Qed.

Lemma unsqueeze_returns x d g :
  (d <= rank x)%nat ->
  returns (unsqueeze x d) g
    (fun y => shape y = insert_at d 1 (shape x)
              /\ data y = fun idx => data x (remove_at d idx)).
Proof.
  intros Hd. unfold unsqueeze. apply Nat.leb_le in Hd. rewrite Hd.
  eexists. split; [reflexivity|]. now split.
Qed.

Lemma expand_as_tokens u x g b n c :
  shape u = [b; 1; c] -> shape x = [b; n; c] ->
  returns (expand_as u x) g (fun y => shape y = [b; n; c]).
Proof.
  intros Hu Hx. unfold expand_as, broadcastable_to. rewrite Hu, Hx. cbn.
  rewrite !N.eqb_refl. cbn. rewrite orb_true_r. cbn.
  eexists. split; reflexivity.
Qed.

Lemma cat_last_tokens a b' g b n c :
  shape a = [b; n; c] -> shape b' = [b; n; c] ->
  returns (cat_last a b') g (fun y => shape y = [b; n; 2 * c]).
Proof.
  intros Ha Hb. unfold cat_last. rewrite Ha, Hb. cbn. rewrite !N.eqb_refl. cbn.
  eexists. split; [reflexivity|]. cbn. do 3 f_equal. lia.
Qed.

Lemma squeeze_channel x g b h w :
  shape x = [b; 1; h; w] ->
  squeeze x 1 g
  = Ok (out_of g [b; h; w] (fun idx => data x (insert_at 1 0 idx)) (requires_grad x)).
Proof. intros Hs. unfold squeeze, rank. rewrite Hs. reflexivity. Qed.

Lemma select0_ok x i g d s :
  shape x = d :: s -> i < d ->
  select0 x i g = Ok (out_of g s (fun idx => data x (i :: idx)) (requires_grad x)).
Proof.
  intros Hs Hi. unfold select0. rewrite Hs. apply N.ltb_lt in Hi. now rewrite Hi.
Qed.

Lemma numpy_ok t g :
  requires_grad t = false ->
  numpy t g = Ok {| nd_shape := shape t; nd_data := data t |}.
Proof. intros E. unfold numpy. now rewrite E. Qed.

(** ** Residual convolution unit *)

Lemma bn_same_params_refl m : bn_same_params m m.
Proof. repeat split. Qed.

Lemma opt_same_refl {A} (R : A -> A -> Prop) (o : option A) :
  (forall a, R a a) -> opt_same R o o.
Proof. intros HR. destruct o; cbn; auto. Qed.

Lemma maybe_bn_inv `{Transcendental} flag b out g o b' :
  ResidualConvUnit.maybe_bn flag b out g = Ok (o, b') ->
  shape o = shape out
  /\ opt_same bn_same_params b b'
  /\ (flag && bn_updates b = false -> b' = b).
Proof.
  unfold ResidualConvUnit.maybe_bn. destruct flag.
  - destruct b as [m|]; [|discriminate].
    intros E. apply bind_inv in E as ([o1 m1] & E1 & E2).
    injection E2 as <- <-.
    apply BatchNorm2d_forward_inv in E1 as (Hs & Hp & Hf & _).
    split; [exact Hs|]. split; [exact Hp|].
    cbn. intros Et. f_equal. auto.
  - intros E. injection E as <- <-. split; [reflexivity|]. split; [|reflexivity].
    apply opt_same_refl, bn_same_params_refl.
Qed.

Lemma maybe_bn_returns `{Transcendental} flag o out g b f h w :
  shape out = [b; f; h; w] ->
  (flag = true -> bn_is o f) ->
  (flag = true -> b * h * w <> 1) ->
  returns (ResidualConvUnit.maybe_bn flag o out) g
    (fun r => shape (fst r) = [b; f; h; w] /\ (flag = true -> bn_is (snd r) f)
              /\ forall g', writable g' out -> writable g' (fst r)).
Proof.
  intros Hs Hb Hn. unfold ResidualConvUnit.maybe_bn. destruct flag.
  - destruct (Hb eq_refl) as (m & -> & Hm).
    destruct (BatchNorm2d_forward_returns m out g b f h w Hs Hm (Hn eq_refl))
      as ([o1 m1] & E & H1 & H2).
    exists (o1, Some m1). split; [now rewrite (bind_ok _ _ _ _ E)|].
    cbn in *. split; [exact H1|]. split; [intros _; now exists m1|].
    intros g' _. exact (BatchNorm2d_forward_writable m out g o1 m1 g' E).
  - apply returns_ret. cbn. split; [exact Hs|]. split; [discriminate|auto].
Qed.

Lemma maybe_bn_inv_writable `{Transcendental} flag b out g o b' g' :
  ResidualConvUnit.maybe_bn flag b out g = Ok (o, b') ->
  writable g' out -> writable g' o.
Proof.
  unfold ResidualConvUnit.maybe_bn. destruct flag.
  - destruct b as [m|]; [|discriminate].
    intros E _. apply bind_inv in E as ([o1 m1] & E1 & E2).
    injection E2 as <- _. exact (BatchNorm2d_forward_writable m out g o1 m1 g' E1).
  - intros E. now injection E as <- _.
Qed.

Lemma add_writable a b g y g' : add a b g = Ok y -> writable g' y.
Proof.
  unfold add. destruct (broadcast_shapes _ _); [|discriminate].
  apply op_writable.
Qed.

Lemma rcu_returns `{Transcendental} r x g features use_bn b h w :
  rcu_wf features use_bn r ->
  shape x = [b; features; h; w] -> h <> 0 -> w <> 0 ->
  (use_bn = true -> b * h * w <> 1) ->
  features <> 0 ->
  activation_accepts (ResidualConvUnit.activation r) g x ->
  returns (ResidualConvUnit.forward r x) g
    (fun p => shape (fst p) = [b; features; h; w] /\ rcu_wf features use_bn (snd p)
              /\ forall g', writable g' (fst p)).
Proof.
  intros (Hbn & Hg & Hc1 & Hc2 & Hb & Ha) Hs Hh Hw Hn Hf Hacc. subst use_bn.
  unfold ResidualConvUnit.forward.
  eapply returns_bind; [apply (pointwise_returns _ x g Ha Hacc)|]. intros a0 [Ha0 _].
  rewrite Hs in Ha0.
  eapply returns_bind.
  { apply (Conv2d_forward_returns _ a0 g b h w h w _ _ _ _ _ Hc1 Ha0);
      solve [now apply conv_out_size_3_1_1 | exact Hf]. }
  intros a1 [Ha1 Hw1]. eapply returns_bind.
  { apply (maybe_bn_returns _ _ a1 g b features h w Ha1); auto.
    intros E. now apply Hb. }
  intros [a2 bn1'] (Ha2 & Hb1 & Hw2). cbn in Ha2, Hb1, Hw2.
  eapply returns_bind.
  { apply (pointwise_returns _ a2 g Ha). intros _. apply Hw2, Hw1. }
  intros a3 [Ha3 _].
  rewrite Ha2 in Ha3. eapply returns_bind.
  { apply (Conv2d_forward_returns _ a3 g b h w h w _ _ _ _ _ Hc2 Ha3);
      solve [now apply conv_out_size_3_1_1 | exact Hf]. }
  intros a4 [Ha4 _]. eapply returns_bind.
  { apply (maybe_bn_returns _ _ a4 g b features h w Ha4); auto.
    intros E. now apply Hb. }
  intros [a5 bn2'] (Ha5 & Hb2 & _). cbn in Ha5, Hb2.
  rewrite Hg. cbn.
  eapply returns_bind; [apply (returns_ret a5 g (fun a => a = a5) eq_refl)|].
  intros a6 ->.
  destruct (add_same_returns a5
              (if Layers.overwrites_input (ResidualConvUnit.activation r)
               then a0 else x) g) as (a7 & E7 & Ha7).
  { destruct (Layers.overwrites_input _); congruence. }
  eexists. split; [rewrite (bind_ok _ _ _ _ E7); reflexivity|].
  cbn. split; [congruence|]. split.
  - unfold rcu_wf. cbn. intuition auto.
  - intros g'. exact (add_writable _ _ _ _ g' E7).
Qed.

(** A unit that returns gives back the shape of its input, a batch or a
    single image of [features] channels. *)
Lemma rcu_inv `{Transcendental} r x g features use_bn y r' :
  rcu_wf features use_bn r ->
  ResidualConvUnit.forward r x g = Ok (y, r') ->
  shape y = shape x /\ rcu_wf features use_bn r'
  /\ (forall g', writable g' y)
  /\ features <> 0
  /\ exists lead h w,
       (length lead <= 1)%nat /\ shape x = lead ++ [features; h; w]
       /\ h <> 0 /\ w <> 0.
Proof.
  intros (Hbn & Hg & Hc1 & Hc2 & Hb & Ha) E.
  unfold ResidualConvUnit.forward in E.
  apply bind_inv in E as (a0 & E0 & E). apply (pointwise_inv _ _ _ _ Ha) in E0.
  apply bind_inv in E as (a1 & E1 & E).
  apply Conv2d_forward_inv in E1
    as (lead & h & w & ho & wo & Hl & Hs0 & Hho & Hwo & Hoc & Hs1 & _).
  destruct Hc1 as (Hi1 & Ho1 & Hk1 & Hst1 & Hp1).
  rewrite Hk1, Hst1, Hp1 in Hho, Hwo. rewrite Hi1 in Hs0. rewrite Ho1 in Hs1, Hoc.
  apply conv_out_size_inv in Hho as Hho'. destruct Hho' as (Hh & _).
  apply conv_out_size_inv in Hwo as Hwo'. destruct Hwo' as (Hw & _).
  rewrite conv_out_size_3_1_1 in Hho, Hwo by assumption.
  injection Hho as <-. injection Hwo as <-.
  apply bind_inv in E as ([a2 bn1'] & E2 & E).
  apply maybe_bn_inv in E2 as (Hs2 & Hp2 & _).
  apply bind_inv in E as (a3 & E3 & E). apply (pointwise_inv _ _ _ _ Ha) in E3.
  apply bind_inv in E as (a4 & E4 & E).
  apply Conv2d_forward_inv in E4
    as (lead4 & h4 & w4 & ho4 & wo4 & Hl4 & Hs3 & Hho4 & Hwo4 & _ & Hs4 & _).
  destruct Hc2 as (Hi2 & Ho2 & Hk2 & Hst2 & Hp2').
  rewrite Hk2, Hst2, Hp2' in Hho4, Hwo4. rewrite Hi2 in Hs3. rewrite Ho2 in Hs4.
  assert (lead4 = lead /\ h4 = h /\ w4 = w) as (-> & -> & ->).
  { rewrite E3, Hs2, Hs1 in Hs3. apply app_inj_2 in Hs3 as [-> Hs3]; [|reflexivity].
    injection Hs3 as -> ->. auto. }
  rewrite conv_out_size_3_1_1 in Hho4, Hwo4 by assumption.
  injection Hho4 as <-. injection Hwo4 as <-.
  apply bind_inv in E as ([a5 bn2'] & E5 & E).
  apply maybe_bn_inv in E5 as (Hs5 & Hp5 & _).
  apply bind_inv in E as (a6 & E6 & E).
  assert (a6 = a5) as ->.
  { destruct (1 <? ResidualConvUnit.groups r); [discriminate|]. now injection E6. }
  apply bind_inv in E as (a7 & E7 & E). injection E as <- <-.
  assert (shape x = lead ++ [features; h; w]) as Hx by congruence.
  pose proof (add_writable _ _ _ _ g E7) as _.
  assert (forall g', writable g' a7) as Hw7
    by (intros g'; exact (add_writable _ _ _ _ g' E7)).
  apply add_same_inv in E7;
    [|destruct (Layers.overwrites_input _); congruence].
  split; [congruence|]. split; [|split; [exact Hw7|split; [exact Hoc|]]].
  - unfold rcu_wf. cbn. split; [exact Hbn|]. split; [exact Hg|].
    split; [repeat split; assumption|]. split; [repeat split; assumption|].
    split; [|exact Ha].
    intros Eb. destruct (Hb Eb) as ((m1 & Em1 & Hm1) & (m2 & Em2 & Hm2)).
    rewrite Em1 in Hp2. rewrite Em2 in Hp5.
    destruct bn1' as [n1|]; [|contradiction]. destruct bn2' as [n2|]; [|contradiction].
    destruct Hp2 as (Hf1 & _). destruct Hp5 as (Hf2 & _).
    split; eexists; split; try reflexivity; congruence.
  - exists lead, h, w. auto.
Qed.


(** ** Feature fusion block *)

Lemma interpolate_modifier_inv x configured explicit a g z :
  interpolate x (FeatureFusionBlock.modifier_of configured explicit) a g = Ok z ->
  exists b c h w ho wo,
    shape x = [b; c; h; w] /\ shape z = [b; c; ho; wo]
    /\ h <> 0 /\ w <> 0 /\ ho <> 0 /\ wo <> 0
    /\ resize_target_spec explicit configured h w = [ho; wo].
Proof.
  intros E.
  apply interpolate_inv in E as (b & c & h & w & ho & wo & Hx & Hz & Hh & Hw & Hho & Hwo & Hm).
  exists b, c, h, w, ho, wo. repeat (split; [assumption|]).
  unfold FeatureFusionBlock.modifier_of, resize_target_spec in *.
  destruct explicit as [s|]; [exact Hm|].
  destruct configured as [s|]; [exact Hm|].
  destruct Hm as [-> ->]. f_equal; [|f_equal]; lia.
Qed.

Lemma interpolate_modifier_returns x configured explicit a g b c h w ho wo :
  shape x = [b; c; h; w] -> h <> 0 -> w <> 0 -> ho <> 0 -> wo <> 0 ->
  resize_target_spec explicit configured h w = [ho; wo] ->
  returns (interpolate x (FeatureFusionBlock.modifier_of configured explicit) a) g
    (fun z => shape z = [b; c; ho; wo]).
Proof.
  intros Hx Hh Hw Hho Hwo Ht.
  unfold FeatureFusionBlock.modifier_of, resize_target_spec in *.
  destruct explicit as [s|];
    [subst s; apply (interpolate_size_returns x a g b c h w); assumption|].
  destruct configured as [s|];
    [subst s; apply (interpolate_size_returns x a g b c h w); assumption|].
  injection Ht as <- <-.
  replace (2 * h) with (h * 2) by lia. replace (2 * w) with (w * 2) by lia.
  apply (interpolate_scale_returns x a g b c h w 2); auto.
Qed.

Lemma ffb_returns `{Transcendental} f xs x size g features use_bn expand
    configured b h w ho wo :
  ffb_wf features use_bn expand configured f ->
  fusion_inputs xs x ->
  shape x = [b; features; h; w] -> h <> 0 -> w <> 0 ->
  (use_bn = true -> b * h * w <> 1) ->
  resize_target_spec size configured h w = [ho; wo] -> ho <> 0 -> wo <> 0 ->
  (if expand then features / 2 else features) <> 0 ->
  fusion_accepts f g xs ->
  returns (FeatureFusionBlock.forward f xs size) g
    (fun p => shape (fst p)
              = [b; if expand then features / 2 else features; ho; wo]
              /\ ffb_wf features use_bn expand configured (snd p)
              /\ FeatureFusionBlock.align_corners (snd p)
                 = FeatureFusionBlock.align_corners f
              /\ forall g', writable g' (fst p)).
Proof.
  intros (Hoc & Hr1 & Hr2 & He & Hsz) Hxs Hx Hh Hw Hn Ht Hho Hwo Hout0 Hacc.
  assert (features <> 0) as Hf.
  { intros ->. destruct expand; now apply Hout0. }
  assert (returns
            (match xs with
             | [_; skip] =>
                 let* (res, unit1) :=
                   ResidualConvUnit.forward (FeatureFusionBlock.resConfUnit1 f) skip in
                 let* output := add x res in
                 ret (output, unit1)
             | _ => ret (x, FeatureFusionBlock.resConfUnit1 f)
             end) g
            (fun p => shape (fst p) = [b; features; h; w]
                      /\ rcu_wf features use_bn (snd p)
                      /\ activation_accepts
                           (ResidualConvUnit.activation
                              (FeatureFusionBlock.resConfUnit2 f)) g (fst p)))
    as Hfuse.
  { destruct Hxs as [->|(skip & -> & Hskip)].
    - apply returns_ret. cbn in Hacc. auto.
    - cbn in Hacc. eapply returns_bind.
      + apply (rcu_returns _ skip g features use_bn b h w Hr1); auto. congruence.
      + intros [res unit1] (Hres & Hu1 & _). cbn in Hres, Hu1.
        destruct (add_same_returns x res g) as (o & Eo & Ho); [congruence|].
        exists (o, unit1). split; [now rewrite (bind_ok _ _ _ _ Eo)|].
        cbn. split; [congruence|]. split; [assumption|].
        intros _. exact (add_writable _ _ _ _ g Eo). }
  unfold FeatureFusionBlock.forward.
  assert (exists rest, xs = x :: rest) as (rest & Exs).
  { destruct Hxs as [->|(skip & -> & _)]; eauto. }
  rewrite Exs. rewrite Exs in Hfuse. cbn [fst snd] in *.
  eapply returns_bind; [exact Hfuse|].
  intros [o unit1] (Ho & Hu1 & Hao). cbn in Ho, Hu1, Hao.
  eapply returns_bind; [apply (rcu_returns _ o g features use_bn b h w Hr2); auto|].
  intros [o2 unit2] (Ho2 & Hu2 & _). cbn in Ho2, Hu2.
  eapply returns_bind.
  { rewrite Hsz.
    apply (interpolate_modifier_returns o2 configured size _ g b features h w ho wo);
      auto. }
  intros z Hz. eapply returns_bind.
  { apply (Conv2d_forward_returns _ z g b ho wo ho wo _ _ _ _ _ Hoc Hz);
      solve [now apply conv_out_size_1_1_0 | assumption]. }
  intros out [Hout Hwout]. apply returns_ret. cbn. split; [exact Hout|].
  split; [|split; [reflexivity|exact Hwout]]. unfold ffb_wf. cbn. auto.
Qed.

(** What a block that returns did: it resized the fused tensor to the
    target chosen from the explicit size, the configured size or the
    factor two, and projected the result. *)
Lemma ffb_inv `{Transcendental} f xs size g features use_bn expand configured
    out f' :
  ffb_wf features use_bn expand configured f ->
  FeatureFusionBlock.forward f xs size g = Ok (out, f') ->
  exists x rest fused z b h w ho wo,
    xs = x :: rest
    /\ shape fused = [b; features; h; w]
    /\ resize_target_spec size configured h w = [ho; wo]
    /\ interpolate fused
         (match size, configured with
          | Some s, _ => Size s
          | None, Some s => Size s
          | None, None => ScaleFactor 2
          end) (FeatureFusionBlock.align_corners f) g = Ok z
    /\ Conv2d.forward (FeatureFusionBlock.out_conv f) z g = Ok out
    /\ shape out = [b; if expand then features / 2 else features; ho; wo]
    /\ (fusion_inputs xs x -> shape x = shape fused)
    /\ ffb_wf features use_bn expand configured f'.
Proof.
  intros (Hoc & Hr1 & Hr2 & He & Hsz) E.
  unfold FeatureFusionBlock.forward in E.
  destruct xs as [|x rest]; [discriminate|].
  apply bind_inv in E as ([o unit1] & E1 & E).
  apply bind_inv in E as ([o2 unit2] & E2 & E).
  apply (rcu_inv _ _ _ _ _ _ _ Hr2) in E2
    as (Ho2 & Hu2 & _ & _ & lead & h & w & Hl & Ho & Hh & Hw).
  apply bind_inv in E as (z & Ez & E).
  apply bind_inv in E as (out' & Eo & E). injection E as <- <-.
  rewrite Hsz in Ez.
  apply interpolate_modifier_inv in Ez as Hz.
  destruct Hz as (b & c' & h' & w' & ho & wo & Hx2 & Hz & _ & _ & Hho & Hwo & Ht).
  rewrite Ho2, Ho in Hx2.
  assert (lead = [b] /\ c' = features /\ h' = h /\ w' = w) as (-> & -> & -> & ->).
  { destruct lead as [|b0 [|? ?]]; cbn in Hx2, Hl; try discriminate; try lia.
    injection Hx2 as -> -> -> ->. auto. }
  cbn in Ho.
  destruct (Conv2d_forward_inv4 _ _ _ _ _ _ _ _ Hz Eo)
    as (ho3 & wo3 & _ & Hh3 & Hw3 & _ & Hout).
  destruct Hoc as (Hi & Hoo & Hk & Hst & Hp).
  rewrite Hk, Hst, Hp in Hh3, Hw3. rewrite Hoo in Hout.
  rewrite conv_out_size_1_1_0 in Hh3, Hw3 by assumption.
  injection Hh3 as <-. injection Hw3 as <-.
  assert (shape out' = [b; if expand then features / 2 else features; ho; wo])
    as Hsout by (now rewrite Hout).
  clear Hout.
  assert (rcu_wf features use_bn unit1
          /\ (fusion_inputs (x :: rest) x -> shape x = shape o)) as [Hu1 Hfx].
  { destruct rest as [|skip [|? ?]].
    - injection E1 as <- <-. auto.
    - apply bind_inv in E1 as ([res u1] & Er & E1).
      apply (rcu_inv _ _ _ _ _ _ _ Hr1) in Er as (Hres & Hu1 & _).
      apply bind_inv in E1 as (o' & Ea & E1). injection E1 as <- <-.
      split; [exact Hu1|].
      intros [Ex|(skip' & Ex & Hskip)]; [discriminate|].
      injection Ex as <-. symmetry. apply (add_same_inv _ _ _ _ Ea). congruence.
    - injection E1 as <- <-. split; [exact Hr1|].
      intros [Ex|(skip' & Ex & _)]; discriminate. }
  exists x, rest, o2, z, b, h, w, ho, wo.
  split; [reflexivity|]. split; [congruence|]. split; [exact Ht|].
  split.
  { unfold FeatureFusionBlock.modifier_of in Ez.
    destruct size, configured; exact Ez. }
  split; [exact Eo|]. split; [exact Hsout|].
  split; [intros Hf; rewrite (Hfx Hf); congruence|].
  unfold ffb_wf. cbn. split; [repeat split; assumption|].
  split; [exact Hu1|]. split; [exact Hu2|]. split; assumption.
Qed.


(** ** Dense prediction head *)

Lemma item_ok {A} (l : list A) i a g : l !! i = Some a -> item l i g = Ok a.
Proof. intros E. unfold item. now rewrite E. Qed.

Lemma item_returns {A} (l : list A) i a g :
  l !! i = Some a -> returns (item l i) g (fun y => y = a).
Proof. intros E. exists a. split; [now apply item_ok|reflexivity]. Qed.

Lemma item_raises {A} (l : list A) i g : l !! i = None -> raises (item l i) g.
Proof. intros E. exists IndexError. unfold item. now rewrite E. Qed.

Lemma attr_returns {A} (o : option A) a g :
  o = Some a -> returns (attr o) g (fun y => y = a).
Proof. intros ->. exists a. split; reflexivity. Qed.

Lemma dpt_wf_projects in_channels features use_bn ocs cls self :
  dpt_wf in_channels features use_bn ocs cls self ->
  forall i oc, ocs !! i = Some oc ->
    exists c, DPTHead.projects self !! i = Some c
              /\ conv_is c in_channels oc 1 1 0.
Proof.
  intros (oc0 & oc1 & oc2 & oc3 & rest & _ & _ & Hp & _) i oc Hi.
  destruct (Forall2_lookup_r _ _ _ _ _ Hp Hi) as (c & Hc & Hconv). eauto.
Qed.

(** The tokens of a scale entry, after the class token is merged when it is
    used, have the shape of the patch tokens. *)
Lemma tokens_returns `{Transcendental} self g in_channels features use_bn ocs cls
    (i : nat) x b n :
  dpt_wf in_channels features use_bn ocs cls self ->
  (i < 4)%nat ->
  entry_ok cls b n in_channels x ->
  returns
    (if DPTHead.use_clstoken self then
       let* x0 := item x 0 in
       let* cls_token := item x 1 in
       let* u := unsqueeze cls_token 1 in
       let* readout := expand_as u x0 in
       let* ps := attr (DPTHead.readout_projects self) in
       let* p := item ps i in
       let* c := cat_last x0 readout in
       Sequential.forward p c
     else item x 0) g
    (fun y => shape y = [b; n; in_channels]).
Proof.
  intros (oc0 & oc1 & oc2 & oc3 & rest & Hocs & Hcls & _ & _ & Hro & _) Hi
    (x0 & Hx0 & Hs0 & Hc).
  rewrite Hcls. destruct cls.
  - destruct (Hc eq_refl) as (ct & Hct & Hsc).
    destruct (Hro eq_refl) as (ps & Hps & Hlen & Hall).
    assert (exists p, ps !! i = Some p) as (p & Hp).
    { apply lookup_lt_is_Some. rewrite Hlen, Hocs. cbn. lia. }
    assert (readout_is in_channels p) as Hrp.
    { rewrite Forall_lookup in Hall. exact (Hall i p Hp). }
    eapply returns_bind; [apply (item_returns _ _ _ _ Hx0)|]. intros ? ->.
    eapply returns_bind; [apply (item_returns _ _ _ _ Hct)|]. intros ? ->.
    eapply returns_bind.
    { apply unsqueeze_returns. unfold rank. rewrite Hsc. cbn. lia. }
    intros u [Hu _]. rewrite Hsc in Hu. cbn in Hu.
    eapply returns_bind; [apply (expand_as_tokens u x0 g b n in_channels Hu Hs0)|].
    intros ro Hr.
    eapply returns_bind; [apply (attr_returns _ _ _ Hps)|]. intros ? ->.
    eapply returns_bind; [apply (item_returns _ _ _ _ Hp)|]. intros ? ->.
    eapply returns_bind; [apply (cat_last_tokens x0 ro g b n in_channels Hs0 Hr)|].
    intros c Hcat.
    apply (readout_returns p c g [b; n] in_channels Hrp Hcat).
  - eapply returns_weaken; [apply (item_returns _ _ _ _ Hx0)|].
    intros ? ->. exact Hs0.
Qed.

Lemma scale_map_returns `{Transcendental} self g in_channels features use_bn
    oc0 oc1 oc2 oc3 rest cls (i : nat) x b ph pw :
  dpt_wf in_channels features use_bn (oc0 :: oc1 :: oc2 :: oc3 :: rest) cls self ->
  (i < 4)%nat ->
  entry_ok cls b (ph * pw) in_channels x ->
  ph <> 0 -> pw <> 0 ->
  in_channels <> 0 -> oc0 <> 0 -> oc1 <> 0 -> oc2 <> 0 -> oc3 <> 0 ->
  returns (DPTHead.scale_map self ph pw i x) g
    (fun y => shape y = scale_shape b oc0 oc1 oc2 oc3 ph pw i).
Proof.
  intros Hwf Hi Hx Hph Hpw Hin Hoc0 Hoc1 Hoc2 Hoc3. unfold DPTHead.scale_map.
  eapply returns_bind; [apply (tokens_returns _ _ _ _ _ _ _ _ _ _ _ Hwf Hi Hx)|].
  intros t Ht.
  eapply returns_bind; [apply (permute_021 t g _ _ _ Ht)|]. intros tp Htp.
  rewrite Ht. cbn [ix nth List.last].
  eapply returns_bind.
  { apply reshape_ok. unfold numel. rewrite Htp. cbn. lia. }
  intros r Hr.
  assert (exists oc, (oc0 :: oc1 :: oc2 :: oc3 :: rest) !! i = Some oc
                     /\ oc <> 0
                     /\ scale_shape b oc0 oc1 oc2 oc3 ph pw i
                        = match i with
                          | 0%nat => [b; oc; 4 * ph; 4 * pw]
                          | 1%nat => [b; oc; 2 * ph; 2 * pw]
                          | 2%nat => [b; oc; ph; pw]
                          | _ => [b; oc; (ph + 1) / 2; (pw + 1) / 2]
                          end) as (oc & Hoc & Hoc' & ->).
  { destruct i as [|[|[|[|i]]]]; try lia; eexists;
      (split; [reflexivity|split; [assumption|reflexivity]]). }
  destruct (dpt_wf_projects _ _ _ _ _ _ Hwf i oc Hoc) as (c & Hc & Hconv).
  eapply returns_bind; [apply (item_returns _ _ _ _ Hc)|]. intros ? ->.
  eapply returns_bind.
  { apply (Conv2d_forward_returns c r g b ph pw ph pw _ _ _ _ _ Hconv Hr);
      solve [now apply conv_out_size_1_1_0 | assumption]. }
  intros y [Hy _].
  destruct Hwf as (? & ? & ? & ? & ? & Hocs & _ & _ & (r0 & r1 & r3 & Hrl & H0 & H1 & H3) & _).
  injection Hocs as <- <- <- <- <-. rewrite Hrl.
  destruct i as [|[|[|[|i]]]]; try lia; cbn in Hoc; injection Hoc as <-.
  - apply (returns_bind _ _ _ (fun l => l = L_ConvTranspose2d r0)); [now eexists|intros ? ->].
    eapply returns_weaken.
    + eapply (ConvTranspose2d_forward_returns r0 y g b ph pw _ _ _ _ _ _ _ H0 Hy);
        solve [now apply convT_out_size_k_k_0 | assumption].
    + now intros ? [? _].
  - apply (returns_bind _ _ _ (fun l => l = L_ConvTranspose2d r1)); [now eexists|intros ? ->].
    eapply returns_weaken.
    + eapply (ConvTranspose2d_forward_returns r1 y g b ph pw _ _ _ _ _ _ _ H1 Hy);
        solve [now apply convT_out_size_k_k_0 | assumption].
    + now intros ? [? _].
  - apply (returns_bind _ _ _ (fun l => l = L_Identity)); [now eexists|intros ? ->].
    now apply returns_ret.
  - apply (returns_bind _ _ _ (fun l => l = L_Conv2d r3)); [now eexists|intros ? ->].
    eapply returns_weaken.
    + eapply (Conv2d_forward_returns r3 y g b ph pw _ _ _ _ _ _ _ H3 Hy);
        solve [now apply conv_out_size_3_2_1 | assumption].
    + now intros ? [? _].
Qed.

Lemma half_up_nonzero n : n <> 0 -> (n + 1) / 2 <> 0.
Proof.
  intros Hn. assert (0 < (n + 1) / 2); [|lia].
  apply N.div_str_pos. lia.
Qed.

Lemma scale_loop_returns `{Transcendental} self g in_channels features use_bn
    oc0 oc1 oc2 oc3 rest cls x0 x1 x2 x3 b ph pw :
  dpt_wf in_channels features use_bn (oc0 :: oc1 :: oc2 :: oc3 :: rest) cls self ->
  Forall (entry_ok cls b (ph * pw) in_channels) [x0; x1; x2; x3] ->
  ph <> 0 -> pw <> 0 ->
  in_channels <> 0 -> oc0 <> 0 -> oc1 <> 0 -> oc2 <> 0 -> oc3 <> 0 ->
  returns (DPTHead.scale_loop self ph pw 0 [x0; x1; x2; x3] []) g
    (fun out => exists l1 l2 l3 l4,
       out = [l1; l2; l3; l4]
       /\ shape l1 = scale_shape b oc0 oc1 oc2 oc3 ph pw 0
       /\ shape l2 = scale_shape b oc0 oc1 oc2 oc3 ph pw 1
       /\ shape l3 = scale_shape b oc0 oc1 oc2 oc3 ph pw 2
       /\ shape l4 = scale_shape b oc0 oc1 oc2 oc3 ph pw 3).
Proof.
  intros Hwf Hall Hph Hpw Hin Hoc0 Hoc1 Hoc2 Hoc3.
  apply Forall_cons in Hall as [H0 Hall]. apply Forall_cons in Hall as [H1 Hall].
  apply Forall_cons in Hall as [H2 Hall]. apply Forall_cons in Hall as [H3 _].
  cbn [DPTHead.scale_loop].
  eapply returns_bind.
  { apply (scale_map_returns self g _ _ _ _ _ _ _ _ _ 0%nat x0 b ph pw Hwf); auto; lia. }
  intros l1 Hl1. eapply returns_bind.
  { apply (scale_map_returns self g _ _ _ _ _ _ _ _ _ 1%nat x1 b ph pw Hwf); auto; lia. }
  intros l2 Hl2. eapply returns_bind.
  { apply (scale_map_returns self g _ _ _ _ _ _ _ _ _ 2%nat x2 b ph pw Hwf); auto; lia. }
  intros l3 Hl3. eapply returns_bind.
  { apply (scale_map_returns self g _ _ _ _ _ _ _ _ _ 3%nat x3 b ph pw Hwf); auto; lia. }
  intros l4 Hl4. apply returns_ret. exists l1, l2, l3, l4. auto.
Qed.

(** The output stack: convolution, rectifier, 1x1 convolution to one
    channel, rectifier, identity.  The in-place rectifiers write to the
    results of the convolutions, which is always possible; no value of the
    result is negative. *)
Lemma output_conv2_returns `{Transcendental} ca cb x g b c h w :
  conv_is ca c 32 3 1 1 -> conv_is cb 32 1 1 1 0 ->
  shape x = [b; c; h; w] -> h <> 0 -> w <> 0 -> c <> 0 ->
  returns
    (Sequential.forward
       [L_Conv2d ca; L_ReLU true; L_Conv2d cb; L_ReLU true; L_Identity] x) g
    (fun y => shape y = [b; 1; h; w]
              /\ forall idx, fltb (data y idx) fzero = false).
Proof.
  intros Ha Hb Hx Hh Hw Hc. cbn [Sequential.forward Layers.forward].
  eapply returns_bind.
  { apply (Conv2d_forward_returns ca x g b h w h w _ _ _ _ _ Ha Hx);
      solve [now apply conv_out_size_3_1_1 | assumption | discriminate]. }
  intros y1 [Hy1 Hw1]. unfold returns.
  rewrite (bind_ok _ _ _ _ (relu__returns y1 g (Hw1 g))).
  match goal with |- context [Conv2d.forward cb ?t] => set (y2 := t) end.
  destruct (Conv2d_forward_returns cb y2 g b h w h w _ _ _ _ _ Hb Hy1)
    as (y3 & E3 & Hy3 & Hw3);
    try solve [now apply conv_out_size_1_1_0 | discriminate].
  rewrite (bind_ok _ _ _ _ E3).
  rewrite (bind_ok _ _ _ _ (relu__returns y3 g (Hw3 g))).
  eexists. split; [reflexivity|]. split; [exact Hy3|].
  intros idx. apply relu_F_not_negative.
Qed.

(** The forward pass of the head returns for well-formed input, with a
    single-channel map at fourteen times the patch grid. *)
Lemma dpt_forward_returns `{Transcendental} self g in_channels features use_bn
    oc0 oc1 oc2 oc3 rest cls x0 x1 x2 x3 b ph pw :
  dpt_wf in_channels features use_bn (oc0 :: oc1 :: oc2 :: oc3 :: rest) cls self ->
  Forall (entry_ok cls b (ph * pw) in_channels) [x0; x1; x2; x3] ->
  ph <> 0 -> pw <> 0 ->
  (use_bn = true -> b * ((ph + 1) / 2) * ((pw + 1) / 2) <> 1) ->
  in_channels <> 0 -> features / 2 <> 0 ->
  oc0 <> 0 -> oc1 <> 0 -> oc2 <> 0 -> oc3 <> 0 ->
  returns (DPTHead.forward self [x0; x1; x2; x3] ph pw) g
    (fun p => shape (fst p) = [b; 1; ph * 14; pw * 14]
              /\ (forall idx, fltb (data (fst p) idx) fzero = false)
              /\ dpt_wf in_channels features use_bn
                   (oc0 :: oc1 :: oc2 :: oc3 :: rest) cls (snd p)).
Proof.
  intros Hwf Hall Hph Hpw Hbn Hin Hhalf Hoc0 Hoc1 Hoc2 Hoc3.
  assert (features <> 0) as Hfeat by (intros ->; now apply Hhalf).
  unfold DPTHead.forward.
  eapply returns_bind.
  { apply (scale_loop_returns _ _ _ _ _ _ _ _ _ _ _ _ _ _ _ _ _ _ Hwf Hall Hph Hpw);
      assumption. }
  intros out (l1 & l2 & l3 & l4 & -> & Hl1 & Hl2 & Hl3 & Hl4). cbn in Hl1, Hl2, Hl3, Hl4.
  destruct Hwf as (? & ? & ? & ? & ? & Hocs & Hcls & Hproj & Hrl & Hro & Hsc).
  injection Hocs as <- <- <- <- <-.
  pose proof Hsc as (Hc1 & Hc2 & Hc3 & (c4 & Ec4 & Hc4) & (r1 & Er1 & Hr1 & Ha1)
    & (r2 & Er2 & Hr2 & Ha2) & (r3 & Er3 & Hr3 & Ha3) & (r4 & Er4 & Hr4 & Ha4)
    & (o1 & Eo1 & Ho1) & (ca & cb & Eo2 & Hca & Hcb)).
  assert ((ph + 1) / 2 <> 0) as Hhh by now apply half_up_nonzero.
  assert ((pw + 1) / 2 <> 0) as Hww by now apply half_up_nonzero.
  eapply returns_bind.
  { eapply (Conv2d_forward_returns _ l1 g _ _ _ _ _ _ _ _ _ _ Hc1 Hl1);
      solve [apply conv_out_size_3_1_1; lia | assumption]. }
  intros l1rn [Hl1rn Hw1rn]. eapply returns_bind.
  { eapply (Conv2d_forward_returns _ l2 g _ _ _ _ _ _ _ _ _ _ Hc2 Hl2);
      solve [apply conv_out_size_3_1_1; lia | assumption]. }
  intros l2rn [Hl2rn Hw2rn]. eapply returns_bind.
  { eapply (Conv2d_forward_returns _ l3 g _ _ _ _ _ _ _ _ _ _ Hc3 Hl3);
      solve [apply conv_out_size_3_1_1; lia | assumption]. }
  intros l3rn [Hl3rn Hw3rn].
  eapply returns_bind; [apply (attr_returns _ _ _ Ec4)|]. intros ? ->.
  eapply returns_bind.
  { eapply (Conv2d_forward_returns _ l4 g _ _ _ _ _ _ _ _ _ _ Hc4 Hl4);
      solve [apply conv_out_size_3_1_1; lia | assumption]. }
  intros l4rn [Hl4rn Hw4rn].
  (* stage 4 *)
  eapply returns_bind; [apply (attr_returns _ _ _ Er4)|]. intros ? ->.
  eapply returns_bind.
  { apply (ffb_returns r4 [l4rn] l4rn _ g features use_bn false None b
             ((ph + 1) / 2) ((pw + 1) / 2) ph pw Hr4); auto.
    - now left.
    - rewrite Hl3rn. reflexivity.
    - intros _. apply Hw4rn. }
  intros [p4 r4'] (Hp4 & Hr4' & Ha4' & _). cbn in Hp4, Hr4', Ha4'.
  assert (use_bn = true -> b * ph * pw <> 1) as Hn3.
  { intros Eb E. apply N.eq_mul_1 in E as [E ->]. apply N.eq_mul_1 in E as [-> ->].
    now apply (Hbn Eb). }
  (* stage 3 *)
  eapply returns_bind; [apply (attr_returns _ _ _ Er3)|]. intros ? ->.
  eapply returns_bind.
  { apply (ffb_returns r3 [p4; l3rn] p4 _ g features use_bn false None b
             ph pw (2 * ph) (2 * pw) Hr3); auto; try lia.
    - right. exists l3rn. split; [reflexivity|congruence].
    - rewrite Hl2rn. reflexivity.
    - intros _. apply Hw3rn. }
  intros [p3 r3'] (Hp3 & Hr3' & Ha3' & _). cbn in Hp3, Hr3', Ha3'.
  (* stage 2 *)
  eapply returns_bind; [apply (attr_returns _ _ _ Er2)|]. intros ? ->.
  eapply returns_bind.
  { apply (ffb_returns r2 [p3; l2rn] p3 _ g features use_bn false None b
             (2 * ph) (2 * pw) (4 * ph) (4 * pw) Hr2); auto; try lia.
    - right. exists l2rn. split; [reflexivity|congruence].
    - rewrite Hl1rn. reflexivity.
    - intros _. apply Hw2rn. }
  intros [p2 r2'] (Hp2 & Hr2' & Ha2' & _). cbn in Hp2, Hr2', Ha2'.
  (* stage 1 *)
  eapply returns_bind; [apply (attr_returns _ _ _ Er1)|]. intros ? ->.
  eapply returns_bind.
  { apply (ffb_returns r1 [p2; l1rn] p2 _ g features use_bn false None b
             (4 * ph) (4 * pw) (2 * (4 * ph)) (2 * (4 * pw)) Hr1); auto; try lia.
    - right. exists l1rn. split; [reflexivity|congruence].
    - intros _. apply Hw1rn. }
  intros [p1 r1'] (Hp1 & Hr1' & Ha1' & _). cbn in Hp1, Hr1', Ha1'.
  (* output head *)
  eapply returns_bind; [apply (attr_returns _ _ _ Eo1)|]. intros ? ->.
  eapply returns_bind.
  { eapply (Conv2d_forward_returns _ p1 g _ _ _ _ _ _ _ _ _ _ Ho1 Hp1);
      solve [apply conv_out_size_3_1_1; lia | assumption]. }
  intros y1 [Hy1 _]. eapply returns_bind.
  { apply (interpolate_size_returns y1 true g _ _ _ _ (ph * 14) (pw * 14) Hy1); lia. }
  intros y2 Hy2.
  eapply returns_bind; [apply (attr_returns _ _ _ Eo2)|]. intros ? ->.
  eapply returns_bind.
  { apply (output_conv2_returns ca cb y2 g _ _ _ _ Hca Hcb Hy2); solve [lia|assumption]. }
  intros out [Hout Hpos]. apply returns_ret. cbn [fst snd].
  split; [exact Hout|]. split; [exact Hpos|].
  exists oc0, oc1, oc2, oc3, rest. cbn.
  split; [reflexivity|]. split; [exact Hcls|]. split; [exact Hproj|].
  split; [exact Hrl|]. split; [exact Hro|].
  unfold scratch_wf. cbn.
  split; [exact Hc1|]. split; [exact Hc2|]. split; [exact Hc3|].
  split; [now exists c4|].
  unfold fusion_block_wf.
  split; [exists r1'; split; [reflexivity|split; [exact Hr1'|congruence]]|].
  split; [exists r2'; split; [reflexivity|split; [exact Hr2'|congruence]]|].
  split; [exists r3'; split; [reflexivity|split; [exact Hr3'|congruence]]|].
  split; [exists r4'; split; [reflexivity|split; [exact Hr4'|congruence]]|].
  split; [now exists o1|]. now exists ca, cb.
Qed.

Lemma attr_inv {A} (o : option A) g a : attr o g = Ok a -> o = Some a.
Proof. destruct o; cbn; intros E; now inversion E. Qed.

Lemma ffb_same_params_refl f : ffb_same_params f f.
Proof.
  repeat split; apply opt_same_refl, bn_same_params_refl.
Qed.

(** What a forward pass of the head that returns went through: the four
    scale maps, their channel alignment, the four fusion stages and the
    output head. *)
Lemma dpt_forward_inv `{Transcendental} self feats ph pw g out self' :
  DPTHead.forward self feats ph pw g = Ok (out, self') ->
  let s := DPTHead.scratch self in
  exists layer_1 layer_2 layer_3 layer_4 s0 s1 s2 s3 c4 r1 r2 r3 r4
         path_4 path_3 path_2 path_1 r1' r2' r3' r4' oc1 oc2 y1 y2,
    DPTHead.scale_loop self ph pw 0 feats [] g
    = Ok [layer_1; layer_2; layer_3; layer_4]
    /\ Conv2d.forward (Scratch.layer1_rn s) layer_1 g = Ok s0
    /\ Conv2d.forward (Scratch.layer2_rn s) layer_2 g = Ok s1
    /\ Conv2d.forward (Scratch.layer3_rn s) layer_3 g = Ok s2
    /\ Scratch.layer4_rn s = Some c4
    /\ Conv2d.forward c4 layer_4 g = Ok s3
    /\ Scratch.refinenet4 s = Some r4 /\ Scratch.refinenet3 s = Some r3
    /\ Scratch.refinenet2 s = Some r2 /\ Scratch.refinenet1 s = Some r1
    /\ FeatureFusionBlock.forward r4 [s3] (Some (skipn 2 (shape s2))) g
       = Ok (path_4, r4')
    /\ FeatureFusionBlock.forward r3 [path_4; s2] (Some (skipn 2 (shape s1))) g
       = Ok (path_3, r3')
    /\ FeatureFusionBlock.forward r2 [path_3; s1] (Some (skipn 2 (shape s0))) g
       = Ok (path_2, r2')
    /\ FeatureFusionBlock.forward r1 [path_2; s0] None g = Ok (path_1, r1')
    /\ Scratch.output_conv1 s = Some oc1
    /\ Conv2d.forward oc1 path_1 g = Ok y1
    /\ interpolate y1 (Size [ph * 14; pw * 14]) true g = Ok y2
    /\ Scratch.output_conv2 s = Some oc2
    /\ Sequential.forward oc2 y2 g = Ok out
    /\ self' = DPTHead.mk (DPTHead.use_clstoken self) (DPTHead.projects self)
                 (DPTHead.resize_layers self) (DPTHead.readout_projects self)
                 (Scratch.mk (Scratch.layer1_rn s) (Scratch.layer2_rn s)
                    (Scratch.layer3_rn s) (Scratch.layer4_rn s)
                    (Some r1') (Some r2') (Some r3') (Some r4')
                    (Scratch.output_conv1 s) (Scratch.output_conv2 s)).
Proof.
  intros E s. unfold DPTHead.forward in E. fold s in E.
  apply bind_inv in E as (outs & Eloop & E).
  destruct outs as [|layer_1 [|layer_2 [|layer_3 [|layer_4 [|? ?]]]]];
    try discriminate.
  apply bind_inv in E as (s0 & E0 & E). apply bind_inv in E as (s1 & E1 & E).
  apply bind_inv in E as (s2 & E2 & E). apply bind_inv in E as (c4 & Ec4 & E).
  apply attr_inv in Ec4. apply bind_inv in E as (s3 & E3 & E).
  apply bind_inv in E as (r4 & Er4 & E). apply attr_inv in Er4.
  apply bind_inv in E as ([path_4 r4'] & Ep4 & E).
  apply bind_inv in E as (r3 & Er3 & E). apply attr_inv in Er3.
  apply bind_inv in E as ([path_3 r3'] & Ep3 & E).
  apply bind_inv in E as (r2 & Er2 & E). apply attr_inv in Er2.
  apply bind_inv in E as ([path_2 r2'] & Ep2 & E).
  apply bind_inv in E as (r1 & Er1 & E). apply attr_inv in Er1.
  apply bind_inv in E as ([path_1 r1'] & Ep1 & E).
  apply bind_inv in E as (oc1 & Eoc1 & E). apply attr_inv in Eoc1.
  apply bind_inv in E as (y1 & Ey1 & E). apply bind_inv in E as (y2 & Ey2 & E).
  apply bind_inv in E as (oc2 & Eoc2 & E). apply attr_inv in Eoc2.
  apply bind_inv in E as (out' & Eout & E). injection E as <- <-.
  exists layer_1, layer_2, layer_3, layer_4, s0, s1, s2, s3, c4, r1, r2, r3, r4,
    path_4, path_3, path_2, path_1, r1', r2', r3', r4', oc1, oc2, y1, y2.
  repeat (split; [assumption|]). reflexivity.
Qed.


(** ** Depth head wrapper *)

Lemma unsqueeze_ok x d g :
  (d <= rank x)%nat ->
  unsqueeze x d g
  = Ok (out_of g (insert_at d 1 (shape x)) (fun idx => data x (remove_at d idx))
          (requires_grad x)).
Proof. intros Hd. unfold unsqueeze. apply Nat.leb_le in Hd. now rewrite Hd. Qed.

Lemma dav2_forward_returns `{Transcendental} m g features use_bn
    oc0 oc1 oc2 oc3 rest cls x0 x1 x2 x3 b :
  dav2_wf features (oc0 :: oc1 :: oc2 :: oc3 :: rest) use_bn cls m ->
  Forall (entry_ok cls b 576 1024) [x0; x1; x2; x3] ->
  features / 2 <> 0 -> oc0 <> 0 -> oc1 <> 0 -> oc2 <> 0 -> oc3 <> 0 ->
  returns (DAv2_Head.forward m [x0; x1; x2; x3]) g
    (fun p => shape (fst p) = [b; 336; 336]
              /\ (forall idx, fltb (data (fst p) idx) fzero = false)
              /\ (g = false -> requires_grad (fst p) = false)
              /\ dav2_wf features (oc0 :: oc1 :: oc2 :: oc3 :: rest) use_bn cls
                   (snd p)).
Proof.
  intros Hwf Hall Hhalf Hoc0 Hoc1 Hoc2 Hoc3. unfold DAv2_Head.forward.
  change (336 / 14) with 24.
  eapply returns_bind.
  { apply (dpt_forward_returns (DAv2_Head.depth_head m) g 1024 features use_bn
             oc0 oc1 oc2 oc3 rest cls x0 x1 x2 x3 b 24 24 Hwf Hall);
      try assumption; try lia.
    intros _. change ((24 + 1) / 2) with 12. lia. }
  intros [d head] (Hd & _ & Hhead). cbn [fst snd] in Hd, Hhead.
  change (24 * 14) with 336 in Hd.
  eapply returns_bind; [exists (out_of g (shape d) (fun idx => relu_F (data d idx))
                                  (requires_grad d)); split; [reflexivity|]|].
  { instantiate (1 := fun y => shape y = [b; 1; 336; 336]
                               /\ forall idx, fltb (data y idx) fzero = false).
    cbn. split; [exact Hd|]. intros idx. apply relu_F_not_negative. }
  intros r [Hr Hpos]. cbn beta in Hr, Hpos.
  unfold returns, bind. rewrite (squeeze_channel r g b 336 336 Hr). cbn.
  eexists. split; [reflexivity|]. cbn.
  split; [reflexivity|]. split; [intros idx; apply Hpos|].
  split; [now intros ->|exact Hhead].
Qed.

(** The inference entry point on well-formed input: the map of the forward
    pass under gradient mode off, its first batch element resized to the
    requested size. *)
Lemma infer_feats_spec `{Transcendental} m g features use_bn
    oc0 oc1 oc2 oc3 rest cls x0 x1 x2 x3 b h w :
  dav2_wf features (oc0 :: oc1 :: oc2 :: oc3 :: rest) use_bn cls m ->
  Forall (entry_ok cls b 576 1024) [x0; x1; x2; x3] ->
  b <> 0 -> h <> 0 -> w <> 0 ->
  features / 2 <> 0 -> oc0 <> 0 -> oc1 <> 0 -> oc2 <> 0 -> oc3 <> 0 ->
  exists depth m',
    DAv2_Head.forward m [x0; x1; x2; x3] false = Ok (depth, m')
    /\ shape depth = [b; 336; 336]
    /\ DAv2_Head.infer_feats m [x0; x1; x2; x3] (h, w) g
       = Ok ({| nd_shape := [h; w];
                nd_data := fun idx =>
                  bilinear_plane true 336 336 h w
                    (fun i j => data depth [0; i; j]) (ix idx 0) (ix idx 1) |},
             m').
Proof.
  intros Hwf Hall Hb Hh Hw Hhalf Hoc0 Hoc1 Hoc2 Hoc3.
  destruct (dav2_forward_returns m false features use_bn oc0 oc1 oc2 oc3 rest cls
              x0 x1 x2 x3 b Hwf Hall Hhalf Hoc0 Hoc1 Hoc2 Hoc3)
    as ([depth m'] & E & Hs & _ & Hg & _).
  cbn [fst snd] in Hs, Hg. exists depth, m'.
  split; [exact E|]. split; [exact Hs|].
  unfold DAv2_Head.infer_feats, no_grad.
  rewrite (bind_ok _ _ _ _ E).
  rewrite (bind_ok _ _ _ _ (unsqueeze_ok depth 1 false
             ltac:(unfold rank; rewrite Hs; cbn; lia))).
  rewrite Hs. cbn [insert_at firstn skipn app].
  set (u := out_of false [b; 1; 336; 336] _ _).
  rewrite (bind_ok _ _ _ _
             (interpolate_size_ok u true false b 1 336 336 h w eq_refl
                ltac:(lia) ltac:(lia) Hh Hw)).
  set (v := out_of false [b; 1; h; w] _ _).
  rewrite (bind_ok _ _ _ _ (select0_ok v 0 false b [1; h; w] eq_refl ltac:(lia))).
  set (v0 := out_of false [1; h; w] _ _).
  rewrite (bind_ok _ _ _ _ (select0_ok v0 0 false 1 [h; w] eq_refl ltac:(lia))).
  set (v00 := out_of false [h; w] _ _).
  rewrite (bind_ok _ _ _ _ (numpy_ok v00 false eq_refl)).
  reflexivity.
Qed.



(** ** Constructors *)

Lemma ibind_inv {A B} (m : Init A) (k : A -> Init B) gen b gen' :
  ibind m k gen = Ok (b, gen') ->
  exists a gen1, m gen = Ok (a, gen1) /\ k a gen1 = Ok (b, gen').
Proof.
  unfold ibind. destruct (m gen) as [[a gen1]|e]; [|discriminate].
  intros E. now exists a, gen1.
Qed.

Lemma getitem_inv {A} (l : list A) i gen a gen' :
  getitem l i gen = Ok (a, gen') -> l !! i = Some a.
Proof.
  unfold getitem. destruct (l !! i); [|discriminate].
  intros E. now injection E as <- _.
Qed.

Lemma Conv2d_init_inv i o k s p bias gen c gen' :
  Conv2d.init i o k s p bias gen = Ok (c, gen') -> conv_is c i o k s p.
Proof.
  unfold Conv2d.init. destruct bias; cbv [ibind fresh_param iret];
    intros E; injection E as <- _; repeat split.
Qed.

Lemma ConvTranspose2d_init_inv i o k s p gen c gen' :
  ConvTranspose2d.init i o k s p gen = Ok (c, gen') -> convT_is c i o k s p.
Proof.
  unfold ConvTranspose2d.init. cbv [ibind fresh_param iret].
  intros E; injection E as <- _; repeat split.
Qed.

Lemma Linear_init_inv i o gen l gen' :
  Linear.init i o gen = Ok (l, gen') -> linear_is l i o.
Proof.
  unfold Linear.init. cbv [ibind fresh_param iret].
  intros E; injection E as <- _; repeat split.
Qed.

Lemma build_mlp_inv i h gen s gen' :
  build_mlp i h gen = Ok (s, gen') -> mlp_is s i h.
Proof.
  unfold build_mlp. intros E.
  apply ibind_inv in E as (l1 & g1 & E1 & E).
  apply ibind_inv in E as (l2 & g2 & E2 & E). injection E as <- _.
  exists l1, l2. split; [reflexivity|].
  split; [exact (Linear_init_inv _ _ _ _ _ E1)|exact (Linear_init_inv _ _ _ _ _ E2)].
Qed.

Lemma ResidualConvUnit_init_inv features activation bn gen r gen' :
  pointwise activation ->
  ResidualConvUnit.init features activation bn gen = Ok (r, gen') ->
  rcu_wf features bn r.
Proof.
  intros Ha E. unfold ResidualConvUnit.init in E.
  apply ibind_inv in E as (c1 & g1 & E1 & E).
  apply ibind_inv in E as (c2 & g2 & E2 & E).
  apply Conv2d_init_inv in E1, E2.
  apply ibind_inv in E as ([b1 b2] & g3 & E3 & E). injection E as <- _.
  unfold rcu_wf. cbn. repeat (split; [first [reflexivity|assumption]|]).
  split; [|exact Ha]. intros ->. cbv in E3. injection E3 as <- <- _.
  split; eexists; split; reflexivity.
Qed.

Lemma FeatureFusionBlock_init_inv features activation deconv bn expand
    align_corners size gen f gen' :
  pointwise activation ->
  FeatureFusionBlock.init features activation deconv bn expand align_corners size gen
  = Ok (f, gen') ->
  ffb_wf features bn expand size f
  /\ FeatureFusionBlock.align_corners f = align_corners.
Proof.
  intros Ha E. unfold FeatureFusionBlock.init in E.
  apply ibind_inv in E as (c & g1 & Ec & E). apply Conv2d_init_inv in Ec.
  apply ibind_inv in E as (r1 & g2 & E1 & E).
  apply ibind_inv in E as (r2 & g3 & E2 & E).
  apply (ResidualConvUnit_init_inv _ _ _ _ _ _ Ha) in E1, E2.
  injection E as <- _. unfold ffb_wf. cbn. auto 10.
Qed.

Lemma _make_fusion_block_inv features use_bn gen f gen' :
  _make_fusion_block features use_bn None gen = Ok (f, gen') ->
  fusion_block_wf features use_bn (Some f).
Proof.
  intros E. apply FeatureFusionBlock_init_inv in E as [Hw Ha]; [|exact I].
  now exists f.
Qed.

Lemma ResidualConvUnit_init_activation features activation bn gen r gen' :
  ResidualConvUnit.init features activation bn gen = Ok (r, gen') ->
  ResidualConvUnit.activation r = activation.
Proof.
  intros E. unfold ResidualConvUnit.init in E.
  apply ibind_inv in E as (c1 & g1 & E1 & E).
  apply ibind_inv in E as (c2 & g2 & E2 & E).
  apply ibind_inv in E as ([b1 b2] & g3 & E3 & E). now injection E as <- _.
Qed.

Lemma FeatureFusionBlock_init_activation features activation deconv bn expand
    align_corners size gen f gen' :
  FeatureFusionBlock.init features activation deconv bn expand align_corners size gen
  = Ok (f, gen') ->
  ResidualConvUnit.activation (FeatureFusionBlock.resConfUnit1 f) = activation
  /\ ResidualConvUnit.activation (FeatureFusionBlock.resConfUnit2 f) = activation.
Proof.
  intros E. unfold FeatureFusionBlock.init in E.
  apply ibind_inv in E as (c & g1 & Ec & E).
  apply ibind_inv in E as (r1 & g2 & E1 & E).
  apply ibind_inv in E as (r2 & g3 & E2 & E).
  apply ResidualConvUnit_init_activation in E1, E2.
  injection E as <- _. cbn. auto.
Qed.

Lemma fusion_accepts_not_inplace f g xs :
  Layers.overwrites_input
    (ResidualConvUnit.activation (FeatureFusionBlock.resConfUnit1 f)) = false ->
  Layers.overwrites_input
    (ResidualConvUnit.activation (FeatureFusionBlock.resConfUnit2 f)) = false ->
  fusion_accepts f g xs.
Proof.
  intros H1 H2. unfold fusion_accepts, activation_accepts.
  destruct xs as [|x [|skip [|? ?]]]; try exact I; rewrite ?H1, ?H2; discriminate.
Qed.

(** The blocks of the dense prediction head rectify out of place, so they
    accept every tensor. *)
Lemma _make_fusion_block_accepts features use_bn size gen f gen' :
  _make_fusion_block features use_bn size gen = Ok (f, gen') ->
  forall g xs, fusion_accepts f g xs.
Proof.
  intros E g xs. apply FeatureFusionBlock_init_activation in E as [E1 E2].
  apply fusion_accepts_not_inplace; [now rewrite E1|now rewrite E2].
Qed.

Lemma imapM_inv {A B} (f : A -> Init B) (P : B -> A -> Prop) :
  (forall a gen b gen', f a gen = Ok (b, gen') -> P b a) ->
  forall l gen bs gen', imapM f l gen = Ok (bs, gen') -> Forall2 P bs l.
Proof.
  intros Hf. induction l as [|a l IH]; intros gen bs gen' E; cbn in E.
  - injection E as <- _. constructor.
  - apply ibind_inv in E as (b & g1 & Eb & E).
    apply ibind_inv in E as (bs' & g2 & Ebs & E). injection E as <- _.
    constructor; eauto.
Qed.

Lemma DPTHead_init_inv in_channels features use_bn out_channels use_clstoken
    gen m gen' :
  DPTHead.init in_channels features use_bn out_channels use_clstoken gen
  = Ok (m, gen') ->
  dpt_wf in_channels features use_bn out_channels use_clstoken m.
Proof.
  intros E. unfold DPTHead.init in E.
  apply ibind_inv in E as (projects & g1 & Ep & E).
  apply (imapM_inv _ (fun c oc => conv_is c in_channels oc 1 1 0)) in Ep;
    [|intros; eapply Conv2d_init_inv; eassumption].
  apply ibind_inv in E as (oc0 & g2 & E0 & E). apply getitem_inv in E0.
  apply ibind_inv in E as (r0 & g3 & Er0 & E). apply ConvTranspose2d_init_inv in Er0.
  apply ibind_inv in E as (oc1 & g4 & E1 & E). apply getitem_inv in E1.
  apply ibind_inv in E as (r1 & g5 & Er1 & E). apply ConvTranspose2d_init_inv in Er1.
  apply ibind_inv in E as (oc3 & g6 & E3 & E). apply getitem_inv in E3.
  apply ibind_inv in E as (r3 & g7 & Er3 & E). apply Conv2d_init_inv in Er3.
  apply ibind_inv in E as (readout & g8 & Ero & E).
  apply ibind_inv in E as (sc & g9 & Esc & E).
  apply ibind_inv in E as (f1 & g10 & Ef1 & E). apply _make_fusion_block_inv in Ef1.
  apply ibind_inv in E as (f2 & g11 & Ef2 & E). apply _make_fusion_block_inv in Ef2.
  apply ibind_inv in E as (f3 & g12 & Ef3 & E). apply _make_fusion_block_inv in Ef3.
  apply ibind_inv in E as (f4 & g13 & Ef4 & E). apply _make_fusion_block_inv in Ef4.
  apply ibind_inv in E as (o1 & g14 & Eo1 & E). apply Conv2d_init_inv in Eo1.
  apply ibind_inv in E as (ca & g15 & Eca & E). apply Conv2d_init_inv in Eca.
  apply ibind_inv in E as (cb & g16 & Ecb & E). apply Conv2d_init_inv in Ecb.
  injection E as <- _.
  destruct out_channels as [|a0 [|a1 [|a2 [|a3 rest]]]]; try discriminate.
  cbn in E0, E1, E3. injection E0 as <-. injection E1 as <-. injection E3 as <-.
  unfold _make_scratch in Esc. cbn [length Nat.leb] in Esc.
  apply ibind_inv in Esc as (i0 & h1 & Ei0 & Esc). apply getitem_inv in Ei0.
  apply ibind_inv in Esc as (l1 & h2 & El1 & Esc). apply Conv2d_init_inv in El1.
  apply ibind_inv in Esc as (i1 & h3 & Ei1 & Esc). apply getitem_inv in Ei1.
  apply ibind_inv in Esc as (l2 & h4 & El2 & Esc). apply Conv2d_init_inv in El2.
  apply ibind_inv in Esc as (i2 & h5 & Ei2 & Esc). apply getitem_inv in Ei2.
  apply ibind_inv in Esc as (l3 & h6 & El3 & Esc). apply Conv2d_init_inv in El3.
  apply ibind_inv in Esc as (l4 & h7 & El4 & Esc).
  apply ibind_inv in El4 as (i3 & h8 & Ei3 & El4). apply getitem_inv in Ei3.
  apply ibind_inv in El4 as (c4 & h9 & Ec4 & El4). apply Conv2d_init_inv in Ec4.
  injection El4 as <- _. injection Esc as <- _.
  cbn in Ei0, Ei1, Ei2, Ei3.
  injection Ei0 as <-. injection Ei1 as <-. injection Ei2 as <-. injection Ei3 as <-.
  exists a0, a1, a2, a3, rest. cbn.
  split; [reflexivity|]. split; [reflexivity|]. split; [exact Ep|].
  split; [now exists r0, r1, r3|]. split.
  - intros ->. apply ibind_inv in Ero as (ps & h10 & Eps & Ero).
    injection Ero as <- _. exists ps. split; [reflexivity|].
    apply (imapM_inv _ (fun s (_ : Conv2d.t) => readout_is in_channels s)) in Eps.
    + split.
      * rewrite (Forall2_length _ _ _ Eps). exact (Forall2_length _ _ _ Ep).
      * clear -Eps. induction Eps; constructor; auto.
    + intros c g b g' Eb. apply ibind_inv in Eb as (lin & g1' & El & Eb).
      injection Eb as <- _. exists lin. split; [reflexivity|].
      exact (Linear_init_inv _ _ _ _ _ El).
  - unfold scratch_wf. cbn.
    split; [exact El1|]. split; [exact El2|]. split; [exact El3|].
    split; [now exists c4|]. do 4 (split; [assumption|]).
    split; [now exists o1|]. now exists ca, cb.
Qed.

Lemma embd_dims_lookup (encoder : string) d :
  (<["vits" := 1024]> (<["vitb" := 1024]> (<["vitl" := 1024]>
     (<["vitg" := 1024]> (∅ : gmap string N))))) !! encoder = Some d ->
  d = 1024.
Proof.
  intros E.
  repeat (apply lookup_insert_Some in E as [[_ E]|[_ E]]; [now symmetry|]).
  now rewrite lookup_empty in E.
Qed.

(** A head built by its constructor is well formed. *)
Lemma DAv2_Head_init_inv encoder features out_channels use_bn use_clstoken
    gen m gen' :
  DAv2_Head.init encoder features out_channels use_bn use_clstoken gen
  = Ok (m, gen') ->
  dav2_wf features out_channels use_bn use_clstoken m.
Proof.
  intros E. unfold DAv2_Head.init in E.
  apply ibind_inv in E as (dim & g1 & Ed & E).
  apply ibind_inv in E as (head & g2 & Eh & E). injection E as <- _.
  destruct (_ !! encoder) as [d|] eqn:El; [|discriminate].
  injection Ed as <- _. apply embd_dims_lookup in El as ->.
  unfold dav2_wf. cbn. exact (DPTHead_init_inv _ _ _ _ _ _ _ _ Eh).
Qed.

Lemma config_get_inv proj_config key gen v gen' :
  config_get proj_config key gen = Ok (v, gen') ->
  exists d, proj_config = Some d /\ d !! key = Some v.
Proof.
  unfold config_get. destruct proj_config as [d|]; [|discriminate].
  destruct (d !! key) as [v'|] eqn:E; [|discriminate].
  intros E'. injection E' as <- _. now exists d.
Qed.

(** The probe head built by its constructor is well formed, for the width
    the configuration holds under ["output_dim"]. *)
Lemma DepthProbeHead_init_inv llm_hidden_size proj_config gen m gen' :
  DepthProbeHead.init llm_hidden_size proj_config gen = Ok (m, gen') ->
  exists d output_dim,
    proj_config = Some d /\ d !! "output_dim" = Some output_dim
    /\ probe_wf llm_hidden_size output_dim m.
Proof.
  intros E. unfold DepthProbeHead.init in E.
  apply ibind_inv in E as (d1 & g1 & E1 & E). apply config_get_inv in E1 as (d & Hd & H1).
  apply ibind_inv in E as (l1 & g2 & El1 & E). apply build_mlp_inv in El1.
  apply ibind_inv in E as (d2 & g3 & E2 & E). apply config_get_inv in E2 as (d' & Hd' & H2).
  apply ibind_inv in E as (l2 & g4 & El2 & E). apply build_mlp_inv in El2.
  apply ibind_inv in E as (d3 & g5 & E3 & E). apply config_get_inv in E3 as (d'' & Hd'' & H3).
  apply ibind_inv in E as (l3 & g6 & El3 & E). apply build_mlp_inv in El3.
  apply ibind_inv in E as (d4 & g7 & E4 & E). apply config_get_inv in E4 as (d''' & Hd''' & H4).
  apply ibind_inv in E as (l4 & g8 & El4 & E). apply build_mlp_inv in El4.
  injection E as <- _. subst proj_config.
  injection Hd' as <-. injection Hd'' as <-. injection Hd''' as <-.
  assert (d2 = d1) as -> by congruence. assert (d3 = d1) as -> by congruence.
  assert (d4 = d1) as -> by congruence.
  exists d, d1. repeat split; assumption.
Qed.

(** ** Failures of the dense prediction head *)


Lemma scale_loop_raises `{Transcendental} self ph pw g feats :
  forall i out k x,
    feats !! k = Some x ->
    raises (DPTHead.scale_map self ph pw (i + k) x) g ->
    raises (DPTHead.scale_loop self ph pw i feats out) g.
Proof.
  induction feats as [|x0 feats IH]; intros i out k x Hk Hr; [discriminate|].
  cbn [DPTHead.scale_loop]. destruct k as [|k].
  - cbn in Hk. injection Hk as ->. rewrite Nat.add_0_r in Hr.
    now apply raises_bind_l.
  - cbn in Hk. apply raises_bind_r. intros y _.
    apply (IH (S i) _ k x Hk). now rewrite Nat.add_succ_comm.
Qed.

Lemma expand_as_inv u x g y : expand_as u x g = Ok y -> shape y = shape x.
Proof.
  unfold expand_as. destruct (broadcastable_to _ _); [|discriminate].
  intros E. now injection E as <-.
Qed.




(** ** Projection heads *)

Lemma probe_forward_eq `{Transcendental} m x g :
  DepthProbeHead.forward m x g
  = (let* a := Sequential.forward (DepthProbeHead.linear_1 m) x in
     let* b := Sequential.forward (DepthProbeHead.linear_2 m) x in
     let* c := Sequential.forward (DepthProbeHead.linear_3 m) x in
     ret [(a, None); (a, None); (b, None); (c, None)]) g.
Proof.
  unfold DepthProbeHead.forward, bind.
  destruct (Sequential.forward (DepthProbeHead.linear_1 m) x g); reflexivity.
Qed.

Lemma append_aux_returns `{ResamplerModel} `{Transcendental} features linear s v g
    lead d :
  linear = Some s -> mlp_is s d d -> shape v = lead ++ [d] ->
  returns (DepthHead.append_aux features linear v) g
    (fun l => exists a, l = features ++ [(a, None)]
                        /\ Sequential.forward s v g = Ok a
                        /\ shape a = lead ++ [d]).
Proof.
  intros -> Hs Hv. unfold DepthHead.append_aux. cbn.
  destruct (mlp_returns s v g lead d d Hs Hv) as (a & Ea & Ha).
  unfold returns, bind, ret. cbn. rewrite Ea. exists (features ++ [(a, None)]).
  split; [reflexivity|]. now exists a.
Qed.

(** The resampler head built by its constructor is well formed, and its
    flag is the constructor argument. *)
Lemma DepthHead_init_inv `{ResamplerModel} llm_hidden_size proj_config uid gen m gen' :
  DepthHead.init llm_hidden_size proj_config uid gen = Ok (m, gen') ->
  DepthHead.use_intermediate_depth m = uid
  /\ exists d output_dim,
       proj_config = Some d /\ d !! "output_dim" = Some output_dim
       /\ depth_head_wf output_dim m.
Proof.
  intros E. unfold DepthHead.init in E.
  apply ibind_inv in E as (dim & g1 & E1 & E).
  apply config_get_inv in E1 as (d & Hd & H1). subst proj_config.
  do 6 (apply ibind_inv in E as (? & ? & _ & E)).
  apply ibind_inv in E as (proj & g8 & _ & E).
  assert (forall v gg gg', config_get (Some d) "output_dim" gg = Ok (v, gg') -> v = dim)
    as Hget.
  { intros v gg gg' Ev. apply config_get_inv in Ev as (d' & Hd' & Hv).
    injection Hd' as <-. congruence. }
  destruct uid.
  - apply ibind_inv in E as (a1 & ? & Ea1 & E). apply Hget in Ea1 as ->.
    apply ibind_inv in E as (b1 & ? & Eb1 & E). apply Hget in Eb1 as ->.
    apply ibind_inv in E as (s1 & ? & Es1 & E). apply build_mlp_inv in Es1.
    apply ibind_inv in E as (a2 & ? & Ea2 & E). apply Hget in Ea2 as ->.
    apply ibind_inv in E as (b2 & ? & Eb2 & E). apply Hget in Eb2 as ->.
    apply ibind_inv in E as (s2 & ? & Es2 & E). apply build_mlp_inv in Es2.
    apply ibind_inv in E as (a3 & ? & Ea3 & E). apply Hget in Ea3 as ->.
    apply ibind_inv in E as (b3 & ? & Eb3 & E). apply Hget in Eb3 as ->.
    apply ibind_inv in E as (s3 & ? & Es3 & E). apply build_mlp_inv in Es3.
    injection E as <- _. split; [reflexivity|].
    exists d, dim. split; [reflexivity|]. split; [exact H1|].
    unfold depth_head_wf. cbn. exists s1, s2, s3. auto 10.
  - injection E as <- _. split; [reflexivity|].
    exists d, dim. split; [reflexivity|]. split; [exact H1|]. exact I.
Qed.

(** ** Auxiliary facts for the statements below *)

Lemma list4 {A} (l : list A) :
  length l = 4%nat -> exists a b c d, l = [a; b; c; d].
Proof.
  destruct l as [|a [|b [|c [|d [|? ?]]]]]; try discriminate. intros _. eauto.
Qed.

Lemma dav2_wf_channels features ocs use_bn cls m :
  dav2_wf features ocs use_bn cls m ->
  exists oc0 oc1 oc2 oc3 rest, ocs = oc0 :: oc1 :: oc2 :: oc3 :: rest.
Proof. intros (oc0 & oc1 & oc2 & oc3 & rest & -> & _). eauto 6. Qed.

Lemma positive4 (oc0 oc1 oc2 oc3 : N) rest :
  Forall (fun c : N => 0 < c) (oc0 :: oc1 :: oc2 :: oc3 :: rest) ->
  oc0 <> 0 /\ oc1 <> 0 /\ oc2 <> 0 /\ oc3 <> 0.
Proof.
  intros Hp. apply Forall_cons in Hp as [H0 Hp]. apply Forall_cons in Hp as [H1 Hp].
  apply Forall_cons in Hp as [H2 Hp]. apply Forall_cons in Hp as [H3 _]. lia.
Qed.

Lemma half_nonzero n : 2 <= n -> n / 2 <> 0.
Proof. intros Hn. assert (0 < n / 2); [apply N.div_str_pos|]; lia. Qed.

(** Under gradient mode off the map that the wrapper returns records no
    gradient history. *)
Lemma dav2_forward_no_grad `{Transcendental} m feats depth m' :
  DAv2_Head.forward m feats false = Ok (depth, m') -> requires_grad depth = false.
Proof.
  intros E. unfold DAv2_Head.forward in E.
  apply bind_inv in E as ([d head] & _ & E).
  apply bind_inv in E as (r & _ & E). apply bind_inv in E as (q & Eq & E).
  injection E as <- _. unfold squeeze in Eq.
  destruct (Nat.ltb _ _); [|discriminate].
  destruct (_ =? 1); injection Eq as <-; reflexivity.
Qed.



Lemma output_of_ok {A B} (r : result (A * B)) a b :
  is_ok r = true -> r = Ok (fst (output_of r a b), snd (output_of r a b)).
Proof. destruct r as [[x y]|e]; [reflexivity|discriminate]. Qed.

Lemma sample_head_wf use_bn use_clstoken :
  dav2_wf 256 [256; 512; 1024; 1024] use_bn use_clstoken
    (sample_head use_bn use_clstoken).
Proof.
  unfold sample_head.
  destruct (DAv2_Head.init _ _ _ _ _ _) as [[m gen]|e] eqn:E.
  - exact (DAv2_Head_init_inv _ _ _ _ _ _ _ _ E).
  - apply (f_equal is_ok) in E. destruct use_bn, use_clstoken; vm_compute in E;
      discriminate.
Qed.

Lemma sample_feats_ok use_clstoken b :
  Forall (entry_ok use_clstoken b (24 * 24) 1024) (sample_feats b).
Proof.
  assert (entry_ok use_clstoken b (24 * 24) 1024 (sample_entry b)) as He.
  { eexists. split; [reflexivity|]. split; [reflexivity|].
    intros _. eexists. split; reflexivity. }
  repeat constructor; exact He.
Qed.

Lemma small_dpt_wf use_bn use_clstoken :
  dpt_wf 8 4 use_bn [2; 3; 4; 5] use_clstoken (small_dpt use_bn use_clstoken).
Proof.
  unfold small_dpt.
  destruct (DPTHead.init _ _ _ _ _ _) as [[m gen]|e] eqn:E.
  - exact (DPTHead_init_inv _ _ _ _ _ _ _ _ E).
  - apply (f_equal is_ok) in E. destruct use_bn, use_clstoken; vm_compute in E;
      discriminate.
Qed.


Lemma value_of_ok {A} (r : result A) d : is_ok r = true -> r = Ok (value_of r d).
Proof. destruct r; [reflexivity|discriminate]. Qed.

Lemma sample_block_wf use_bn :
  ffb_wf 4 use_bn false None (sample_block use_bn)
  /\ FeatureFusionBlock.align_corners (sample_block use_bn) = true.
Proof.
  unfold sample_block.
  destruct (_make_fusion_block _ _ _ _) as [[f gen]|e] eqn:E.
  - destruct (_make_fusion_block_inv _ _ _ _ _ E) as (f' & Ef & W & A).
    injection Ef as <-. auto.
  - apply (f_equal is_ok) in E. destruct use_bn; vm_compute in E; discriminate.
Qed.

Lemma sized_block_wf : ffb_wf 4 true true (Some [7; 9]) sized_block.
Proof.
  unfold sized_block.
  destruct (FeatureFusionBlock.init _ _ _ _ _ _ _ _) as [[f gen]|e] eqn:E.
  - now apply FeatureFusionBlock_init_inv in E as [W _].
  - apply (f_equal is_ok) in E. vm_compute in E. discriminate.
Qed.

Lemma sample_probe_wf : probe_wf 6 3 sample_probe.
Proof.
  unfold sample_probe.
  destruct (DepthProbeHead.init _ _ _) as [[m gen]|e] eqn:E.
  - apply DepthProbeHead_init_inv in E as (d & od & Hd & Ho & W).
    injection Hd as <-. vm_compute in Ho. injection Ho as <-. exact W.
  - apply (f_equal is_ok) in E. vm_compute in E. discriminate.
Qed.

Lemma sample_depth_head_wf uid :
  @depth_head_wf pooling_resampler 3 (sample_depth_head uid)
  /\ @DepthHead.use_intermediate_depth pooling_resampler (sample_depth_head uid) = uid.
Proof.
  unfold sample_depth_head.
  destruct (DepthHead.init _ _ _ _) as [[m gen]|e] eqn:E.
  - apply DepthHead_init_inv in E as (Hu & d & od & Hd & Ho & W).
    injection Hd as <-. vm_compute in Ho. injection Ho as <-. auto.
  - apply (f_equal is_ok) in E. destruct uid; vm_compute in E; discriminate.
Qed.


(** ** Values that are no number

    NaN is absorbing for the sum and the product, the rectifier keeps it,
    and so it travels from the features to the depth map. *)

Lemma fadd_nan_l x : (fnan + x)%F = fnan.
Proof. now destruct x. Qed.

Lemma fadd_nan_r x : (x + fnan)%F = fnan.
Proof. now destruct x. Qed.

Lemma fmul_nan_l x : (fnan * x)%F = fnan.
Proof. now destruct x. Qed.

Lemma fmul_nan_r x : (x * fnan)%F = fnan.
Proof. now destruct x. Qed.

Lemma nan_not_ordered : fleb fzero fnan = false.
Proof. reflexivity. Qed.

Lemma fold_nan_absorbs (f : N -> float32) l :
  fold_left (fun acc i => (acc + f i)%F) l fnan = fnan.
Proof.
  induction l as [|i l IH]; [reflexivity|]. cbn [fold_left]. now rewrite fadd_nan_l.
Qed.

Lemma fold_nan_term (f : N -> float32) l i acc :
  In i l -> f i = fnan -> fold_left (fun acc i => (acc + f i)%F) l acc = fnan.
Proof.
  revert acc. induction l as [|k l IH]; intros acc Hi Hf; [destruct Hi|].
  cbn [fold_left]. destruct Hi as [->|Hi].
  - rewrite Hf, fadd_nan_r. apply fold_nan_absorbs.
  - now apply IH.
Qed.

Lemma rangeN_In n i : i < n -> In i (rangeN n).
Proof.
  intros Hi. unfold rangeN. apply in_map_iff. exists (N.to_nat i).
  split; [apply N2Nat.id|]. apply in_seq. lia.
Qed.

(** A sum with a NaN term is NaN. *)
Lemma sumF_nan n f i : i < n -> f i = fnan -> sumF n f = fnan.
Proof.
  intros Hi Hf. unfold sumF. apply (fold_nan_term f _ i); [|exact Hf].
  now apply rangeN_In.
Qed.

Lemma returns_ok {A} (m : M A) g (P : A -> Prop) a :
  returns m g P -> m g = Ok a -> P a.
Proof. intros (a' & E' & HP) E. rewrite E in E'. now injection E' as <-. Qed.

Lemma all_nan_within x h w : all_nan x -> nan_within h w x.
Proof. intros Hx b c i j _ _. apply Hx. Qed.

(** The tap of the kernel at the padding offset reads the input inside its
    bounds, at every output position. *)
Lemma conv_tap_in_range n k s p m i :
  Conv2d.out_size n k s p = Some m -> 2 * p < k -> i < m -> i * s < n.
Proof.
  intros Ho Hp Hi. apply conv_out_size_inv in Ho as (Hn & Hk & Hs & Hle & ->).
  assert (i <= (n + 2 * p - k) / s) as Hq by lia.
  assert (s * ((n + 2 * p - k) / s) <= n + 2 * p - k) as Hd
    by apply N.Div0.mul_div_le.
  nia.
Qed.

Lemma Conv2d_at_nan c x h w ho wo :
  Conv2d.in_channels c <> 0 ->
  Conv2d.out_size h (Conv2d.kernel_size c) (Conv2d.stride c) (Conv2d.padding c)
  = Some ho ->
  Conv2d.out_size w (Conv2d.kernel_size c) (Conv2d.stride c) (Conv2d.padding c)
  = Some wo ->
  2 * Conv2d.padding c < Conv2d.kernel_size c ->
  nan_within h w x ->
  forall b co i j, i < ho -> j < wo -> Conv2d.at_ c x h w [b; co; i; j] = fnan.
Proof.
  intros Hin Hho Hwo Hp Hx b co i j Hi Hj.
  pose proof (conv_tap_in_range _ _ _ _ _ i Hho Hp Hi) as Hti.
  pose proof (conv_tap_in_range _ _ _ _ _ j Hwo Hp Hj) as Htj.
  unfold Conv2d.at_. cbv zeta. cbn [ix nth].
  rewrite (sumF_nan _ _ 0); [apply fadd_nan_l|lia|].
  apply (sumF_nan _ _ (Conv2d.padding c)); [lia|].
  apply (sumF_nan _ _ (Conv2d.padding c)); [lia|].
  replace (i * Conv2d.stride c + Conv2d.padding c - Conv2d.padding c)
    with (i * Conv2d.stride c) by lia.
  replace (j * Conv2d.stride c + Conv2d.padding c - Conv2d.padding c)
    with (j * Conv2d.stride c) by lia.
  assert ((Conv2d.padding c <=? i * Conv2d.stride c + Conv2d.padding c) = true) as ->
    by (apply N.leb_le; lia).
  assert ((Conv2d.padding c <=? j * Conv2d.stride c + Conv2d.padding c) = true) as ->
    by (apply N.leb_le; lia).
  apply N.ltb_lt in Hti, Htj. rewrite Hti, Htj. cbn [andb].
  apply N.ltb_lt in Hti, Htj. rewrite (Hx _ _ _ _ Hti Htj). apply fmul_nan_l.
Qed.

(** A convolution whose kernel is wider than twice its padding maps a
    batch that is NaN on its grid to one that is NaN on its grid. *)
Lemma Conv2d_forward_nan c x g y b ci h w i o k s p :
  conv_is c i o k s p -> i <> 0 -> 2 * p < k ->
  Conv2d.forward c x g = Ok y -> shape x = [b; ci; h; w] ->
  nan_within h w x ->
  exists ho wo,
    Conv2d.out_size h k s p = Some ho /\ Conv2d.out_size w k s p = Some wo
    /\ shape y = [b; o; ho; wo] /\ nan_within ho wo y.
Proof.
  intros (Hi & Ho & Hk & Hs & Hp) Hin Hpk E Hx Hnan.
  apply (Conv2d_forward_inv4 _ _ _ _ _ _ _ _ Hx) in E
    as (ho & wo & _ & Hho & Hwo & _ & ->).
  exists ho, wo. rewrite <- Hk, <- Hs, <- Hp, <- Ho.
  split; [exact Hho|]. split; [exact Hwo|]. split; [reflexivity|].
  intros b' co i' j' Hi' Hj'. cbn [data out_of].
  apply (Conv2d_at_nan c x h w ho wo); try assumption; [congruence|].
  now rewrite Hk, Hp.
Qed.

Lemma broadcast_index_same b c h w b' c' i j :
  i < h -> j < w ->
  exists b'' c'' i'' j'',
    broadcast_index [b; c; h; w] [b; c; h; w] [b'; c'; i; j] = [b''; c''; i''; j'']
    /\ i'' < h /\ j'' < w.
Proof.
  intros Hi Hj. unfold broadcast_index. cbn.
  eexists. eexists. eexists. eexists. split; [reflexivity|].
  split; [destruct (h =? 1) eqn:E|destruct (w =? 1) eqn:E]; lia.
Qed.

(** A sum is NaN where one of its operands is. *)
Lemma add_nan_l a b g y n c h w :
  add a b g = Ok y -> shape y = shape a -> shape a = [n; c; h; w] ->
  nan_within h w a -> nan_within h w y.
Proof.
  unfold add. intros E Hy Ha Hnan.
  destruct (broadcast_shapes (shape a) (shape b)) as [s|]; [|discriminate].
  injection E as <-. cbn in Hy. subst s. rewrite Ha.
  intros b' c' i j Hi Hj. cbn [data out_of].
  destruct (broadcast_index_same n c h w b' c' i j Hi Hj)
    as (b'' & c'' & i'' & j'' & -> & Hi'' & Hj'').
  rewrite (Hnan _ _ _ _ Hi'' Hj''). apply fadd_nan_l.
Qed.

Lemma add_nan_r a b g y n c h w :
  add a b g = Ok y -> shape y = shape b -> shape b = [n; c; h; w] ->
  nan_within h w b -> nan_within h w y.
Proof.
  unfold add. intros E Hy Hb Hnan.
  destruct (broadcast_shapes (shape a) (shape b)) as [s|]; [|discriminate].
  injection E as <-. cbn in Hy. subst s. rewrite Hb.
  intros b' c' i j Hi Hj. cbn [data out_of].
  destruct (broadcast_index_same n c h w b' c' i j Hi Hj)
    as (b'' & c'' & i'' & j'' & -> & Hi'' & Hj'').
  rewrite (Hnan _ _ _ _ Hi'' Hj''). apply fadd_nan_r.
Qed.

Lemma taps_in_range a n m i :
  n <> 0 -> fst (fst (taps a n m i)) < n /\ snd (fst (taps a n m i)) < n.
Proof. intros Hn. unfold taps. cbn. lia. Qed.

(** A bilinear resize of a batch that is NaN on its grid is NaN everywhere:
    both neighbours of every source coordinate are on the grid. *)
Lemma interpolate_nan x m a g y b c h w :
  interpolate x m a g = Ok y -> shape x = [b; c; h; w] ->
  nan_within h w x -> all_nan y.
Proof.
  intros E Hx Hnan. unfold interpolate in E. rewrite Hx in E.
  destruct (negb _); [discriminate|].
  destruct (match m with Size size => size | ScaleFactor f => _ end)
    as [|ho [|wo [|? ?]]]; try discriminate.
  destruct ((h =? 0) || (w =? 0) || (ho =? 0) || (wo =? 0)) eqn:Ez; [discriminate|].
  apply orb_false_elim in Ez as [Ez _]. apply orb_false_elim in Ez as [Ez _].
  apply orb_false_elim in Ez as [Eh Ew]. apply N.eqb_neq in Eh, Ew.
  injection E as <-. intros idx. cbn [data out_of]. unfold bilinear_plane, plane.
  pose proof (taps_in_range a h ho (ix idx 2) Eh) as [Hh0 Hh1].
  pose proof (taps_in_range a w wo (ix idx 3) Ew) as [Hw0 Hw1].
  destruct (taps a h ho (ix idx 2)) as [[h0 h1] lh].
  destruct (taps a w wo (ix idx 3)) as [[w0 w1] lw]. cbn [fst snd] in *.
  rewrite !Hnan by assumption.
  now rewrite ?fmul_nan_r, ?fadd_nan_l, ?fmul_nan_r, ?fadd_nan_l.
Qed.

Lemma Conv2d_311_nan c x g y b ci h w i o :
  conv_is c i o 3 1 1 -> i <> 0 ->
  Conv2d.forward c x g = Ok y -> shape x = [b; ci; h; w] ->
  nan_within h w x ->
  shape y = [b; o; h; w] /\ nan_within h w y.
Proof.
  intros Hc Hi E Hx Hnan.
  destruct (Conv2d_forward_nan _ _ _ _ _ _ _ _ _ _ _ _ _ Hc Hi ltac:(lia) E Hx Hnan)
    as (ho & wo & Hho & Hwo & Hs & Hn).
  apply conv_out_size_inv in Hho as Hh. destruct Hh as (Hh & _).
  apply conv_out_size_inv in Hwo as Hw. destruct Hw as (Hw & _).
  rewrite conv_out_size_3_1_1 in Hho, Hwo by assumption.
  injection Hho as <-. injection Hwo as <-. auto.
Qed.

Lemma Conv2d_110_nan c x g y b ci h w i o :
  conv_is c i o 1 1 0 -> i <> 0 ->
  Conv2d.forward c x g = Ok y -> shape x = [b; ci; h; w] ->
  nan_within h w x ->
  shape y = [b; o; h; w] /\ nan_within h w y.
Proof.
  intros Hc Hi E Hx Hnan.
  destruct (Conv2d_forward_nan _ _ _ _ _ _ _ _ _ _ _ _ _ Hc Hi ltac:(lia) E Hx Hnan)
    as (ho & wo & Hho & Hwo & Hs & Hn).
  apply conv_out_size_inv in Hho as Hh. destruct Hh as (Hh & _).
  apply conv_out_size_inv in Hwo as Hw. destruct Hw as (Hw & _).
  rewrite conv_out_size_1_1_0 in Hho, Hwo by assumption.
  injection Hho as <-. injection Hwo as <-. auto.
Qed.

Lemma Conv2d_311_shape c x g y b ci h w i o :
  conv_is c i o 3 1 1 ->
  Conv2d.forward c x g = Ok y -> shape x = [b; ci; h; w] ->
  shape y = [b; o; h; w].
Proof.
  intros (Hi & Ho & Hk & Hs & Hp) E Hx.
  apply (Conv2d_forward_inv4 _ _ _ _ _ _ _ _ Hx) in E
    as (ho & wo & _ & Hho & Hwo & _ & ->).
  rewrite Hk, Hs, Hp in Hho, Hwo.
  apply conv_out_size_inv in Hho as Hh. destruct Hh as (Hh & _).
  apply conv_out_size_inv in Hwo as Hw. destruct Hw as (Hw & _).
  rewrite conv_out_size_3_1_1 in Hho, Hwo by assumption.
  injection Hho as <-. injection Hwo as <-. cbn. now rewrite Ho.
Qed.

(** A residual unit adds its input to its result, so it keeps NaN. *)
Lemma rcu_nan `{Transcendental} r x g features use_bn y r' b h w :
  rcu_wf features use_bn r ->
  ResidualConvUnit.forward r x g = Ok (y, r') ->
  shape x = [b; features; h; w] -> nan_within h w x ->
  shape y = [b; features; h; w] /\ nan_within h w y.
Proof.
  intros Hwf E Hs Hnan.
  pose proof (rcu_inv _ _ _ _ _ _ _ Hwf E) as (Hy & _).
  destruct Hwf as (_ & _ & _ & _ & _ & Ha).
  unfold ResidualConvUnit.forward in E.
  apply bind_inv in E as (a0 & E0 & E).
  apply bind_inv in E as (a1 & _ & E).
  apply bind_inv in E as ([a2 bn1'] & _ & E).
  apply bind_inv in E as (a3 & _ & E).
  apply bind_inv in E as (a4 & _ & E).
  apply bind_inv in E as ([a5 bn2'] & _ & E).
  apply bind_inv in E as (a6 & _ & E).
  apply bind_inv in E as (a7 & E7 & E). injection E as <- _.
  split; [congruence|].
  set (x' := if Layers.overwrites_input _ then a0 else x) in E7.
  assert (shape x' = [b; features; h; w] /\ nan_within h w x') as [Hs' Hx'].
  { subst x'.
    destruct (ResidualConvUnit.activation r) as [| | |inplace| |];
      cbn [Layers.overwrites_input]; auto.
    destruct inplace; auto.
    cbn [Layers.forward] in E0. apply relu__inv in E0 as [_ ->]. cbn.
    split; [exact Hs|]. intros b' c' i j Hi Hj. cbn.
    rewrite (Hnan _ _ _ _ Hi Hj). apply relu_F_nan. }
  apply (add_nan_r _ _ _ _ b features h w E7); [congruence|assumption..].
Qed.

(** A fusion block whose deep path is NaN returns NaN. *)
Lemma ffb_nan `{Transcendental} f xs x size g features use_bn expand configured
    out f' b h w ho wo :
  ffb_wf features use_bn expand configured f ->
  FeatureFusionBlock.forward f xs size g = Ok (out, f') ->
  fusion_inputs xs x ->
  shape x = [b; features; h; w] -> nan_within h w x ->
  resize_target_spec size configured h w = [ho; wo] ->
  shape out = [b; if expand then features / 2 else features; ho; wo]
  /\ nan_within ho wo out.
Proof.
  intros Hwf E Hxs Hs Hnan Ht.
  pose proof Hwf as (Hoc & Hr1 & Hr2 & He & Hsz).
  unfold FeatureFusionBlock.forward in E.
  assert (exists rest, xs = x :: rest) as (rest & ->)
    by (destruct Hxs as [->|(skip & -> & _)]; eauto).
  apply bind_inv in E as ([o unit1] & E1 & E).
  assert (shape o = [b; features; h; w] /\ nan_within h w o) as [Ho Hno].
  { destruct Hxs as [Ex|(skip & Ex & Hskip)]; injection Ex as ->.
    - injection E1 as <- _. auto.
    - apply bind_inv in E1 as ([res u1] & Er & E1).
      apply (rcu_inv _ _ _ _ _ _ _ Hr1) in Er as (Hres & _).
      apply bind_inv in E1 as (o' & Ea & E1). injection E1 as <- _.
      assert (shape o' = shape x) as Ho'
        by (apply (add_same_inv _ _ _ _ Ea); congruence).
      split; [congruence|].
      apply (add_nan_l _ _ _ _ b features h w Ea); assumption. }
  apply bind_inv in E as ([o2 unit2] & E2 & E).
  pose proof (rcu_inv _ _ _ _ _ _ _ Hr2 E2) as (_ & _ & _ & Hf & _).
  destruct (rcu_nan _ _ _ _ _ _ _ b h w Hr2 E2 Ho Hno) as [Ho2 Hno2].
  apply bind_inv in E as (z & Ez & E).
  apply bind_inv in E as (out' & Eo & E). injection E as <- _.
  pose proof (interpolate_nan _ _ _ _ _ _ _ _ _ Ez Ho2 Hno2) as Hz.
  rewrite Hsz in Ez.
  apply interpolate_modifier_inv in Ez
    as (b1 & c1 & h1 & w1 & ho1 & wo1 & Hx2 & Hzs & _ & _ & Hho & Hwo & Ht').
  rewrite Ho2 in Hx2. injection Hx2 as <- <- <- <-.
  rewrite Ht in Ht'. injection Ht' as <- <-.
  exact (Conv2d_110_nan _ _ _ _ _ _ _ _ _ _ Hoc Hf Eo Hzs (all_nan_within _ _ _ Hz)).
Qed.

Lemma item_inv {A} (l : list A) i g a : item l i g = Ok a -> l !! i = Some a.
Proof.
  unfold item. destruct (l !! i); [|discriminate]. intros E. now injection E as ->.
Qed.

(** The coarsest scale map of NaN tokens is NaN. *)
Lemma scale_map_nan `{Transcendental} self g in_channels features use_bn
    oc0 oc1 oc2 oc3 rest x t b ph pw y :
  dpt_wf in_channels features use_bn (oc0 :: oc1 :: oc2 :: oc3 :: rest) false self ->
  x !! 0%nat = Some t -> shape t = [b; ph * pw; in_channels] -> all_nan t ->
  in_channels <> 0 -> oc3 <> 0 ->
  DPTHead.scale_map self ph pw 3 x g = Ok y ->
  shape y = [b; oc3; (ph + 1) / 2; (pw + 1) / 2]
  /\ nan_within ((ph + 1) / 2) ((pw + 1) / 2) y.
Proof.
  intros Hwf Hx Hs Hnan Hin Hoc3 E.
  destruct Hwf as (? & ? & ? & ? & ? & Hocs & Hcls & Hp
    & (r0 & r1 & r3 & Hrl & _ & _ & H3) & _ & _).
  injection Hocs as <- <- <- <- <-.
  unfold DPTHead.scale_map in E. rewrite Hcls in E.
  rewrite (bind_ok _ _ _ _ (item_ok _ _ _ g Hx)) in E.
  apply bind_inv in E as (xp & Ep & E).
  assert (all_nan xp) as Hxp.
  { unfold permute in Ep. destruct (is_permutation _ _); [|discriminate].
    injection Ep as <-. intros idx. apply Hnan. }
  rewrite Hs in E. cbn [ix nth List.last] in E.
  apply bind_inv in E as (r & Er & E).
  assert (all_nan r /\ shape r = [b; in_channels; ph; pw]) as [Hnr Hsr].
  { unfold reshape in Er. destruct (_ =? _); [|discriminate].
    injection Er as <-. split; [intros idx; apply Hxp|reflexivity]. }
  apply bind_inv in E as (p & Epi & E). apply item_inv in Epi.
  destruct (Forall2_lookup_l _ _ _ _ _ Hp Epi) as (oc & Hoc & Hconv).
  cbn in Hoc. injection Hoc as <-.
  apply bind_inv in E as (y1 & E1 & E).
  destruct (Conv2d_110_nan _ _ _ _ _ _ _ _ _ _ Hconv Hin E1 Hsr
              (all_nan_within _ _ _ Hnr)) as [Hs1 Hn1].
  apply bind_inv in E as (l & El & E). apply item_inv in El.
  rewrite Hrl in El. cbn in El. injection El as <-. cbn [Layers.forward] in E.
  destruct (Conv2d_forward_nan _ _ _ _ _ _ _ _ _ _ _ _ _ H3 Hoc3 ltac:(lia) E Hs1 Hn1)
    as (ho & wo & Hho & Hwo & Hsy & Hny).
  apply conv_out_size_inv in Hho as Hh. destruct Hh as (Hh & _).
  apply conv_out_size_inv in Hwo as Hw. destruct Hw as (Hw & _).
  rewrite conv_out_size_3_2_1 in Hho, Hwo by assumption.
  injection Hho as <-. injection Hwo as <-. auto.
Qed.

Lemma scale_loop_last `{Transcendental} self ph pw g x0 x1 x2 x3 l1 l2 l3 l4 :
  DPTHead.scale_loop self ph pw 0 [x0; x1; x2; x3] [] g = Ok [l1; l2; l3; l4] ->
  DPTHead.scale_map self ph pw 3 x3 g = Ok l4.
Proof.
  cbn [DPTHead.scale_loop]. intros E.
  apply bind_inv in E as (a & _ & E). apply bind_inv in E as (b & _ & E).
  apply bind_inv in E as (c & _ & E). apply bind_inv in E as (d & Ed & E).
  cbn in E. injection E as _ _ _ <-. exact Ed.
Qed.

(** The output stack keeps NaN: its rectifiers do. *)
Lemma output_conv2_nan `{Transcendental} ca cb x g b c h w y :
  conv_is ca c 32 3 1 1 -> conv_is cb 32 1 1 1 0 -> c <> 0 ->
  shape x = [b; c; h; w] -> nan_within h w x ->
  Sequential.forward
    [L_Conv2d ca; L_ReLU true; L_Conv2d cb; L_ReLU true; L_Identity] x g = Ok y ->
  nan_within h w y.
Proof.
  intros Ha Hb Hc Hx Hnan E. cbn [Sequential.forward Layers.forward] in E.
  apply bind_inv in E as (y1 & E1 & E).
  destruct (Conv2d_311_nan _ _ _ _ _ _ _ _ _ _ Ha Hc E1 Hx Hnan) as [Hs1 Hn1].
  apply bind_inv in E as (y2 & E2 & E). apply relu__inv in E2 as [_ ->].
  apply bind_inv in E as (y3 & E3 & E).
  destruct (Conv2d_110_nan _ _ _ _ b 32 h w _ _ Hb ltac:(lia) E3 Hs1) as [Hs3 Hn3].
  { intros b' c' i j Hi Hj. cbn. rewrite (Hn1 _ _ _ _ Hi Hj). apply relu_F_nan. }
  apply bind_inv in E as (y4 & E4 & E). apply relu__inv in E4 as [_ ->].
  apply bind_inv in E as (y5 & E5 & E). injection E5 as <-. injection E as <-.
  intros b' c' i j Hi Hj. cbn. rewrite (Hn3 _ _ _ _ Hi Hj). apply relu_F_nan.
Qed.

(** The dense prediction head on features whose coarsest entry is NaN: the
    NaN reaches every position of the map through the four fusion stages. *)
Lemma dpt_forward_nan `{Transcendental} self g in_channels features use_bn
    oc0 oc1 oc2 oc3 rest x0 x1 x2 x3 t b ph pw out self' :
  dpt_wf in_channels features use_bn (oc0 :: oc1 :: oc2 :: oc3 :: rest) false self ->
  Forall (entry_ok false b (ph * pw) in_channels) [x0; x1; x2; x3] ->
  ph <> 0 -> pw <> 0 -> in_channels <> 0 -> features / 2 <> 0 ->
  oc0 <> 0 -> oc1 <> 0 -> oc2 <> 0 -> oc3 <> 0 ->
  x3 !! 0%nat = Some t -> all_nan t ->
  DPTHead.forward self [x0; x1; x2; x3] ph pw g = Ok (out, self') ->
  nan_within (ph * 14) (pw * 14) out.
Proof.
  intros Hwf Hall Hph Hpw Hin Hhalf Hoc0 Hoc1 Hoc2 Hoc3 Hx3 Hnan E.
  assert (features <> 0) as Hfeat by (intros ->; now apply Hhalf).
  pose proof (dpt_forward_inv _ _ _ _ _ _ _ E) as Hinv. cbv zeta in Hinv.
  destruct Hinv as (l1 & l2 & l3 & l4 & s0 & s1 & s2 & s3 & c4 & r1 & r2 & r3 & r4
    & p4 & p3 & p2 & p1 & r1' & r2' & r3' & r4' & oc1' & oc2' & y1 & y2
    & Eloop & E0 & E1 & E2 & Ec4 & E3 & Er4 & Er3 & Er2 & Er1 & Ep4 & Ep3 & Ep2 & Ep1
    & Eoc1 & Ey1 & Ey2 & Eoc2 & Eout & _).
  pose proof (returns_ok _ _ _ _
                (scale_loop_returns self g _ _ _ _ _ _ _ _ _ _ _ _ _ _ _ _
                   Hwf Hall Hph Hpw Hin Hoc0 Hoc1 Hoc2 Hoc3) Eloop)
    as (? & ? & ? & ? & Heq & Hl1 & Hl2 & Hl3 & _).
  injection Heq as <- <- <- <-. cbn in Hl1, Hl2, Hl3.
  pose proof (scale_loop_last _ _ _ _ _ _ _ _ _ _ _ _ Eloop) as El4.
  assert (shape t = [b; ph * pw; in_channels]) as Ht.
  { apply Forall_cons in Hall as [_ Hall]. apply Forall_cons in Hall as [_ Hall].
    apply Forall_cons in Hall as [_ Hall]. apply Forall_cons in Hall as [H3 _].
    destruct H3 as (t' & Ht' & Hs' & _). congruence. }
  destruct (scale_map_nan _ _ _ _ _ _ _ _ _ _ _ _ _ _ _ _ Hwf Hx3 Ht Hnan Hin Hoc3 El4)
    as [Hl4 Hn4].
  destruct Hwf as (? & ? & ? & ? & ? & Hocs & _ & _ & _ & _ & Hsc).
  injection Hocs as <- <- <- <- <-.
  destruct Hsc as (Hc1 & Hc2 & Hc3 & (c4' & Ec4' & Hc4) & (q1 & Eq1 & Hr1 & _)
    & (q2 & Eq2 & Hr2 & _) & (q3 & Eq3 & Hr3 & _) & (q4 & Eq4 & Hr4 & _)
    & (o1 & Eo1 & Ho1) & (ca & cb & Eo2 & Hca & Hcb)).
  rewrite Ec4 in Ec4'. injection Ec4' as <-.
  rewrite Er1 in Eq1. injection Eq1 as <-. rewrite Er2 in Eq2. injection Eq2 as <-.
  rewrite Er3 in Eq3. injection Eq3 as <-. rewrite Er4 in Eq4. injection Eq4 as <-.
  rewrite Eoc1 in Eo1. injection Eo1 as <-. rewrite Eoc2 in Eo2. injection Eo2 as ->.
  pose proof (Conv2d_311_shape _ _ _ _ _ _ _ _ _ _ Hc1 E0 Hl1) as Hs0.
  pose proof (Conv2d_311_shape _ _ _ _ _ _ _ _ _ _ Hc2 E1 Hl2) as Hs1.
  pose proof (Conv2d_311_shape _ _ _ _ _ _ _ _ _ _ Hc3 E2 Hl3) as Hs2.
  destruct (Conv2d_311_nan _ _ _ _ _ _ _ _ _ _ Hc4 Hoc3 E3 Hl4 Hn4) as [Hs3 Hn3].
  (* stage 4 *)
  destruct (ffb_nan r4 [s3] s3 _ g features use_bn false None p4 r4' b
              ((ph + 1) / 2) ((pw + 1) / 2) ph pw
              Hr4 Ep4 (or_introl eq_refl) Hs3 Hn3) as [Hsp4 Hnp4].
  { rewrite Hs2. reflexivity. }
  (* stage 3 *)
  destruct (ffb_nan r3 [p4; s2] p4 _ g features use_bn false None p3 r3' b ph pw
              (2 * ph) (2 * pw) Hr3 Ep3) as [Hsp3 Hnp3]; try assumption.
  { right. exists s2. split; [reflexivity|congruence]. }
  { rewrite Hs1. reflexivity. }
  (* stage 2 *)
  destruct (ffb_nan r2 [p3; s1] p3 _ g features use_bn false None p2 r2' b
              (2 * ph) (2 * pw) (4 * ph) (4 * pw) Hr2 Ep2) as [Hsp2 Hnp2]; try assumption.
  { right. exists s1. split; [reflexivity|congruence]. }
  { rewrite Hs0. reflexivity. }
  (* stage 1 *)
  destruct (ffb_nan r1 [p2; s0] p2 _ g features use_bn false None p1 r1' b
              (4 * ph) (4 * pw) (2 * (4 * ph)) (2 * (4 * pw)) Hr1 Ep1) as [Hsp1 Hnp1];
    try assumption; try reflexivity.
  { right. exists s0. split; [reflexivity|congruence]. }
  (* output head *)
  destruct (Conv2d_311_nan _ _ _ _ _ _ _ _ _ _ Ho1 Hfeat Ey1 Hsp1 Hnp1) as [Hsy1 Hny1].
  pose proof (interpolate_nan _ _ _ _ _ _ _ _ _ Ey2 Hsy1 Hny1) as Hny2.
  apply interpolate_inv in Ey2
    as (b2 & c2 & h2 & w2 & ho2 & wo2 & Hx2 & Hsy2 & _ & _ & _ & _ & Hm).
  rewrite Hsy1 in Hx2. injection Hx2 as <- <- <- <-. injection Hm as <- <-.
  exact (output_conv2_nan ca cb y2 g _ _ _ _ out Hca Hcb Hhalf Hsy2
           (all_nan_within _ _ _ Hny2) Eout).
Qed.
(** * The claims *)

(** C1, as amended. For every valid configuration with the channel widths
    [256, 512, 1024, 1024] and every batch of four scale entries on the
    24 by 24 patch grid, the forward pass of the depth head wrapper returns a
    depth map of shape (batch, 336, 336) in which no value is negative: every
    value is at least zero or is NaN.  The output is rectified, which turns
    negative values into zero and leaves NaN as it is, and the channel axis
    of size one is dropped. *)
Theorem C1_forward_depth_map {math : Transcendental} (m : DAv2_Head.t)
    (features : N) (use_bn use_clstoken : bool) (feats : list (list Tensor))
    (b : N) (g : bool) :
  dav2_wf features [256; 512; 1024; 1024] use_bn use_clstoken m ->
  2 <= features ->
  length feats = 4%nat ->
  Forall (entry_ok use_clstoken b (24 * 24) 1024) feats ->
  0 < b ->
  exists depth m',
    DAv2_Head.forward m feats g = Ok (depth, m')
    /\ shape depth = [b; 336; 336]
    /\ forall idx, in_bounds idx (shape depth) ->
         fleb fzero (data depth idx) = true \/ is_nan (data depth idx) = true.
Proof.
  intros Hwf Hf Hlen Hall _.
  destruct (list4 feats Hlen) as (x0 & x1 & x2 & x3 & ->).
  destruct (dav2_forward_returns m g features use_bn 256 512 1024 1024 [] use_clstoken
              x0 x1 x2 x3 b Hwf Hall (half_nonzero _ Hf))
    as ([depth m'] & E & Hs & Hpos & _); try discriminate.
  exists depth, m'. split; [exact E|]. split; [exact Hs|].
  intros idx _. apply not_negative_cases, Hpos.
Qed.

Lemma C1_witness :
  exists depth m',
    DAv2_Head.forward (H := approx) (sample_head true true) (sample_feats 2) true
    = Ok (depth, m')
    /\ shape depth = [2; 336; 336]
    /\ forall idx, in_bounds idx (shape depth) ->
         fleb fzero (data depth idx) = true \/ is_nan (data depth idx) = true.
Proof.
  apply (C1_forward_depth_map (math := approx) (sample_head true true) 256 true true
           (sample_feats 2) 2 true).
  - apply sample_head_wf.
  - lia.
  - reflexivity.
  - apply sample_feats_ok.
  - lia.
Defined.

(** The claim C1 as stated fails: features that are NaN are valid input,
    the forward pass returns on them, and the map it returns holds NaN, which
    is not greater than or equal to zero. *)
Lemma C1_counterexample :
  let m := sample_head false false in
  dav2_wf 256 [256; 512; 1024; 1024] false false m
  /\ Forall (entry_ok false 1 (24 * 24) 1024) nan_feats
  /\ exists depth m',
       DAv2_Head.forward (H := approx) m nan_feats true = Ok (depth, m')
       /\ shape depth = [1; 336; 336]
       /\ data depth [0; 0; 0] = fnan
       /\ fleb fzero (data depth [0; 0; 0]) = false.
Proof.
  intros m.
  pose proof (sample_head_wf false false) as Hwf. fold m in Hwf. clearbody m.
  assert (Forall (entry_ok false 1 (24 * 24) 1024) nan_feats) as Hall.
  { assert (entry_ok false 1 (24 * 24) 1024 nan_entry) as He.
    { eexists. split; [reflexivity|]. split; [reflexivity|]. discriminate. }
    repeat constructor; exact He. }
  split; [exact Hwf|]. split; [exact Hall|].
  destruct (dav2_forward_returns (H := approx) m true 256 false 256 512 1024 1024 []
              false nan_entry nan_entry nan_entry nan_entry 1 Hwf Hall)
    as ([depth m'] & E & Hs & _); try discriminate.
  cbn [fst] in Hs. exists depth, m'. split; [exact E|]. split; [exact Hs|].
  assert (data depth [0; 0; 0] = fnan) as Hd.
  { unfold DAv2_Head.forward in E. change (336 / 14) with 24 in E.
    apply bind_inv in E as ([out head] & Ed & E).
    pose proof (returns_ok _ _ _ _
                  (dpt_forward_returns (H := approx) (DAv2_Head.depth_head m) true 1024
                     256 false 256 512 1024 1024 [] false nan_entry nan_entry
                     nan_entry nan_entry 1 24 24 Hwf Hall ltac:(lia) ltac:(lia)
                     ltac:(discriminate) ltac:(lia) ltac:(discriminate) ltac:(lia)
                     ltac:(lia) ltac:(lia) ltac:(lia)) Ed) as (Hso & _).
    cbn [fst] in Hso. change (24 * 14) with 336 in Hso.
    pose proof (dpt_forward_nan (H := approx) (DAv2_Head.depth_head m) true 1024 256
                  false 256 512 1024 1024 [] nan_entry nan_entry nan_entry nan_entry
                  (constant [1; 576; 1024] fnan false) 1 24 24 out head Hwf Hall
                  ltac:(lia) ltac:(lia) ltac:(lia) ltac:(discriminate) ltac:(lia)
                  ltac:(lia) ltac:(lia) ltac:(lia) eq_refl (fun _ => eq_refl) Ed)
      as Hnan.
    rewrite (bind_ok _ _ _ _ (relu_ok out true)) in E.
    set (r := out_of true (shape out) _ _) in E.
    rewrite (bind_ok _ _ _ _ (squeeze_channel r true 1 336 336 Hso)) in E.
    injection E as <- _. cbn.
    rewrite (Hnan 0 0 0 0) by reflexivity. reflexivity. }
  split; [exact Hd|]. rewrite Hd. reflexivity.
Qed.






(** C10. On a batch of more than one image the inference entry point
    returns a two-dimensional (h, w) array that is the bilinear resize of
    the depth map of the first batch element alone: the value at (i, j)
    reads the forward pass's map only at batch index 0, so that any map
    with the same first element gives the same array.  The head is one built
    with at least two fusion channels and positive channel widths. *)
Theorem C10_infer_feats_first_element {math : Transcendental} (m : DAv2_Head.t)
    (features : N) (out_channels : list N) (use_bn use_clstoken : bool)
    (feats : list (list Tensor)) (b h w : N) (g : bool) :
  dav2_wf features out_channels use_bn use_clstoken m ->
  2 <= features ->
  Forall (fun c : N => 0 < c) out_channels ->
  length feats = 4%nat ->
  Forall (entry_ok use_clstoken b (24 * 24) 1024) feats ->
  1 < b -> 0 < h -> 0 < w ->
  exists depth (arr : ndarray) m',
    DAv2_Head.forward m feats false = Ok (depth, m')
    /\ shape depth = [b; 336; 336]
    /\ DAv2_Head.infer_feats m feats (h, w) g = Ok (arr, m')
    /\ nd_shape arr = [h; w]
    /\ forall other : Tensor,
         (forall r c, data other [0; r; c] = data depth [0; r; c]) ->
         forall i j,
           nd_data arr [i; j]
           = bilinear_plane true 336 336 h w (fun r c => data other [0; r; c]) i j.
Proof.
  intros Hwf Hf Hpos Hlen Hall Hb Hh Hw.
  destruct (list4 feats Hlen) as (x0 & x1 & x2 & x3 & ->).
  destruct (dav2_wf_channels _ _ _ _ _ Hwf) as (oc0 & oc1 & oc2 & oc3 & rest & ->).
  destruct (positive4 _ _ _ _ _ Hpos) as (H0 & H1 & H2 & H3).
  destruct (infer_feats_spec m g features use_bn oc0 oc1 oc2 oc3 rest use_clstoken
              x0 x1 x2 x3 b h w Hwf Hall) as (depth & m' & Ed & Hs & E);
    try assumption; try lia; try (now apply half_nonzero).
  exists depth. eexists. exists m'.
  split; [exact Ed|]. split; [exact Hs|]. split; [exact E|]. split; [reflexivity|].
  intros other Hsame i j. cbn.
  unfold bilinear_plane.
  destruct (taps true 336 h i) as [[h0 h1] lh].
  destruct (taps true 336 w j) as [[w0 w1] lw].
  now rewrite !Hsame.
Qed.

Lemma C10_witness :
  exists depth (arr : ndarray) m',
    DAv2_Head.forward (H := approx) (sample_head false false) (sample_feats 4) false
    = Ok (depth, m')
    /\ shape depth = [4; 336; 336]
    /\ DAv2_Head.infer_feats (H := approx) (sample_head false false)
         (sample_feats 4) (120, 90) true
       = Ok (arr, m')
    /\ nd_shape arr = [120; 90]
    /\ forall other : Tensor,
         (forall r c, data other [0; r; c] = data depth [0; r; c]) ->
         forall i j,
           nd_data arr [i; j]
           = bilinear_plane true 336 336 120 90 (fun r c => data other [0; r; c]) i j.
Proof.
  apply (C10_infer_feats_first_element (math := approx) (sample_head false false)
           256 [256; 512; 1024; 1024] false false (sample_feats 4) 4 120 90 true).
  - apply sample_head_wf.
  - lia.
  - repeat constructor.
  - reflexivity.
  - apply sample_feats_ok.
  - lia.
  - lia.
  - lia.
Defined.

(** C2. The fusion cascade of the dense prediction head.  Whenever the
    forward pass returns, with [s0 .. s3] the four channel-aligned scale maps:
    stage 4 applied its fusion block to the scale-3 map alone, with the
    spatial size of the scale-2 map as explicit target; stage 3 took the
    output of stage 4 as deep path and the scale-2 map as skip, with the size
    of the scale-1 map as target; stage 2 took the output of stage 3 and the
    scale-1 map, with the size of the scale-0 map as target; stage 1 took the
    output of stage 2 and the scale-0 map with no explicit size. *)
Theorem C2_fusion_cascade {math : Transcendental} (self : DPTHead.t)
    (out_features : list (list Tensor)) (patch_h patch_w : N) (g : bool)
    (out : Tensor) (self' : DPTHead.t) :
  DPTHead.forward self out_features patch_h patch_w g = Ok (out, self') ->
  let s := DPTHead.scratch self in
  exists layer_1 layer_2 layer_3 layer_4 s0 s1 s2 s3 c4,
    (* the four scale maps and their channel alignment *)
    DPTHead.scale_loop self patch_h patch_w 0 out_features [] g
    = Ok [layer_1; layer_2; layer_3; layer_4]
    /\ Conv2d.forward (Scratch.layer1_rn s) layer_1 g = Ok s0
    /\ Conv2d.forward (Scratch.layer2_rn s) layer_2 g = Ok s1
    /\ Conv2d.forward (Scratch.layer3_rn s) layer_3 g = Ok s2
    /\ Scratch.layer4_rn s = Some c4 /\ Conv2d.forward c4 layer_4 g = Ok s3
    /\ exists r1 r2 r3 r4 path_4 path_3 path_2 path_1 r1' r2' r3' r4',
         Scratch.refinenet4 s = Some r4 /\ Scratch.refinenet3 s = Some r3
         /\ Scratch.refinenet2 s = Some r2 /\ Scratch.refinenet1 s = Some r1
         /\ FeatureFusionBlock.forward r4 [s3] (Some (skipn 2 (shape s2))) g
            = Ok (path_4, r4')
         /\ FeatureFusionBlock.forward r3 [path_4; s2] (Some (skipn 2 (shape s1))) g
            = Ok (path_3, r3')
         /\ FeatureFusionBlock.forward r2 [path_3; s1] (Some (skipn 2 (shape s0))) g
            = Ok (path_2, r2')
         /\ FeatureFusionBlock.forward r1 [path_2; s0] None g = Ok (path_1, r1')
         /\ Scratch.refinenet4 (DPTHead.scratch self') = Some r4'
         /\ Scratch.refinenet3 (DPTHead.scratch self') = Some r3'
         /\ Scratch.refinenet2 (DPTHead.scratch self') = Some r2'
         /\ Scratch.refinenet1 (DPTHead.scratch self') = Some r1'.
Proof.
  intros E s. apply dpt_forward_inv in E. cbv zeta in E. fold s in E.
  destruct E as (l1 & l2 & l3 & l4 & s0 & s1 & s2 & s3 & c4 & r1 & r2 & r3 & r4
    & p4 & p3 & p2 & p1 & r1' & r2' & r3' & r4' & oc1 & oc2 & y1 & y2
    & El & E0 & E1 & E2 & Ec4 & E3 & Er4 & Er3 & Er2 & Er1 & F4 & F3 & F2 & F1
    & _ & _ & _ & _ & _ & ->).
  exists l1, l2, l3, l4, s0, s1, s2, s3, c4.
  do 6 (split; [assumption|]).
  exists r1, r2, r3, r4, p4, p3, p2, p1, r1', r2', r3', r4'.
  do 8 (split; [assumption|]). cbn. auto.
Qed.

Lemma C2_witness :
  let self := small_dpt true true in
  let r := output_of (DPTHead.forward (H := approx) self (small_feats 2 6) 2 3 true)
             blank_tensor self in
  let s := DPTHead.scratch self in
  exists layer_1 layer_2 layer_3 layer_4 s0 s1 s2 s3 c4,
    DPTHead.scale_loop (H := approx) self 2 3 0 (small_feats 2 6) [] true
    = Ok [layer_1; layer_2; layer_3; layer_4]
    /\ Conv2d.forward (Scratch.layer1_rn s) layer_1 true = Ok s0
    /\ Conv2d.forward (Scratch.layer2_rn s) layer_2 true = Ok s1
    /\ Conv2d.forward (Scratch.layer3_rn s) layer_3 true = Ok s2
    /\ Scratch.layer4_rn s = Some c4 /\ Conv2d.forward c4 layer_4 true = Ok s3
    /\ exists r1 r2 r3 r4 path_4 path_3 path_2 path_1 r1' r2' r3' r4',
         Scratch.refinenet4 s = Some r4 /\ Scratch.refinenet3 s = Some r3
         /\ Scratch.refinenet2 s = Some r2 /\ Scratch.refinenet1 s = Some r1
         /\ FeatureFusionBlock.forward (H := approx) r4 [s3]
              (Some (skipn 2 (shape s2))) true
            = Ok (path_4, r4')
         /\ FeatureFusionBlock.forward (H := approx) r3 [path_4; s2]
              (Some (skipn 2 (shape s1))) true
            = Ok (path_3, r3')
         /\ FeatureFusionBlock.forward (H := approx) r2 [path_3; s1]
              (Some (skipn 2 (shape s0))) true
            = Ok (path_2, r2')
         /\ FeatureFusionBlock.forward (H := approx) r1 [path_2; s0] None true
            = Ok (path_1, r1')
         /\ Scratch.refinenet4 (DPTHead.scratch (snd r)) = Some r4'
         /\ Scratch.refinenet3 (DPTHead.scratch (snd r)) = Some r3'
         /\ Scratch.refinenet2 (DPTHead.scratch (snd r)) = Some r2'
         /\ Scratch.refinenet1 (DPTHead.scratch (snd r)) = Some r1'.
Proof.
  intros self r.
  assert (is_ok (DPTHead.forward (H := approx) self (small_feats 2 6) 2 3 true)
          = true) as Hok by (vm_compute; reflexivity).
  pose proof (output_of_ok _ blank_tensor self Hok) as Hr. fold r in Hr.
  clearbody r. clearbody self.
  exact (C2_fusion_cascade (math := approx) self (small_feats 2 6) 2 3 true
           (fst r) (snd r) Hr).
Defined.

(** C3. For every input tensor the plain projection head computes its first
    and its second output with the same first perceptron, so the features at
    positions 0 and 1 of the returned list are equal; the third output comes
    from the second perceptron and the fourth from the third, and the fourth
    perceptron is not used. *)
Theorem C3_probe_duplicate_outputs {math : Transcendental} (self : DepthProbeHead.t)
    (llm_feats : Tensor) (g : bool) (features : list (Tensor * option Tensor)) :
  DepthProbeHead.forward self llm_feats g = Ok features ->
  exists a b c,
    features = [(a, None); (a, None); (b, None); (c, None)]
    /\ Sequential.forward (DepthProbeHead.linear_1 self) llm_feats g = Ok a
    /\ Sequential.forward (DepthProbeHead.linear_2 self) llm_feats g = Ok b
    /\ Sequential.forward (DepthProbeHead.linear_3 self) llm_feats g = Ok c
    /\ forall other,
         DepthProbeHead.forward
           (DepthProbeHead.mk (DepthProbeHead.linear_1 self)
              (DepthProbeHead.linear_2 self) (DepthProbeHead.linear_3 self) other)
           llm_feats g
         = Ok features.
Proof.
  intros E. rewrite probe_forward_eq in E.
  apply bind_inv in E as (a & Ea & E). apply bind_inv in E as (b & Eb & E).
  apply bind_inv in E as (c & Ec & E). injection E as <-.
  exists a, b, c. do 4 (split; [first [reflexivity|assumption]|]).
  intros other. rewrite probe_forward_eq. cbn [DepthProbeHead.linear_1
    DepthProbeHead.linear_2 DepthProbeHead.linear_3].
  now rewrite (bind_ok _ _ _ _ Ea), (bind_ok _ _ _ _ Eb), (bind_ok _ _ _ _ Ec).
Qed.

Lemma C3_witness :
  let x := constant [2; 6] fhalf true in
  let features := value_of (DepthProbeHead.forward (H := approx) sample_probe x true) [] in
  exists a b c,
    features = [(a, None); (a, None); (b, None); (c, None)]
    /\ Sequential.forward (H := approx) (DepthProbeHead.linear_1 sample_probe) x true
       = Ok a
    /\ Sequential.forward (H := approx) (DepthProbeHead.linear_2 sample_probe) x true
       = Ok b
    /\ Sequential.forward (H := approx) (DepthProbeHead.linear_3 sample_probe) x true
       = Ok c
    /\ forall other,
         DepthProbeHead.forward (H := approx)
           (DepthProbeHead.mk (DepthProbeHead.linear_1 sample_probe)
              (DepthProbeHead.linear_2 sample_probe)
              (DepthProbeHead.linear_3 sample_probe) other)
           x true
         = Ok features.
Proof.
  intros x features.
  assert (is_ok (DepthProbeHead.forward (H := approx) sample_probe x true) = true)
    as Hok by (vm_compute; reflexivity).
  pose proof (value_of_ok _ [] Hok) as Hr. fold features in Hr.
  clearbody features. clearbody x.
  exact (C3_probe_duplicate_outputs (math := approx) sample_probe x true features Hr).
Defined.

(** C6. The resize target of a feature fusion block.  A call that returns
    resized the fused tensor bilinearly, with the block's corner alignment,
    to the explicit size if one was given, else to the size configured at
    construction if there is one, else by the factor two, and the output has
    exactly that spatial extent.  In particular a block without configured
    size, called on one tensor and no size, returns an output whose spatial
    dimensions are twice the input's, provided the block's output
    convolution has an output channel and the activation of the unit that
    runs is not in-place (an in-place activation writes to the caller's
    tensor, which the library refuses for a leaf that requires grad); the
    blocks that [_make_fusion_block] builds have no configured size, align
    corners and have activations that are not in-place. *)
Theorem C6_fusion_block_resize {math : Transcendental} (f : FeatureFusionBlock.t)
    (features : N) (use_bn expand : bool) (configured : option (list N)) :
  ffb_wf features use_bn expand configured f ->
  (forall xs size g out f',
     FeatureFusionBlock.forward f xs size g = Ok (out, f') ->
     exists x rest fused z b h w,
       xs = x :: rest
       /\ shape fused = [b; features; h; w]
       /\ (fusion_inputs xs x -> shape x = shape fused)
       /\ interpolate fused
            (match size, configured with
             | Some s, _ => Size s
             | None, Some s => Size s
             | None, None => ScaleFactor 2
             end) (FeatureFusionBlock.align_corners f) g = Ok z
       /\ Conv2d.forward (FeatureFusionBlock.out_conv f) z g = Ok out
       /\ skipn 2 (shape out)
          = match size, configured with
            | Some s, _ => s
            | None, Some s => s
            | None, None => [2 * h; 2 * w]
            end)
  /\ (forall x g b h w,
        configured = None ->
        shape x = [b; features; h; w] -> 0 < h -> 0 < w ->
        (use_bn = true -> b * h * w <> 1) ->
        0 < (if expand then features / 2 else features) ->
        Layers.overwrites_input
          (ResidualConvUnit.activation (FeatureFusionBlock.resConfUnit2 f)) = false ->
        exists out f',
          FeatureFusionBlock.forward f [x] None g = Ok (out, f')
          /\ skipn 2 (shape out) = [2 * h; 2 * w])
  /\ (forall gen block gen',
        _make_fusion_block features use_bn None gen = Ok (block, gen') ->
        FeatureFusionBlock.size block = None
        /\ FeatureFusionBlock.align_corners block = true
        /\ Layers.overwrites_input
             (ResidualConvUnit.activation (FeatureFusionBlock.resConfUnit1 block))
           = false
        /\ Layers.overwrites_input
             (ResidualConvUnit.activation (FeatureFusionBlock.resConfUnit2 block))
           = false).
Proof.
  intros Hwf. split; [|split].
  - intros xs size g out f' E.
    destruct (ffb_inv f xs size g features use_bn expand configured out f' Hwf E)
      as (x & rest & fused & z & b & h & w & ho & wo & Hxs & Hf & Ht & Ez & Eo & Ho
          & Hin & _).
    exists x, rest, fused, z, b, h, w.
    split; [exact Hxs|]. split; [exact Hf|]. split; [exact Hin|].
    split; [exact Ez|]. split; [exact Eo|].
    rewrite Ho. cbn. rewrite <- Ht. unfold resize_target_spec.
    now destruct size, configured.
  - intros x g b h w -> Hx Hh Hw Hn Hout Hact.
    destruct (ffb_returns f [x] x None g features use_bn expand None b h w
                (2 * h) (2 * w) Hwf (or_introl eq_refl) Hx) as ([out f'] & E & Ho & _);
      try assumption; try reflexivity; try lia.
    { intros Ein. cbn in Ein. congruence. }
    exists out, f'. split; [exact E|]. cbn in Ho. now rewrite Ho.
  - intros gen block gen' E.
    destruct (_make_fusion_block_inv _ _ _ _ _ E) as (b' & Eb & W & A).
    injection Eb as <-. split; [now destruct W as (_ & _ & _ & _ & S)|].
    split; [exact A|].
    apply FeatureFusionBlock_init_activation in E as [-> ->]. split; reflexivity.
Qed.

Lemma C6_witness :
  let x := constant [2; 4; 3; 5] fone false in
  (* explicit size on a block with a configured size *)
  (let r := output_of (FeatureFusionBlock.forward (H := approx) sized_block [x; x]
                         (Some [11; 13]) true) blank_tensor sized_block in
   skipn 2 (shape (fst r)) = [11; 13])
  (* configured size *)
  /\ (let r := output_of (FeatureFusionBlock.forward (H := approx) sized_block [x]
                            None true) blank_tensor sized_block in
      skipn 2 (shape (fst r)) = [7; 9])
  (* neither: twice the input *)
  /\ (exists out f',
        FeatureFusionBlock.forward (H := approx) (sample_block true) [x] None true
        = Ok (out, f')
        /\ skipn 2 (shape out) = [2 * 3; 2 * 5]).
Proof.
  intros x.
  destruct (C6_fusion_block_resize (math := approx) sized_block 4 true true
              (Some [7; 9]) sized_block_wf) as (Hsized & _ & _).
  destruct (C6_fusion_block_resize (math := approx) (sample_block true) 4 true false
              None (proj1 (sample_block_wf true))) as (_ & Hdouble & _).
  split; [|split].
  - intros r.
    assert (is_ok (FeatureFusionBlock.forward (H := approx) sized_block [x; x]
                     (Some [11; 13]) true) = true) as Hok by (vm_compute; reflexivity).
    pose proof (output_of_ok _ blank_tensor sized_block Hok) as Hr. fold r in Hr.
    clearbody r.
    destruct (Hsized _ _ _ _ _ Hr) as (? & ? & ? & ? & ? & ? & ? & _ & _ & _ & _ & _ & Hs).
    exact Hs.
  - intros r.
    assert (is_ok (FeatureFusionBlock.forward (H := approx) sized_block [x]
                     None true) = true) as Hok by (vm_compute; reflexivity).
    pose proof (output_of_ok _ blank_tensor sized_block Hok) as Hr. fold r in Hr.
    clearbody r.
    destruct (Hsized _ _ _ _ _ Hr) as (? & ? & ? & ? & ? & ? & ? & _ & _ & _ & _ & _ & Hs).
    exact Hs.
  - apply (Hdouble x true 2 3 5); [reflexivity|reflexivity|lia|lia| |lia|].
    + intros _. lia.
    + vm_compute. reflexivity.
Defined.

(** C8. For every configuration with output dimension [d] and every input of
    shape (batch, hidden), the plain projection head returns a list of
    exactly four entries, each a pair of a feature tensor of shape
    (batch, d) and [None]. *)
Theorem C8_probe_output_shapes {math : Transcendental} (self : DepthProbeHead.t)
    (llm_hidden_size output_dim : N) (llm_feats : Tensor) (batch : N) (g : bool) :
  probe_wf llm_hidden_size output_dim self ->
  shape llm_feats = [batch; llm_hidden_size] ->
  exists f0 f1 f2 f3,
    DepthProbeHead.forward self llm_feats g
    = Ok [(f0, None); (f1, None); (f2, None); (f3, None)]
    /\ shape f0 = [batch; output_dim] /\ shape f1 = [batch; output_dim]
    /\ shape f2 = [batch; output_dim] /\ shape f3 = [batch; output_dim].
Proof.
  intros (W1 & W2 & W3 & _) Hx.
  destruct (mlp_returns _ llm_feats g [batch] _ _ W1 Hx) as (a & Ea & Ha).
  destruct (mlp_returns _ llm_feats g [batch] _ _ W2 Hx) as (b & Eb & Hb).
  destruct (mlp_returns _ llm_feats g [batch] _ _ W3 Hx) as (c & Ec & Hc).
  exists a, a, b, c. rewrite probe_forward_eq.
  rewrite (bind_ok _ _ _ _ Ea), (bind_ok _ _ _ _ Eb), (bind_ok _ _ _ _ Ec).
  auto.
Qed.

Lemma C8_witness :
  exists f0 f1 f2 f3,
    DepthProbeHead.forward (H := approx) sample_probe (constant [5; 6] fone false) true
    = Ok [(f0, None); (f1, None); (f2, None); (f3, None)]
    /\ shape f0 = [5; 3] /\ shape f1 = [5; 3]
    /\ shape f2 = [5; 3] /\ shape f3 = [5; 3].
Proof.
  apply (C8_probe_output_shapes (math := approx) sample_probe 6 3
           (constant [5; 6] fone false) 5 true).
  - apply sample_probe_wf.
  - reflexivity.
Defined.

(** C7. The resampler head.  With the intermediate depth enabled it returns
    exactly four (feature, None) entries: the outputs of the three auxiliary
    perceptrons on the resampled features, in order, followed by the
    resampled features themselves; with it disabled it returns exactly one
    entry, the resampled features. *)
Theorem C7_resampler_head_outputs {R : ResamplerModel} {math : Transcendental}
    (self : DepthHead.t) (output_dim : N) (llm_feats visual_feats : Tensor)
    (lead : list N) (g : bool) :
  depth_head_wf output_dim self ->
  Resampler_forward (DepthHead.projector self) llm_feats g = Ok visual_feats ->
  shape visual_feats = lead ++ [output_dim] ->
  if DepthHead.use_intermediate_depth self then
    exists s1 s2 s3 a1 a2 a3,
      DepthHead.linear_1 self = Some s1 /\ DepthHead.linear_2 self = Some s2
      /\ DepthHead.linear_3 self = Some s3
      /\ Sequential.forward s1 visual_feats g = Ok a1
      /\ Sequential.forward s2 visual_feats g = Ok a2
      /\ Sequential.forward s3 visual_feats g = Ok a3
      /\ DepthHead.forward self llm_feats g
         = Ok [(a1, None); (a2, None); (a3, None); (visual_feats, None)]
  else DepthHead.forward self llm_feats g = Ok [(visual_feats, None)].
Proof.
  intros Hwf Ev Hs. unfold depth_head_wf in Hwf. unfold DepthHead.forward.
  rewrite (bind_ok _ _ _ _ Ev).
  destruct (DepthHead.use_intermediate_depth self); [|reflexivity].
  destruct Hwf as (s1 & s2 & s3 & E1 & E2 & E3 & W1 & W2 & W3).
  destruct (append_aux_returns [] _ s1 visual_feats g lead output_dim E1 W1 Hs)
    as (l1 & El1 & a1 & -> & Ea1 & _).
  destruct (append_aux_returns ([] ++ [(a1, None)]) _ s2 visual_feats g lead
              output_dim E2 W2 Hs) as (l2 & El2 & a2 & -> & Ea2 & _).
  destruct (append_aux_returns (([] ++ [(a1, None)]) ++ [(a2, None)]) _ s3
              visual_feats g lead output_dim E3 W3 Hs)
    as (l3 & El3 & a3 & -> & Ea3 & _).
  exists s1, s2, s3, a1, a2, a3. do 6 (split; [assumption|]).
  unfold bind at 1. unfold bind at 1. rewrite El1.
  unfold bind at 1. rewrite El2. rewrite El3. reflexivity.
Qed.

Lemma C7_witness :
  let x := constant [2; 7; 6] fhalf false in
  let v := value_of (pooling_forward
                       (@DepthHead.projector pooling_resampler (sample_depth_head true))
                       x true) blank_tensor in
  let v' := value_of (pooling_forward
                        (@DepthHead.projector pooling_resampler (sample_depth_head false))
                        x true) blank_tensor in
  (exists s1 s2 s3 a1 a2 a3,
     @DepthHead.linear_1 pooling_resampler (sample_depth_head true) = Some s1
     /\ @DepthHead.linear_2 pooling_resampler (sample_depth_head true) = Some s2
     /\ @DepthHead.linear_3 pooling_resampler (sample_depth_head true) = Some s3
     /\ Sequential.forward (H := approx) s1 v true = Ok a1
     /\ Sequential.forward (H := approx) s2 v true = Ok a2
     /\ Sequential.forward (H := approx) s3 v true = Ok a3
     /\ @DepthHead.forward pooling_resampler approx (sample_depth_head true) x true
        = Ok [(a1, None); (a2, None); (a3, None); (v, None)])
  /\ @DepthHead.forward pooling_resampler approx (sample_depth_head false) x true
     = Ok [(v', None)].
Proof.
  intros x v v'.
  assert (is_ok (pooling_forward
                   (@DepthHead.projector pooling_resampler (sample_depth_head true))
                   x true) = true) as Hok by (vm_compute; reflexivity).
  assert (is_ok (pooling_forward
                   (@DepthHead.projector pooling_resampler (sample_depth_head false))
                   x true) = true) as Hok' by (vm_compute; reflexivity).
  assert (shape v = [2; 5] ++ [3]) as Hs by (vm_compute; reflexivity).
  assert (shape v' = [2; 5] ++ [3]) as Hs' by (vm_compute; reflexivity).
  pose proof (value_of_ok _ blank_tensor Hok) as Hv. fold v in Hv.
  pose proof (value_of_ok _ blank_tensor Hok') as Hv'. fold v' in Hv'.
  clearbody v v'. clearbody x.
  destruct (sample_depth_head_wf true) as [W U].
  destruct (sample_depth_head_wf false) as [W' U'].
  pose proof (C7_resampler_head_outputs (R := pooling_resampler) (math := approx)
                (sample_depth_head true) 3 x v [2; 5] true W Hv Hs) as H.
  pose proof (C7_resampler_head_outputs (R := pooling_resampler) (math := approx)
                (sample_depth_head false) 3 x v' [2; 5] true W' Hv' Hs') as H'.
  rewrite U in H. rewrite U' in H'. exact (conj H H').
Defined.



(** * Further properties of the module *)

(** ** Constructors return *)

Lemma ibind_ok {A B} (m : Init A) (k : A -> Init B) gen a gen1 :
  m gen = Ok (a, gen1) -> ibind m k gen = k a gen1.
Proof. intros E. unfold ibind. now rewrite E. Qed.

Lemma ibind_raise {A B} (m : Init A) (k : A -> Init B) gen e :
  m gen = Raise e -> ibind m k gen = Raise e.
Proof. intros E. unfold ibind. now rewrite E. Qed.

(** A construction whose steps return from every generator returns from
    every generator. *)
Lemma total_ibind {A B} (m : Init A) (k : A -> Init B) :
  (forall gen, is_ok (m gen) = true) ->
  (forall a gen, is_ok (k a gen) = true) ->
  forall gen, is_ok (ibind m k gen) = true.
Proof.
  intros Hm Hk gen. unfold ibind. specialize (Hm gen).
  destruct (m gen) as [[a g1]|e]; [apply Hk|discriminate].
Qed.

Lemma is_ok_inv {A} (r : result A) : is_ok r = true -> exists a, r = Ok a.
Proof. destruct r; [eauto|discriminate]. Qed.

Lemma total_fresh_param s gen : is_ok (fresh_param s gen) = true.
Proof. reflexivity. Qed.

Lemma total_Conv2d_init i o k s p b gen : is_ok (Conv2d.init i o k s p b gen) = true.
Proof. unfold Conv2d.init. destruct b; reflexivity. Qed.

Lemma total_ConvTranspose2d_init i o k s p gen :
  is_ok (ConvTranspose2d.init i o k s p gen) = true.
Proof. reflexivity. Qed.

Lemma total_Linear_init i o gen : is_ok (Linear.init i o gen) = true.
Proof. reflexivity. Qed.

Lemma total_build_mlp i h gen : is_ok (build_mlp i h gen) = true.
Proof. reflexivity. Qed.

Lemma total_rcu_init features activation bn gen :
  is_ok (ResidualConvUnit.init features activation bn gen) = true.
Proof. destruct bn; reflexivity. Qed.

Lemma total_ffb_init features activation deconv bn expand align size gen :
  is_ok (FeatureFusionBlock.init features activation deconv bn expand align size gen)
  = true.
Proof. destruct bn; reflexivity. Qed.

Lemma total_imapM {A B} (f : A -> Init B) :
  (forall a gen, is_ok (f a gen) = true) ->
  forall l gen, is_ok (imapM f l gen) = true.
Proof.
  intros Hf. induction l as [|a l IH]; intros gen; [reflexivity|].
  cbn [imapM]. apply total_ibind; [apply Hf|]. intros b g1.
  apply total_ibind; [apply IH|]. reflexivity.
Qed.

Lemma total_getitem {A} (l : list A) i gen :
  (i < length l)%nat -> is_ok (getitem l i gen) = true.
Proof.
  intros Hi. unfold getitem.
  destruct (lookup_lt_is_Some_2 l i Hi) as [a ->]. reflexivity.
Qed.

Lemma getitem_raises {A} (l : list A) i gen :
  (length l <= i)%nat -> getitem l i gen = Raise IndexError.
Proof.
  intros Hi. unfold getitem. now rewrite (lookup_ge_None_2 l i Hi).
Qed.

Lemma total_make_scratch in_shape out_shape expand gen :
  (3 <= length in_shape)%nat ->
  is_ok (_make_scratch in_shape out_shape expand gen) = true.
Proof.
  intros Hl. unfold _make_scratch.
  apply total_ibind; [intros; apply total_getitem; lia|]. intros ? ?.
  apply total_ibind; [intros; apply total_Conv2d_init|]. intros ? ?.
  apply total_ibind; [intros; apply total_getitem; lia|]. intros ? ?.
  apply total_ibind; [intros; apply total_Conv2d_init|]. intros ? ?.
  apply total_ibind; [intros; apply total_getitem; lia|]. intros ? ?.
  apply total_ibind; [intros; apply total_Conv2d_init|]. intros ? ?.
  apply total_ibind; [|reflexivity].
  intros g. destruct (Nat.leb 4 (length in_shape)) eqn:E4; [|reflexivity].
  apply Nat.leb_le in E4.
  apply total_ibind; [intros; apply total_getitem; lia|]. intros ? ?.
  apply total_ibind; [intros; apply total_Conv2d_init|]. reflexivity.
Qed.

Lemma total_DPTHead_init in_channels features use_bn out_channels use_clstoken gen :
  (4 <= length out_channels)%nat ->
  is_ok (DPTHead.init in_channels features use_bn out_channels use_clstoken gen)
  = true.
Proof.
  intros Hl. unfold DPTHead.init.
  apply total_ibind; [apply total_imapM; intros; apply total_Conv2d_init|].
  intros projects ?.
  apply total_ibind; [intros; apply total_getitem; lia|]. intros ? ?.
  apply total_ibind; [intros; apply total_ConvTranspose2d_init|]. intros ? ?.
  apply total_ibind; [intros; apply total_getitem; lia|]. intros ? ?.
  apply total_ibind; [intros; apply total_ConvTranspose2d_init|]. intros ? ?.
  apply total_ibind; [intros; apply total_getitem; lia|]. intros ? ?.
  apply total_ibind; [intros; apply total_Conv2d_init|]. intros ? ?.
  apply total_ibind.
  { intros g. destruct use_clstoken; [|reflexivity].
    apply total_ibind; [|reflexivity]. apply total_imapM. reflexivity. }
  intros ? ?.
  apply total_ibind; [intros; apply total_make_scratch; lia|]. intros ? ?.
  unfold _make_fusion_block.
  do 4 (apply total_ibind; [intros; apply total_ffb_init|]; intros ? ?).
  do 3 (apply total_ibind; [intros; apply total_Conv2d_init|]; intros ? ?).
  reflexivity.
Qed.

Lemma embd_dims_known (encoder : string) :
  In encoder known_encoders ->
  (<["vits" := 1024]> (<["vitb" := 1024]> (<["vitl" := 1024]>
     (<["vitg" := 1024]> (∅ : gmap string N))))) !! encoder = Some 1024.
Proof.
  intros [<-|[<-|[<-|[<-|[]]]]]; vm_compute; reflexivity.
Qed.

Lemma embd_dims_unknown (encoder : string) :
  ~ In encoder known_encoders ->
  (<["vits" := 1024]> (<["vitb" := 1024]> (<["vitl" := 1024]>
     (<["vitg" := 1024]> (∅ : gmap string N))))) !! encoder = None.
Proof.
  intros Hn. cbn in Hn.
  rewrite !lookup_insert_ne by (intros E; tauto). apply lookup_empty.
Qed.

Lemma config_get_some (d : gmap string N) key gen :
  config_get (Some d) key gen
  = match d !! key with Some v => Ok (v, gen) | None => Raise KeyError end.
Proof. unfold config_get. now destruct (d !! key). Qed.

(** X1. [_make_scratch] on a channel list of at least three entries returns
    the alignment convolutions, 3x3 with padding one and no bias, from the
    listed widths to the output width (doubled, quadrupled and multiplied by
    eight from the second scale on when [expand] is set); the fourth
    convolution exists exactly when the list has a fourth entry, and no
    other attribute is assigned yet.  On a shorter list it raises
    IndexError. *)
Theorem X1_make_scratch_layers (in_shape : list N) (out_shape : N) (expand : bool)
    (gen : Generator) :
  match in_shape with
  | i0 :: i1 :: i2 :: rest =>
      exists s gen',
        _make_scratch in_shape out_shape expand gen = Ok (s, gen')
        /\ conv_is (Scratch.layer1_rn s) i0 out_shape 3 1 1
        /\ conv_is (Scratch.layer2_rn s) i1
             (if expand then out_shape * 2 else out_shape) 3 1 1
        /\ conv_is (Scratch.layer3_rn s) i2
             (if expand then out_shape * 4 else out_shape) 3 1 1
        /\ Conv2d.bias (Scratch.layer1_rn s) = None
        /\ Conv2d.bias (Scratch.layer2_rn s) = None
        /\ Conv2d.bias (Scratch.layer3_rn s) = None
        /\ match rest with
           | [] => Scratch.layer4_rn s = None
           | i3 :: _ =>
               exists l4, Scratch.layer4_rn s = Some l4
                          /\ conv_is l4 i3
                               (if expand then out_shape * 8 else out_shape) 3 1 1
                          /\ Conv2d.bias l4 = None
           end
        /\ Scratch.refinenet1 s = None /\ Scratch.refinenet2 s = None
        /\ Scratch.refinenet3 s = None /\ Scratch.refinenet4 s = None
        /\ Scratch.output_conv1 s = None /\ Scratch.output_conv2 s = None
  | _ => _make_scratch in_shape out_shape expand gen = Raise IndexError
  end.
Proof.
  destruct in_shape as [|i0 [|i1 [|i2 rest]]]; try reflexivity.
  destruct rest as [|i3 rest].
  - eexists. eexists. split; [reflexivity|]. cbn.
    repeat split; reflexivity.
  - eexists. eexists. split; [reflexivity|]. cbn.
    do 6 (split; [repeat split; reflexivity|]).
    split; [|repeat split; reflexivity].
    eexists. split; [reflexivity|]. repeat split; reflexivity.
Qed.



(** X3. The constructor of the depth head wrapper raises KeyError for an
    encoder name other than vits, vitb, vitl, vitg, before it looks at the
    channel list; for a known name and a channel list shorter than four it
    raises IndexError; otherwise it returns a head whose dense prediction
    head has the embedding width 1024, whichever of the four names was
    given. *)
Theorem X3_DAv2_Head_init_encoder (encoder : string) (features : N)
    (out_channels : list N) (use_bn use_clstoken : bool) (gen : Generator) :
  (~ In encoder known_encoders ->
   DAv2_Head.init encoder features out_channels use_bn use_clstoken gen
   = Raise KeyError)
  /\ (In encoder known_encoders -> (length out_channels < 4)%nat ->
      DAv2_Head.init encoder features out_channels use_bn use_clstoken gen
      = Raise IndexError)
  /\ (In encoder known_encoders -> (4 <= length out_channels)%nat ->
      exists m gen',
        DAv2_Head.init encoder features out_channels use_bn use_clstoken gen
        = Ok (m, gen')
        /\ dpt_wf 1024 features use_bn out_channels use_clstoken
             (DAv2_Head.depth_head m)).
Proof.
  split; [|split].
  - intros Hn. unfold DAv2_Head.init. cbv zeta.
    now rewrite (embd_dims_unknown encoder Hn).
  - intros Hk Hl. unfold DAv2_Head.init. cbv zeta.
    rewrite (embd_dims_known encoder Hk).
    rewrite (ibind_ok _ _ gen 1024 gen eq_refl).
    apply ibind_raise.
    destruct out_channels as [|a [|b [|c [|d rest]]]]; try reflexivity.
    cbn in Hl. lia.
  - intros Hk Hl. unfold DAv2_Head.init. cbv zeta.
    rewrite (embd_dims_known encoder Hk).
    rewrite (ibind_ok _ _ gen 1024 gen eq_refl).
    destruct (is_ok_inv _ (total_DPTHead_init 1024 features use_bn out_channels
                             use_clstoken gen Hl)) as ([m gen'] & E).
    rewrite (ibind_ok _ _ _ _ _ E). eexists. eexists. split; [reflexivity|].
    cbn. exact (DPTHead_init_inv _ _ _ _ _ _ _ _ E).
Qed.

Lemma X3_witness :
  DAv2_Head.init "vith" 256 [256; 512; 1024; 1024] false false gen0 = Raise KeyError
  /\ DAv2_Head.init "vits" 256 [256; 512; 1024] false false gen0 = Raise IndexError
  /\ exists m gen',
       DAv2_Head.init "vits" 64 [48; 96; 192; 384] false false gen0 = Ok (m, gen')
       /\ dpt_wf 1024 64 false [48; 96; 192; 384] false (DAv2_Head.depth_head m).
Proof.
  split; [|split].
  - apply (X3_DAv2_Head_init_encoder "vith" 256 [256; 512; 1024; 1024] false false gen0).
    cbn. intros [H|[H|[H|[H|[]]]]]; discriminate.
  - apply (X3_DAv2_Head_init_encoder "vits" 256 [256; 512; 1024] false false gen0).
    + cbn. auto.
    + cbn. lia.
  - apply (X3_DAv2_Head_init_encoder "vits" 64 [48; 96; 192; 384] false false gen0).
    + cbn. auto.
    + cbn. lia.
Defined.

(** X4. The constructor of the plain projection head raises TypeError when
    no configuration is given (the default), KeyError when the configuration
    has no "output_dim", and otherwise returns a head whose four perceptrons
    map the hidden width to that dimension; it reads no other key. *)
Theorem X4_DepthProbeHead_init_config (llm_hidden_size : N) (gen : Generator) :
  DepthProbeHead.init llm_hidden_size None gen = Raise TypeError
  /\ (forall d : gmap string N,
        d !! "output_dim" = None ->
        DepthProbeHead.init llm_hidden_size (Some d) gen = Raise KeyError)
  /\ (forall (d : gmap string N) output_dim,
        d !! "output_dim" = Some output_dim ->
        exists m gen',
          DepthProbeHead.init llm_hidden_size (Some d) gen = Ok (m, gen')
          /\ probe_wf llm_hidden_size output_dim m).
Proof.
  split; [reflexivity|]. split.
  - intros d Hd. unfold DepthProbeHead.init, ibind. now rewrite config_get_some, Hd.
  - intros d od Hd.
    assert (is_ok (DepthProbeHead.init llm_hidden_size (Some d) gen) = true) as Hok.
    { unfold DepthProbeHead.init.
      do 4 (apply total_ibind;
            [intros g; rewrite config_get_some, Hd; reflexivity|]; intros ? ?;
            apply total_ibind; [intros; apply total_build_mlp|]; intros ? ?).
      reflexivity. }
    destruct (is_ok_inv _ Hok) as ([m gen'] & E). exists m, gen'.
    split; [exact E|].
    destruct (DepthProbeHead_init_inv _ _ _ _ _ E) as (d' & od' & Hd' & Ho & W).
    injection Hd' as <-. rewrite Hd in Ho. now injection Ho as <-.
Qed.

Lemma X4_witness :
  DepthProbeHead.init 6 (Some (<["depth" := 2]> ∅)) gen0 = Raise KeyError
  /\ exists m gen',
       DepthProbeHead.init 6 (Some (<["output_dim" := 3]> ∅)) gen0 = Ok (m, gen')
       /\ probe_wf 6 3 m.
Proof.
  destruct (X4_DepthProbeHead_init_config 6 gen0) as (_ & Hmissing & Hpresent).
  split.
  - apply Hmissing. vm_compute. reflexivity.
  - apply Hpresent. vm_compute. reflexivity.
Defined.

Lemma config_step {B} (d : gmap string N) key v (k : N -> Init B) gen :
  d !! key = Some v -> ibind (config_get (Some d) key) k gen = k v gen.
Proof. intros E. unfold ibind. now rewrite config_get_some, E. Qed.

Lemma config_fail {B} (d : gmap string N) key (k : N -> Init B) gen :
  d !! key = None -> ibind (config_get (Some d) key) k gen = Raise KeyError.
Proof. intros E. unfold ibind. now rewrite config_get_some, E. Qed.

(** X5. The constructor of the resampler head raises TypeError without a
    configuration and KeyError when the configuration lacks any one of the
    six keys it reads; when it returns, the flag of the head is the
    constructor argument and the three auxiliary perceptrons exist exactly
    when the flag is set. *)
Theorem X5_DepthHead_init_config {R : ResamplerModel} (llm_hidden_size : N)
    (use_intermediate_depth : bool) (gen : Generator) :
  DepthHead.init llm_hidden_size None use_intermediate_depth gen = Raise TypeError
  /\ (forall (d : gmap string N) key,
        In key resampler_keys -> d !! key = None ->
        DepthHead.init llm_hidden_size (Some d) use_intermediate_depth gen
        = Raise KeyError)
  /\ (forall (d : gmap string N) m gen',
        DepthHead.init llm_hidden_size (Some d) use_intermediate_depth gen
        = Ok (m, gen') ->
        DepthHead.use_intermediate_depth m = use_intermediate_depth
        /\ (forall key, In key resampler_keys -> is_Some (d !! key))
        /\ (exists output_dim, d !! "output_dim" = Some output_dim
                               /\ depth_head_wf output_dim m)
        /\ (use_intermediate_depth = false ->
            DepthHead.linear_1 m = None /\ DepthHead.linear_2 m = None
            /\ DepthHead.linear_3 m = None)).
Proof.
  assert (forall (d : gmap string N) key,
            In key resampler_keys -> d !! key = None ->
            DepthHead.init llm_hidden_size (Some d) use_intermediate_depth gen
            = Raise KeyError) as Hmissing.
  { intros d key Hin Hk. unfold DepthHead.init.
    destruct (d !! "output_dim") as [v1|] eqn:E1;
      [rewrite (config_step _ _ _ _ _ E1)|now rewrite (config_fail _ _ _ _ E1)].
    destruct (d !! "depth") as [v2|] eqn:E2;
      [rewrite (config_step _ _ _ _ _ E2)|now rewrite (config_fail _ _ _ _ E2)].
    destruct (d !! "dim_head") as [v3|] eqn:E3;
      [rewrite (config_step _ _ _ _ _ E3)|now rewrite (config_fail _ _ _ _ E3)].
    destruct (d !! "num_heads") as [v4|] eqn:E4;
      [rewrite (config_step _ _ _ _ _ E4)|now rewrite (config_fail _ _ _ _ E4)].
    destruct (d !! "num_tokens") as [v5|] eqn:E5;
      [rewrite (config_step _ _ _ _ _ E5)|now rewrite (config_fail _ _ _ _ E5)].
    rewrite (config_step _ _ _ _ _ E1).
    destruct (d !! "ff_mult") as [v6|] eqn:E6;
      [rewrite (config_step _ _ _ _ _ E6)|now rewrite (config_fail _ _ _ _ E6)].
    exfalso. cbn in Hin.
    destruct Hin as [<-|[<-|[<-|[<-|[<-|[<-|[]]]]]]]; congruence. }
  split; [reflexivity|]. split; [exact Hmissing|].
  intros d m gen' E.
  destruct (DepthHead_init_inv _ _ _ _ _ _ E) as (Hu & d' & od & Hd & Ho & W).
  injection Hd as <-. split; [exact Hu|]. split.
  { intros key Hin. destruct (d !! key) eqn:Ek; [eauto|].
    rewrite (Hmissing d key Hin Ek) in E. discriminate. }
  split; [now exists od|].
  intros ->. unfold DepthHead.init in E.
  do 8 (apply ibind_inv in E as (? & ? & _ & E)). now injection E as <- _.
Qed.

Lemma X5_witness :
  @DepthHead.init pooling_resampler 6 (Some (delete "num_heads" sample_config)) true
    gen0 = Raise KeyError
  /\ let m := sample_depth_head false in
     @DepthHead.use_intermediate_depth pooling_resampler m = false
     /\ (forall key, In key resampler_keys -> is_Some (sample_config !! key))
     /\ (exists output_dim, sample_config !! "output_dim" = Some output_dim
                            /\ @depth_head_wf pooling_resampler output_dim m)
     /\ (false = false ->
         @DepthHead.linear_1 pooling_resampler m = None
         /\ @DepthHead.linear_2 pooling_resampler m = None
         /\ @DepthHead.linear_3 pooling_resampler m = None).
Proof.
  destruct (X5_DepthHead_init_config (R := pooling_resampler) 6 true gen0)
    as (_ & Hmissing & _).
  destruct (X5_DepthHead_init_config (R := pooling_resampler) 6 false gen0)
    as (_ & _ & Hbuilt).
  split.
  - apply (Hmissing _ "num_heads"); [cbn; auto|]. vm_compute. reflexivity.
  - intros m.
    assert (is_ok (@DepthHead.init pooling_resampler 6 (Some sample_config) false gen0)
            = true) as Hok by (vm_compute; reflexivity).
    pose proof (output_of_ok _ m gen0 Hok) as Hr.
    assert (fst (output_of (@DepthHead.init pooling_resampler 6 (Some sample_config)
                              false gen0) m gen0) = m) as Hm.
    { unfold m, sample_depth_head.
      destruct (DepthHead.init 6 (Some sample_config) false gen0) as [[a b]|];
        [reflexivity|discriminate]. }
    rewrite Hm in Hr. exact (Hbuilt sample_config m _ Hr).
Defined.

(** ** Residual unit, fusion block, convolution block *)

Lemma BatchNorm2d_single_value `{Transcendental} m x g f :
  shape x = [1; f; 1; 1] -> BatchNorm2d.num_features m = f ->
  BatchNorm2d.training m = true ->
  BatchNorm2d.forward m x g = Raise ValueError.
Proof.
  intros Hs Hf Ht. unfold BatchNorm2d.forward.
  rewrite Hs, Hf, N.eqb_refl, Ht. reflexivity.
Qed.

(** X6. A residual convolution unit built for [features] channels, at
    least one, whose activation is not in-place returns a tensor of exactly
    the shape of its input, for every batched input of that many channels and
    non-empty spatial extent; whenever a unit returns, the shapes agree.  A
    unit raises on an input with another channel count; with batch
    normalisation in training mode, on an input that holds a single value
    per channel; with an in-place activation, on a leaf that requires grad
    while the gradient mode is on; and, built for no channel at all, on every
    input. *)
Theorem X6_rcu_shape {math : Transcendental} (r : ResidualConvUnit.t)
    (features : N) (use_bn : bool) :
  rcu_wf features use_bn r ->
  (forall x g b h w,
     shape x = [b; features; h; w] -> 0 < h -> 0 < w ->
     (use_bn = true -> b * h * w <> 1) ->
     0 < features ->
     Layers.overwrites_input (ResidualConvUnit.activation r) = false ->
     exists y r', ResidualConvUnit.forward r x g = Ok (y, r') /\ shape y = shape x)
  /\ (forall x g y r',
        ResidualConvUnit.forward r x g = Ok (y, r') -> shape y = shape x)
  /\ (forall x g b ch h w,
        shape x = [b; ch; h; w] -> ch <> features ->
        raises (ResidualConvUnit.forward r x) g)
  /\ (forall x g m,
        use_bn = true -> ResidualConvUnit.bn1 r = Some m ->
        BatchNorm2d.training m = true ->
        shape x = [1; features; 1; 1] ->
        0 < features ->
        Layers.overwrites_input (ResidualConvUnit.activation r) = false ->
        ResidualConvUnit.forward r x g = Raise ValueError)
  /\ (forall x,
        Layers.overwrites_input (ResidualConvUnit.activation r) = true ->
        requires_grad x = true -> is_leaf x = true ->
        ResidualConvUnit.forward r x true = Raise RuntimeError)
  /\ (features = 0 -> forall x g, raises (ResidualConvUnit.forward r x) g).
Proof.
  intros Hwf.
  assert (Layers.overwrites_input (ResidualConvUnit.activation r) = false ->
          forall g x, activation_accepts (ResidualConvUnit.activation r) g x)
    as Hacc by (intros E g x E'; congruence).
  split; [|split; [|split; [|split; [|split]]]].
  - intros x g b h w Hs Hh Hw Hn Hf Hact.
    destruct (rcu_returns r x g features use_bn b h w Hwf Hs) as ([y r'] & E & Hy & _);
      auto; try lia.
    exists y, r'. split; [exact E|]. cbn in Hy. congruence.
  - intros x g y r' E. now destruct (rcu_inv r x g features use_bn y r' Hwf E).
  - intros x g b ch h w Hs Hc. destruct Hwf as (_ & _ & Hc1 & _ & _ & Ha).
    unfold ResidualConvUnit.forward. apply raises_bind_r. intros a0 E0.
    apply (pointwise_inv _ _ _ _ Ha) in E0. apply raises_bind_l.
    apply (Conv2d_forward_wrong_channels _ a0 g b ch h w); [congruence|].
    destruct Hc1 as (-> & _). exact Hc.
  - intros x g m Hb Hm Ht Hs Hf Hact. destruct Hwf as (Hbn & _ & Hc1 & _ & Hbns & Ha).
    unfold ResidualConvUnit.forward.
    destruct (pointwise_returns _ x g Ha (Hacc Hact g x)) as (a0 & E0 & Ha0 & _).
    rewrite (bind_ok _ _ _ _ E0). rewrite Hs in Ha0.
    destruct (Conv2d_forward_returns _ a0 g 1 1 1 1 1 _ _ _ _ _ Hc1 Ha0
                (conv_out_size_3_1_1 1 ltac:(lia)) (conv_out_size_3_1_1 1 ltac:(lia))
                ltac:(lia) ltac:(lia))
      as (a1 & E1 & Ha1 & _).
    rewrite (bind_ok _ _ _ _ E1). apply bind_raise.
    rewrite Hbn, Hb, Hm. unfold ResidualConvUnit.maybe_bn. apply bind_raise.
    destruct (Hbns Hb) as ((m1 & Em1 & Hf1) & _). rewrite Hm in Em1.
    injection Em1 as <-.
    exact (BatchNorm2d_single_value m a1 g features Ha1 Hf1 Ht).
  - intros x Ho Hg Hl. unfold ResidualConvUnit.forward. apply bind_raise.
    destruct (ResidualConvUnit.activation r) as [| | |inplace| |]; try discriminate.
    cbn in Ho. subst inplace. cbn [Layers.forward]. now apply relu__raises.
  - intros -> x g.
    destruct (ResidualConvUnit.forward r x g) as [[y r']|e] eqn:E; [|now exists e].
    now destruct (rcu_inv r x g 0 use_bn y r' Hwf E) as (_ & _ & _ & Hf & _).
Qed.

Lemma sample_unit_wf : rcu_wf 4 true sample_unit.
Proof. now destruct (sample_block_wf true) as ((_ & _ & W & _) & _). Qed.

Lemma X6_witness :
  (exists y r',
     ResidualConvUnit.forward (H := approx) sample_unit (constant [2; 4; 3; 5] fone false)
       true = Ok (y, r')
     /\ shape y = [2; 4; 3; 5])
  /\ raises (ResidualConvUnit.forward (H := approx) sample_unit
               (constant [2; 3; 3; 5] fone false)) true
  /\ ResidualConvUnit.forward (H := approx) sample_unit (constant [1; 4; 1; 1] fone false)
       true = Raise ValueError.
Proof.
  destruct (X6_rcu_shape (math := approx) sample_unit 4 true sample_unit_wf)
    as (Hret & _ & Hch & Hone & _).
  assert (Layers.overwrites_input (ResidualConvUnit.activation sample_unit) = false)
    as Hact by (vm_compute; reflexivity).
  split; [|split].
  - apply (Hret (constant [2; 4; 3; 5] fone false) true 2 3 5);
      try reflexivity; try lia; exact Hact.
  - apply (Hch (constant [2; 3; 3; 5] fone false) true 2 3 3 5); [reflexivity|lia].
  - destruct (ResidualConvUnit.bn1 sample_unit) as [m|] eqn:Em.
    + apply (Hone _ true m); try reflexivity; try lia; try exact Hact.
      apply (f_equal (fun o => match o with
                               | Some b => BatchNorm2d.training b
                               | None => false
                               end)) in Em.
      rewrite <- Em. vm_compute. reflexivity.
    + vm_compute in Em. discriminate.
Defined.

(** X7. A feature fusion block called on no tensor raises IndexError; called
    on more than two tensors it behaves as on the first alone, the others are
    ignored; and called on one tensor it never runs its first residual unit:
    the unit comes back as it was and the output does not depend on it. *)
Theorem X7_fusion_block_inputs {math : Transcendental} (f : FeatureFusionBlock.t) :
  (forall size g, FeatureFusionBlock.forward f [] size g = Raise IndexError)
  /\ (forall x y z rest size g,
        FeatureFusionBlock.forward f (x :: y :: z :: rest) size g
        = FeatureFusionBlock.forward f [x] size g)
  /\ (forall x size g out f',
        FeatureFusionBlock.forward f [x] size g = Ok (out, f') ->
        FeatureFusionBlock.resConfUnit1 f' = FeatureFusionBlock.resConfUnit1 f
        /\ forall unit1,
             FeatureFusionBlock.forward
               (FeatureFusionBlock.mk (FeatureFusionBlock.deconv f)
                  (FeatureFusionBlock.align_corners f) (FeatureFusionBlock.groups f)
                  (FeatureFusionBlock.expand f) (FeatureFusionBlock.out_conv f)
                  unit1 (FeatureFusionBlock.resConfUnit2 f)
                  (FeatureFusionBlock.size f)) [x] size g
             = Ok (out,
                   FeatureFusionBlock.mk (FeatureFusionBlock.deconv f')
                     (FeatureFusionBlock.align_corners f')
                     (FeatureFusionBlock.groups f') (FeatureFusionBlock.expand f')
                     (FeatureFusionBlock.out_conv f') unit1
                     (FeatureFusionBlock.resConfUnit2 f')
                     (FeatureFusionBlock.size f'))).
Proof.
  split; [reflexivity|]. split; [reflexivity|].
  intros x size g out f' E. unfold FeatureFusionBlock.forward in E.
  apply bind_inv in E as ([o u1] & E1 & E). injection E1 as <- <-.
  apply bind_inv in E as ([o2 u2] & E2 & E).
  apply bind_inv in E as (z & Ez & E). apply bind_inv in E as (o3 & Eo & E).
  injection E as <- <-. split; [reflexivity|].
  intros unit1. unfold FeatureFusionBlock.forward.
  cbn [FeatureFusionBlock.resConfUnit1 FeatureFusionBlock.resConfUnit2
       FeatureFusionBlock.size FeatureFusionBlock.align_corners
       FeatureFusionBlock.out_conv FeatureFusionBlock.deconv
       FeatureFusionBlock.groups FeatureFusionBlock.expand].
  rewrite (bind_ok _ _ g (x, unit1) eq_refl).
  rewrite (bind_ok _ _ _ _ E2), (bind_ok _ _ _ _ Ez), (bind_ok _ _ _ _ Eo).
  reflexivity.
Qed.

Lemma X7_witness :
  let x := constant [2; 4; 3; 5] fone false in
  let f := sample_block false in
  let r := output_of (FeatureFusionBlock.forward (H := approx) f [x] None true)
             blank_tensor f in
  FeatureFusionBlock.resConfUnit1 (snd r) = FeatureFusionBlock.resConfUnit1 f
  /\ forall unit1,
       FeatureFusionBlock.forward (H := approx)
         (FeatureFusionBlock.mk (FeatureFusionBlock.deconv f)
            (FeatureFusionBlock.align_corners f) (FeatureFusionBlock.groups f)
            (FeatureFusionBlock.expand f) (FeatureFusionBlock.out_conv f)
            unit1 (FeatureFusionBlock.resConfUnit2 f)
            (FeatureFusionBlock.size f)) [x] None true
       = Ok (fst r,
             FeatureFusionBlock.mk (FeatureFusionBlock.deconv (snd r))
               (FeatureFusionBlock.align_corners (snd r))
               (FeatureFusionBlock.groups (snd r)) (FeatureFusionBlock.expand (snd r))
               (FeatureFusionBlock.out_conv (snd r)) unit1
               (FeatureFusionBlock.resConfUnit2 (snd r))
               (FeatureFusionBlock.size (snd r))).
Proof.
  intros x f r.
  assert (is_ok (FeatureFusionBlock.forward (H := approx) f [x] None true) = true)
    as Hok by (vm_compute; reflexivity).
  pose proof (output_of_ok _ blank_tensor f Hok) as Hr. fold r in Hr.
  clearbody r. clearbody f. clearbody x.
  destruct (X7_fusion_block_inputs (math := approx) f) as (_ & _ & H).
  exact (H x None true (fst r) (snd r) Hr).
Defined.

Lemma BatchNorm2d_forward_spec `{Transcendental} m x g b h w :
  shape x = [b; BatchNorm2d.num_features m; h; w] ->
  (BatchNorm2d.training m = true -> b * h * w <> 1) ->
  exists y m',
    BatchNorm2d.forward m x g = Ok (y, m')
    /\ shape y = shape x
    /\ bn_same_params m m'
    /\ (BatchNorm2d.training m = false -> m' = m)
    /\ (BatchNorm2d.training m = true ->
        BatchNorm2d.num_batches_tracked m'
        = BatchNorm2d.num_batches_tracked m + 1).
Proof.
  intros Hs Hn.
  assert (is_ok (BatchNorm2d.forward m x g) = true) as Hok.
  { unfold BatchNorm2d.forward. rewrite Hs, N.eqb_refl. cbn.
    destruct (BatchNorm2d.training m); [|reflexivity].
    specialize (Hn eq_refl). apply N.eqb_neq in Hn. now rewrite Hn. }
  destruct (is_ok_inv _ Hok) as ([y m'] & E). exists y, m'.
  split; [exact E|]. exact (BatchNorm2d_forward_inv _ _ _ _ _ E).
Qed.

Lemma ConvBlock_init_inv i o gen c gen' :
  ConvBlock.init i o gen = Ok (c, gen') -> conv_block_wf i o c.
Proof.
  unfold ConvBlock.init. intros E.
  apply ibind_inv in E as (cv & g1 & Ec & E). apply Conv2d_init_inv in Ec.
  apply ibind_inv in E as (bn & g2 & Eb & E). injection Eb as <- _.
  injection E as <- _. repeat split; try reflexivity; apply Ec.
Qed.

(** X8. A convolution block (3x3 convolution with padding one, batch
    normalisation, in-place rectifier) with at least one input and one output
    channel maps a batched input of [in_feature] channels to an output of the
    same batch and spatial extent with [out_feature] channels and no value
    below zero.  In evaluation mode the block is unchanged; in training mode
    the convolution is unchanged and the batch counter of the normalisation
    advances by one, and the block raises on an input with a single value per
    channel.  A block with no output channel raises on every input. *)
Theorem X8_conv_block {math : Transcendental} (c : ConvBlock.t)
    (in_feature out_feature : N) :
  conv_block_wf in_feature out_feature c ->
  (forall x g b h w,
     0 < in_feature -> 0 < out_feature ->
     shape x = [b; in_feature; h; w] -> 0 < h -> 0 < w ->
     (BatchNorm2d.training (ConvBlock.norm c) = true -> b * h * w <> 1) ->
     exists y c',
       ConvBlock.forward c x g = Ok (y, c')
       /\ shape y = [b; out_feature; h; w]
       /\ (forall idx, fltb (data y idx) fzero = false)
       /\ ConvBlock.conv c' = ConvBlock.conv c
       /\ (BatchNorm2d.training (ConvBlock.norm c) = false -> c' = c)
       /\ (BatchNorm2d.training (ConvBlock.norm c) = true ->
           BatchNorm2d.num_batches_tracked (ConvBlock.norm c')
           = BatchNorm2d.num_batches_tracked (ConvBlock.norm c) + 1))
  /\ (forall x g,
        0 < in_feature -> 0 < out_feature ->
        shape x = [1; in_feature; 1; 1] ->
        BatchNorm2d.training (ConvBlock.norm c) = true ->
        ConvBlock.forward c x g = Raise ValueError)
  /\ (out_feature = 0 -> forall x g, raises (ConvBlock.forward c x) g).
Proof.
  intros (Hc & Hf & Ha). split; [|split].
  - intros x g b h w Hi Ho Hs Hh Hw Hn. unfold ConvBlock.forward.
    destruct (Conv2d_forward_returns _ x g b h w h w _ _ _ _ _ Hc Hs
                (conv_out_size_3_1_1 h ltac:(lia)) (conv_out_size_3_1_1 w ltac:(lia))
                ltac:(lia) ltac:(lia))
      as (y1 & E1 & Hy1 & _).
    rewrite (bind_ok _ _ _ _ E1).
    destruct (BatchNorm2d_forward_spec (ConvBlock.norm c) y1 g b h w)
      as (y2 & n' & E2 & Hy2 & Hp & Hev & Htr); [now rewrite Hf| exact Hn |].
    rewrite (bind_ok _ _ _ _ E2). rewrite Ha. cbn [Layers.forward].
    rewrite (bind_ok _ _ _ _
               (relu__returns y2 g (BatchNorm2d_forward_writable _ _ _ _ _ g E2))).
    eexists. eexists. split; [reflexivity|]. cbn.
    split; [congruence|]. split; [intros idx; apply relu_F_not_negative|].
    split; [reflexivity|]. split; [|exact Htr].
    intros Et. rewrite (Hev Et), <- Ha. now destruct c.
  - intros x g Hi Ho Hs Ht. unfold ConvBlock.forward.
    destruct (Conv2d_forward_returns _ x g 1 1 1 1 1 _ _ _ _ _ Hc Hs
                (conv_out_size_3_1_1 1 ltac:(lia)) (conv_out_size_3_1_1 1 ltac:(lia))
                ltac:(lia) ltac:(lia))
      as (y1 & E1 & Hy1 & _).
    rewrite (bind_ok _ _ _ _ E1). apply bind_raise.
    exact (BatchNorm2d_single_value _ y1 g out_feature Hy1 Hf Ht).
  - intros -> x g. unfold ConvBlock.forward. apply raises_bind_l.
    apply Conv2d_forward_no_output. now destruct Hc as (_ & -> & _).
Qed.

Lemma sample_conv_block_wf : conv_block_wf 3 5 sample_conv_block.
Proof.
  unfold sample_conv_block.
  destruct (ConvBlock.init 3 5 gen0) as [[c g]|e] eqn:E.
  - exact (ConvBlock_init_inv _ _ _ _ _ E).
  - discriminate.
Qed.

Lemma X8_witness :
  (exists y c',
     ConvBlock.forward (H := approx) sample_conv_block (constant [2; 3; 4; 6] (SFopp fone) false)
       true = Ok (y, c')
     /\ shape y = [2; 5; 4; 6]
     /\ (forall idx, fltb (data y idx) fzero = false)
     /\ BatchNorm2d.num_batches_tracked (ConvBlock.norm c') = 0 + 1)
  /\ ConvBlock.forward (H := approx) sample_conv_block (constant [1; 3; 1; 1] fone false)
       true = Raise ValueError.
Proof.
  destruct (X8_conv_block (math := approx) sample_conv_block 3 5 sample_conv_block_wf)
    as (Hret & Hone & _).
  split.
  - destruct (Hret (constant [2; 3; 4; 6] (SFopp fone) false) true 2 4 6)
      as (y & c' & E & Hs & Hpos & _ & _ & Hn); try reflexivity; try lia.
    exists y, c'. split; [exact E|]. split; [exact Hs|]. split; [exact Hpos|].
    apply Hn. reflexivity.
  - apply Hone; try reflexivity; lia.
Defined.

Lemma Linear_forward_raises l x g i o :
  linear_is l i o -> (forall lead, shape x <> lead ++ [i]) ->
  Linear.forward l x g = Raise RuntimeError.
Proof.
  intros (<- & _) Hn. unfold Linear.forward.
  destruct (rev (shape x)) as [|d lead] eqn:Hr; [reflexivity|].
  destruct (d =? Linear.in_features l) eqn:Ed; [|reflexivity].
  apply N.eqb_eq in Ed. subst d. exfalso. apply (Hn (rev lead)).
  rewrite <- (rev_involutive (shape x)), Hr. reflexivity.
Qed.

Lemma mlp_raises `{Transcendental} s x g i h :
  mlp_is s i h -> (forall lead, shape x <> lead ++ [i]) ->
  Sequential.forward s x g = Raise RuntimeError.
Proof.
  intros (l1 & l2 & -> & H1 & _) Hn. cbn.
  apply bind_raise. exact (Linear_forward_raises l1 x g i h H1 Hn).
Qed.

Lemma build_expand_mlp_inv i h o gen s gen' :
  build_expand_mlp i h o gen = Ok (s, gen') -> expand_mlp_is s i h o.
Proof.
  unfold build_expand_mlp. intros E.
  apply ibind_inv in E as (l1 & g1 & E1 & E).
  apply ibind_inv in E as (l2 & g2 & E2 & E).
  apply ibind_inv in E as (l3 & g3 & E3 & E). injection E as <- _.
  exists l1, l2, l3. split; [reflexivity|].
  split; [exact (Linear_init_inv _ _ _ _ _ E1)|].
  split; [exact (Linear_init_inv _ _ _ _ _ E2)|exact (Linear_init_inv _ _ _ _ _ E3)].
Qed.

(** X9. [build_expand_mlp(in, hidden, out)] always returns; the perceptron
    it builds maps a tensor whose last dimension is [in] to one with the same
    leading dimensions and last dimension [out], through the width [hidden],
    and raises RuntimeError on any other input. *)
Theorem X9_build_expand_mlp {math : Transcendental}
    (in_hidden_size hidden_size out_size : N) (gen : Generator) :
  exists s gen',
    build_expand_mlp in_hidden_size hidden_size out_size gen = Ok (s, gen')
    /\ (forall x g lead,
          shape x = lead ++ [in_hidden_size] ->
          exists y, Sequential.forward s x g = Ok y
                    /\ shape y = lead ++ [out_size])
    /\ (forall x g,
          (forall lead, shape x <> lead ++ [in_hidden_size]) ->
          Sequential.forward s x g = Raise RuntimeError).
Proof.
  destruct (is_ok_inv (build_expand_mlp in_hidden_size hidden_size out_size gen)
              eq_refl) as ([s gen'] & E).
  exists s, gen'. split; [exact E|].
  destruct (build_expand_mlp_inv _ _ _ _ _ _ E) as (l1 & l2 & l3 & -> & H1 & H2 & H3).
  split.
  - intros x g lead Hs. cbn.
    destruct (Linear_forward_returns l1 x g lead _ _ H1 Hs) as (y1 & E1 & Hy1).
    rewrite (bind_ok _ _ _ _ E1). unfold bind at 1. cbn.
    destruct (Linear_forward_returns l2 (out_of g (shape y1)
                (fun idx => relu_F (data y1 idx)) (requires_grad y1)) g lead _ _ H2 Hy1)
      as (y2 & E2 & Hy2).
    rewrite (bind_ok _ _ _ _ E2). unfold bind at 1. cbn.
    destruct (Linear_forward_returns l3 (out_of g (shape y2)
                (fun idx => relu_F (data y2 idx)) (requires_grad y2)) g lead _ _ H3 Hy2)
      as (y3 & E3 & Hy3).
    rewrite (bind_ok _ _ _ _ E3). now exists y3.
  - intros x g Hn. cbn. apply bind_raise.
    exact (Linear_forward_raises l1 x g _ _ H1 Hn).
Qed.

Lemma X9_witness :
  exists s gen',
    build_expand_mlp 6 4 3 gen0 = Ok (s, gen')
    /\ (exists y, Sequential.forward (H := approx) s (constant [2; 7; 6] fone false) true
                  = Ok y
                  /\ shape y = [2; 7] ++ [3])
    /\ Sequential.forward (H := approx) s (constant [2; 7; 5] fone false) true
       = Raise RuntimeError.
Proof.
  destruct (X9_build_expand_mlp (math := approx) 6 4 3 gen0)
    as (s & gen' & E & Hret & Hbad).
  exists s, gen'. split; [exact E|]. split.
  - apply (Hret (constant [2; 7; 6] fone false) true [2; 7]). reflexivity.
  - apply Hbad. intros lead Hs. cbn in Hs.
    apply (f_equal (@rev N)) in Hs. rewrite rev_app_distr in Hs. cbn in Hs.
    injection Hs as Hs _. discriminate.
Defined.

(** ** Projection heads *)

Lemma task_append_aux_returns `{TaskTokenResamplerModel} `{Transcendental}
    features linear s v g lead d :
  linear = Some s -> mlp_is s d d -> shape v = lead ++ [d] ->
  returns (TaskTokenDepthHead.append_aux features linear v) g
    (fun l => exists a, l = features ++ [(a, None)]
                        /\ Sequential.forward s v g = Ok a
                        /\ shape a = lead ++ [d]).
Proof.
  intros -> Hs Hv. unfold TaskTokenDepthHead.append_aux. cbn.
  destruct (mlp_returns s v g lead d d Hs Hv) as (a & Ea & Ha).
  unfold returns, bind, ret. cbn. rewrite Ea. exists (features ++ [(a, None)]).
  split; [reflexivity|]. now exists a.
Qed.

(** X10. The task-token head passes the hidden states and the latent task
    tokens to its resampler.  When the resampler raises, the head raises the
    same exception; when it returns features whose last dimension is the
    output dimension, the head returns, with the intermediate depth enabled,
    the outputs of the three auxiliary perceptrons on these features followed
    by the features themselves, each of the shape of the features, and with
    it disabled the features alone; every second component is None. *)
Theorem X10_task_token_head_outputs {R : TaskTokenResamplerModel}
    {math : Transcendental} (self : TaskTokenDepthHead.t) (output_dim : N)
    (llm_feats latents : Tensor) (g : bool) :
  task_head_wf output_dim self ->
  (forall e,
     TaskTokenResampler_forward (TaskTokenDepthHead.projector self) llm_feats latents g
     = Raise e ->
     TaskTokenDepthHead.forward self llm_feats latents g = Raise e)
  /\ (forall visual_feats lead,
        TaskTokenResampler_forward (TaskTokenDepthHead.projector self) llm_feats
          latents g = Ok visual_feats ->
        shape visual_feats = lead ++ [output_dim] ->
        if TaskTokenDepthHead.use_intermediate_depth self then
          exists a1 a2 a3,
            TaskTokenDepthHead.forward self llm_feats latents g
            = Ok [(a1, None); (a2, None); (a3, None); (visual_feats, None)]
            /\ shape a1 = shape visual_feats /\ shape a2 = shape visual_feats
            /\ shape a3 = shape visual_feats
        else TaskTokenDepthHead.forward self llm_feats latents g
             = Ok [(visual_feats, None)]).
Proof.
  intros Hwf. split.
  - intros e Ee. unfold TaskTokenDepthHead.forward. now apply bind_raise.
  - intros v lead Ev Hs. unfold task_head_wf in Hwf.
    unfold TaskTokenDepthHead.forward. rewrite (bind_ok _ _ _ _ Ev).
    destruct (TaskTokenDepthHead.use_intermediate_depth self); [|reflexivity].
    destruct Hwf as (s1 & s2 & s3 & E1 & E2 & E3 & W1 & W2 & W3).
    destruct (task_append_aux_returns [] _ s1 v g lead output_dim E1 W1 Hs)
      as (l1 & El1 & a1 & -> & _ & Ha1).
    destruct (task_append_aux_returns ([] ++ [(a1, None)]) _ s2 v g lead
                output_dim E2 W2 Hs) as (l2 & El2 & a2 & -> & _ & Ha2).
    destruct (task_append_aux_returns (([] ++ [(a1, None)]) ++ [(a2, None)]) _ s3
                v g lead output_dim E3 W3 Hs) as (l3 & El3 & a3 & -> & _ & Ha3).
    exists a1, a2, a3. split; [|repeat split; congruence].
    unfold bind at 1. unfold bind at 1. rewrite El1.
    unfold bind at 1. rewrite El2. rewrite El3. reflexivity.
Qed.

Lemma TaskTokenDepthHead_init_inv `{TaskTokenResamplerModel} proj_config
    llm_hidden_size uid gen m gen' :
  TaskTokenDepthHead.init proj_config llm_hidden_size uid gen = Ok (m, gen') ->
  TaskTokenDepthHead.use_intermediate_depth m = uid
  /\ exists d output_dim,
       proj_config = Some d /\ d !! "output_dim" = Some output_dim
       /\ task_head_wf output_dim m.
Proof.
  intros E. unfold TaskTokenDepthHead.init in E.
  apply ibind_inv in E as (? & ? & E1 & E).
  apply config_get_inv in E1 as (d & Hd & _). subst proj_config.
  do 3 (apply ibind_inv in E as (? & ? & _ & E)).
  apply ibind_inv in E as (dim & ? & Eo & E).
  apply config_get_inv in Eo as (d' & Hd' & H1). injection Hd' as <-.
  apply ibind_inv in E as (? & ? & _ & E).
  apply ibind_inv in E as (proj & g8 & _ & E).
  assert (forall v gg gg', config_get (Some d) "output_dim" gg = Ok (v, gg') -> v = dim)
    as Hget.
  { intros v gg gg' Ev. apply config_get_inv in Ev as (d' & Hd' & Hv).
    injection Hd' as <-. congruence. }
  destruct uid.
  - apply ibind_inv in E as (a1 & ? & Ea1 & E). apply Hget in Ea1 as ->.
    apply ibind_inv in E as (b1 & ? & Eb1 & E). apply Hget in Eb1 as ->.
    apply ibind_inv in E as (s1 & ? & Es1 & E). apply build_mlp_inv in Es1.
    apply ibind_inv in E as (a2 & ? & Ea2 & E). apply Hget in Ea2 as ->.
    apply ibind_inv in E as (b2 & ? & Eb2 & E). apply Hget in Eb2 as ->.
    apply ibind_inv in E as (s2 & ? & Es2 & E). apply build_mlp_inv in Es2.
    apply ibind_inv in E as (a3 & ? & Ea3 & E). apply Hget in Ea3 as ->.
    apply ibind_inv in E as (b3 & ? & Eb3 & E). apply Hget in Eb3 as ->.
    apply ibind_inv in E as (s3 & ? & Es3 & E). apply build_mlp_inv in Es3.
    injection E as <- _. split; [reflexivity|].
    exists d, dim. split; [reflexivity|]. split; [exact H1|].
    unfold task_head_wf. cbn. exists s1, s2, s3. auto 10.
  - injection E as <- _. split; [reflexivity|].
    exists d, dim. split; [reflexivity|]. split; [exact H1|]. exact I.
Qed.

Lemma sample_task_head_wf uid :
  @task_head_wf pooling_task_resampler 3 (sample_task_head uid)
  /\ @TaskTokenDepthHead.use_intermediate_depth pooling_task_resampler
       (sample_task_head uid) = uid.
Proof.
  unfold sample_task_head.
  destruct (TaskTokenDepthHead.init _ _ _ _) as [[m gen]|e] eqn:E.
  - apply TaskTokenDepthHead_init_inv in E as (Hu & d & od & Hd & Ho & W).
    injection Hd as <-. vm_compute in Ho. injection Ho as <-. auto.
  - apply (f_equal is_ok) in E. destruct uid; vm_compute in E; discriminate.
Qed.

Lemma X10_witness :
  let x := constant [2; 7; 6] fhalf false in
  let latents := constant [2; 7; 6] fone false in
  let m := sample_task_head true in
  let v := value_of (@TaskTokenResampler_forward pooling_task_resampler
                       (@TaskTokenDepthHead.projector pooling_task_resampler m)
                       x latents true) blank_tensor in
  exists a1 a2 a3,
    @TaskTokenDepthHead.forward pooling_task_resampler approx m x latents true
    = Ok [(a1, None); (a2, None); (a3, None); (v, None)]
    /\ shape a1 = shape v /\ shape a2 = shape v /\ shape a3 = shape v.
Proof.
  intros x latents m v.
  assert (is_ok (@TaskTokenResampler_forward pooling_task_resampler
                   (@TaskTokenDepthHead.projector pooling_task_resampler m)
                   x latents true) = true) as Hok by (vm_compute; reflexivity).
  assert (shape v = [2; 5] ++ [3]) as Hs by (vm_compute; reflexivity).
  pose proof (value_of_ok _ blank_tensor Hok) as Hv. fold v in Hv.
  clearbody v.
  destruct (sample_task_head_wf true) as [W U]. fold m in W, U.
  clearbody m. clearbody x latents.
  destruct (X10_task_token_head_outputs (R := pooling_task_resampler)
              (math := approx) m 3 x latents true W) as (_ & H).
  specialize (H v [2; 5] Hv Hs). rewrite U in H. exact H.
Defined.

(** X11. The plain projection head accepts exactly the tensors whose last
    dimension is the hidden width: on such a tensor, of any leading
    dimensions (batch alone, or batch and sequence), it returns four features
    with the same leading dimensions and the output dimension last; on any
    other tensor it raises RuntimeError. *)
Theorem X11_probe_accepts_hidden_width {math : Transcendental}
    (self : DepthProbeHead.t) (llm_hidden_size output_dim : N) :
  probe_wf llm_hidden_size output_dim self ->
  (forall x g lead,
     shape x = lead ++ [llm_hidden_size] ->
     exists f0 f1 f2 f3,
       DepthProbeHead.forward self x g
       = Ok [(f0, None); (f1, None); (f2, None); (f3, None)]
       /\ Forall (fun f => shape f = lead ++ [output_dim]) [f0; f1; f2; f3])
  /\ (forall x g,
        (forall lead, shape x <> lead ++ [llm_hidden_size]) ->
        DepthProbeHead.forward self x g = Raise RuntimeError).
Proof.
  intros (W1 & W2 & W3 & _). split.
  - intros x g lead Hx.
    destruct (mlp_returns _ x g lead _ _ W1 Hx) as (a & Ea & Ha).
    destruct (mlp_returns _ x g lead _ _ W2 Hx) as (b & Eb & Hb).
    destruct (mlp_returns _ x g lead _ _ W3 Hx) as (c & Ec & Hc).
    exists a, a, b, c. rewrite probe_forward_eq.
    rewrite (bind_ok _ _ _ _ Ea), (bind_ok _ _ _ _ Eb), (bind_ok _ _ _ _ Ec).
    split; [reflexivity|]. repeat constructor; assumption.
  - intros x g Hn. rewrite probe_forward_eq. apply bind_raise.
    exact (mlp_raises _ x g _ _ W1 Hn).
Qed.

Lemma X11_witness :
  (exists f0 f1 f2 f3,
     DepthProbeHead.forward (H := approx) sample_probe (constant [2; 9; 6] fone true) true
     = Ok [(f0, None); (f1, None); (f2, None); (f3, None)]
     /\ Forall (fun f => shape f = [2; 9] ++ [3]) [f0; f1; f2; f3])
  /\ DepthProbeHead.forward (H := approx) sample_probe (constant [2; 9; 7] fone true) true
     = Raise RuntimeError.
Proof.
  destruct (X11_probe_accepts_hidden_width (math := approx) sample_probe 6 3
              sample_probe_wf) as (Hret & Hbad).
  split.
  - apply (Hret (constant [2; 9; 6] fone true) true [2; 9]). reflexivity.
  - apply Hbad. intros lead Hs. cbn in Hs.
    apply (f_equal (@rev N)) in Hs. rewrite rev_app_distr in Hs. cbn in Hs.
    injection Hs as Hs _. discriminate.
Defined.

(** ** The wrapper *)

Lemma relu_F_id v : fltb v fzero = false -> relu_F v = v.
Proof. intros Hv. unfold relu_F. now rewrite Hv. Qed.

(** X12. For a head of at least two features and positive channel widths,
    the rectifier of the wrapper changes no value: the map of the dense
    prediction head already ends in a rectifier and has no value below zero,
    and the wrapper returns exactly its values, with the channel axis
    dropped. *)
Theorem X12_wrapper_rectifier_is_identity {math : Transcendental} (m : DAv2_Head.t)
    (features : N) (out_channels : list N) (use_bn use_clstoken : bool)
    (feats : list (list Tensor)) (b : N) (g : bool) :
  dav2_wf features out_channels use_bn use_clstoken m ->
  2 <= features ->
  Forall (fun c : N => 0 < c) out_channels ->
  length feats = 4%nat ->
  Forall (entry_ok use_clstoken b (24 * 24) 1024) feats ->
  0 < b ->
  exists out head depth m',
    DPTHead.forward (DAv2_Head.depth_head m) feats 24 24 g = Ok (out, head)
    /\ DAv2_Head.forward m feats g = Ok (depth, m')
    /\ DAv2_Head.depth_head m' = head
    /\ shape out = [b; 1; 336; 336]
    /\ (forall idx, fltb (data out idx) fzero = false)
    /\ forall n i j, data depth [n; i; j] = data out [n; 0; i; j].
Proof.
  intros Hwf Hfeat Hpos Hlen Hall _.
  destruct (list4 feats Hlen) as (x0 & x1 & x2 & x3 & ->).
  destruct (dav2_wf_channels _ _ _ _ _ Hwf) as (oc0 & oc1 & oc2 & oc3 & rest & ->).
  destruct (positive4 _ _ _ _ _ Hpos) as (Hoc0 & Hoc1 & Hoc2 & Hoc3).
  destruct (dpt_forward_returns (DAv2_Head.depth_head m) g 1024 features use_bn
              oc0 oc1 oc2 oc3 rest use_clstoken x0 x1 x2 x3 b 24 24 Hwf Hall)
    as ([out head] & E & Hs & Hnn & _); try assumption; try lia.
  { intros _. change ((24 + 1) / 2) with 12. lia. }
  { now apply half_nonzero. }
  cbn [fst snd] in Hs, Hnn. change (24 * 14) with 336 in Hs.
  exists out, head. unfold DAv2_Head.forward. change (336 / 14) with 24.
  rewrite (bind_ok _ _ _ _ E), (bind_ok _ _ _ _ (relu_ok out g)).
  set (r := out_of g (shape out) _ _).
  rewrite (bind_ok _ _ _ _ (squeeze_channel r g b 336 336 Hs)).
  eexists. eexists. split; [exact E|]. split; [reflexivity|].
  split; [reflexivity|]. split; [exact Hs|]. split; [exact Hnn|].
  intros n i j. cbn. apply relu_F_id, Hnn.
Qed.

Lemma X12_witness :
  exists out head depth m',
    DPTHead.forward (H := approx) (DAv2_Head.depth_head (sample_head true false))
      (sample_feats 2) 24 24 true = Ok (out, head)
    /\ DAv2_Head.forward (H := approx) (sample_head true false) (sample_feats 2) true
       = Ok (depth, m')
    /\ DAv2_Head.depth_head m' = head
    /\ shape out = [2; 1; 336; 336]
    /\ (forall idx, fltb (data out idx) fzero = false)
    /\ forall n i j, data depth [n; i; j] = data out [n; 0; i; j].
Proof.
  apply (X12_wrapper_rectifier_is_identity (math := approx) (sample_head true false)
           256 [256; 512; 1024; 1024] true false (sample_feats 2) 2 true).
  - apply sample_head_wf.
  - lia.
  - repeat constructor.
  - reflexivity.
  - apply sample_feats_ok.
  - lia.
Defined.

Lemma Conv2d_forward_requires_grad c x g y :
  Conv2d.forward c x g = Ok y ->
  requires_grad y
  = g && (requires_grad x || requires_grad (Conv2d.weight c)
          || opt_requires_grad (Conv2d.bias c)).
Proof.
  assert (forall x' y', Conv2d.batched c x' g = Ok y' ->
            requires_grad y'
            = g && (requires_grad x' || requires_grad (Conv2d.weight c)
                    || opt_requires_grad (Conv2d.bias c))) as Hb.
  { intros x' y' E'.
    apply Conv2d_batched_inv in E' as (? & ? & ? & ? & ? & _ & _ & _ & _ & ->).
    reflexivity. }
  unfold Conv2d.forward. intros E.
  destruct (shape x) as [|d0 [|d1 [|d2 [|d3 ?]]]] eqn:Hs; try (now apply Hb).
  apply bind_inv in E as (x1 & E1 & E). apply bind_inv in E as (y1 & Ey & E).
  apply Hb in Ey. unfold unsqueeze in E1.
  destruct (Nat.leb _ _); [|discriminate]. injection E1 as <-.
  unfold squeeze in E. destruct (Nat.ltb _ _); [|discriminate].
  destruct (_ =? 1); injection E as <-; cbn in *; rewrite Ey;
    destruct g; reflexivity.
Qed.

Lemma DPTHead_init_output_conv2 in_channels features use_bn out_channels
    use_clstoken gen m gen' :
  DPTHead.init in_channels features use_bn out_channels use_clstoken gen
  = Ok (m, gen') ->
  exists ca cb,
    Scratch.output_conv2 (DPTHead.scratch m)
    = Some [L_Conv2d ca; L_ReLU true; L_Conv2d cb; L_ReLU true; L_Identity]
    /\ requires_grad (Conv2d.weight cb) = true.
Proof.
  intros E. unfold DPTHead.init in E.
  do 15 (apply ibind_inv in E as (? & ? & _ & E)).
  apply ibind_inv in E as (cb & g16 & Ecb & E). injection E as <- _.
  eexists. exists cb. split; [reflexivity|].
  unfold Conv2d.init in Ecb. cbv [ibind fresh_param iret] in Ecb.
  now injection Ecb as <- _.
Qed.

(** X14. The training-facing forward pass keeps gradient tracking: on a head
    as its constructor builds it, whose parameters are trainable, a forward
    pass in gradient mode returns a depth map that records gradient history,
    whether or not the inputs do; with the gradient mode off the map records
    none. *)
Theorem X14_forward_tracks_gradients {math : Transcendental} (encoder : string)
    (features : N) (out_channels : list N) (use_bn use_clstoken : bool)
    (gen gen' : Generator) (m : DAv2_Head.t) (feats : list (list Tensor)) :
  DAv2_Head.init encoder features out_channels use_bn use_clstoken gen
  = Ok (m, gen') ->
  (forall depth m', DAv2_Head.forward m feats true = Ok (depth, m') ->
                    requires_grad depth = true)
  /\ (forall depth m', DAv2_Head.forward m feats false = Ok (depth, m') ->
                       requires_grad depth = false).
Proof.
  intros Ei. split; [|intros depth m' E; exact (dav2_forward_no_grad _ _ _ _ E)].
  intros depth m' E.
  unfold DAv2_Head.init in Ei.
  apply ibind_inv in Ei as (dim & g1 & _ & Ei).
  apply ibind_inv in Ei as (head & g2 & Eh & Ei). injection Ei as <- _.
  destruct (DPTHead_init_output_conv2 _ _ _ _ _ _ _ _ Eh) as (ca & cb & Eo & Hrg).
  unfold DAv2_Head.forward in E. cbn [DAv2_Head.depth_head] in E.
  apply bind_inv in E as ([out head'] & Ed & E).
  apply dpt_forward_inv in Ed. cbv zeta in Ed.
  destruct Ed as (? & ? & ? & ? & ? & ? & ? & ? & ? & ? & ? & ? & ? & ? & ? & ? & ?
    & ? & ? & ? & ? & oc1 & oc2 & y1 & y2 & _ & _ & _ & _ & _ & _ & _ & _ & _ & _
    & _ & _ & _ & _ & _ & _ & _ & Eoc2 & Eseq & _).
  rewrite Eo in Eoc2. injection Eoc2 as <-. cbn in Eseq.
  apply bind_inv in Eseq as (z1 & _ & Eseq).
  apply bind_inv in Eseq as (z2 & _ & Eseq).
  apply bind_inv in Eseq as (z3 & E3 & Eseq).
  apply Conv2d_forward_requires_grad in E3.
  apply bind_inv in Eseq as (z4 & E4 & Eseq). injection Eseq as <-.
  apply relu__inv in E4 as [_ ->].
  apply bind_inv in E as (r & Er & E). injection Er as <-.
  apply bind_inv in E as (q & Eq & E). injection E as <- _.
  unfold squeeze in Eq. destruct (Nat.ltb _ _); [|discriminate].
  destruct (_ =? 1); injection Eq as <-; cbn; rewrite E3, Hrg;
    cbn; now rewrite orb_true_r.
Qed.

Lemma X14_witness :
  let m := sample_head true false in
  let r := output_of (DAv2_Head.forward (H := approx) m (sample_feats 2) true)
             blank_tensor m in
  let r' := output_of (DAv2_Head.forward (H := approx) m (sample_feats 2) false)
              blank_tensor m in
  requires_grad (fst r) = true /\ requires_grad (fst r') = false.
Proof.
  intros m r r'.
  assert (is_ok (DAv2_Head.init "vitl" 256 [256; 512; 1024; 1024] true false gen0)
          = true) as Hi by (vm_compute; reflexivity).
  pose proof (output_of_ok _ m gen0 Hi) as Ei.
  assert (fst (output_of (DAv2_Head.init "vitl" 256 [256; 512; 1024; 1024] true false
                            gen0) m gen0) = m) as Hm.
  { unfold m, sample_head.
    destruct (DAv2_Head.init "vitl" 256 [256; 512; 1024; 1024] true false gen0)
      as [[a c]|]; [reflexivity|discriminate]. }
  rewrite Hm in Ei.
  assert (is_ok (DAv2_Head.forward (H := approx) m (sample_feats 2) true) = true)
    as Hok by (vm_compute; reflexivity).
  assert (is_ok (DAv2_Head.forward (H := approx) m (sample_feats 2) false) = true)
    as Hok' by (vm_compute; reflexivity).
  pose proof (output_of_ok _ blank_tensor m Hok) as Hr. fold r in Hr.
  pose proof (output_of_ok _ blank_tensor m Hok') as Hr'. fold r' in Hr'.
  clearbody r r'.
  destruct (X14_forward_tracks_gradients (math := approx) "vitl" 256
              [256; 512; 1024; 1024] true false gen0 _ m (sample_feats 2) Ei)
    as (Hon & Hoff).
  split; [exact (Hon _ _ Hr)|exact (Hoff _ _ Hr')].
Defined.

(** ** Scale entries *)

Lemma scale_map_first_component `{Transcendental} self ph pw i (a b : list Tensor) g :
  DPTHead.use_clstoken self = false -> a !! 0%nat = b !! 0%nat ->
  DPTHead.scale_map self ph pw i a g = DPTHead.scale_map self ph pw i b g.
Proof.
  intros Hc Hab. unfold DPTHead.scale_map. rewrite Hc. unfold item at 1 3.
  now rewrite Hab.
Qed.

Lemma scale_loop_first_component `{Transcendental} self ph pw g (xs ys : list (list Tensor)) :
  DPTHead.use_clstoken self = false ->
  Forall2 (fun a b => a !! 0%nat = b !! 0%nat) xs ys ->
  forall i out,
    DPTHead.scale_loop self ph pw i xs out g = DPTHead.scale_loop self ph pw i ys out g.
Proof.
  intros Hc Hall. induction Hall as [|a b xs ys Hab Hall IH]; intros i out.
  - reflexivity.
  - cbn [DPTHead.scale_loop]. unfold bind.
    rewrite (scale_map_first_component self ph pw i a b g Hc Hab).
    destruct (DPTHead.scale_map self ph pw i b g); [apply IH|reflexivity].
Qed.

(** X15. Class tokens.  A head without class-token fusion reads only the
    first component of every scale entry: two inputs whose entries agree on
    that component give the same result, whatever else the entries hold.  A
    head with class-token fusion raises when an entry holds no second
    component. *)
Theorem X15_class_token_use {math : Transcendental} (self : DPTHead.t)
    (patch_h patch_w : N) (g : bool) :
  (DPTHead.use_clstoken self = false ->
   forall xs ys,
     Forall2 (fun a b : list Tensor => a !! 0%nat = b !! 0%nat) xs ys ->
     DPTHead.forward self xs patch_h patch_w g
     = DPTHead.forward self ys patch_h patch_w g)
  /\ (DPTHead.use_clstoken self = true ->
      forall xs (k : nat) x,
        xs !! k = Some x -> x !! 1%nat = None ->
        raises (DPTHead.forward self xs patch_h patch_w) g).
Proof.
  split.
  - intros Hc xs ys Hall. unfold DPTHead.forward, bind.
    now rewrite (scale_loop_first_component self patch_h patch_w g xs ys Hc Hall).
  - intros Hc xs k x Hk Hx. unfold DPTHead.forward. apply raises_bind_l.
    apply (scale_loop_raises self patch_h patch_w g xs 0 [] k x Hk).
    unfold DPTHead.scale_map. rewrite Hc. apply raises_bind_l.
    apply raises_bind_r. intros x0 _. apply raises_bind_l.
    now apply item_raises.
Qed.

Lemma X15_witness :
  DPTHead.forward (H := approx) (small_dpt true false) (small_feats 2 6) 2 3 true
  = DPTHead.forward (H := approx) (small_dpt true false)
      [[constant [2; 6; 8] fone false]; [constant [2; 6; 8] fone false; blank_tensor];
       small_entry 2 6; [constant [2; 6; 8] fone false]] 2 3 true
  /\ raises (DPTHead.forward (H := approx) (small_dpt true true)
               [small_entry 2 6; [constant [2; 6; 8] fone false]; small_entry 2 6;
                small_entry 2 6] 2 3) true.
Proof.
  destruct (X15_class_token_use (math := approx) (small_dpt true false) 2 3 true)
    as (Hsame & _).
  destruct (X15_class_token_use (math := approx) (small_dpt true true) 2 3 true)
    as (_ & Hmissing).
  split.
  - apply Hsame; [reflexivity|]. repeat constructor.
  - apply (Hmissing eq_refl _ 1%nat [constant [2; 6; 8] fone false]); reflexivity.
Defined.

Lemma cat_last_same_inv a b' g y b n c :
  shape a = [b; n; c] -> shape b' = [b; n; c] -> cat_last a b' g = Ok y ->
  shape y = [b; n; c + c].
Proof.
  intros Ha Hb. unfold cat_last. rewrite Ha, Hb. cbn.
  destruct (_ && _); [|discriminate].
  intros E. now injection E as <-.
Qed.

Lemma reshape_inv x sizes g y : reshape x sizes g = Ok y -> shape y = sizes.
Proof.
  unfold reshape. destruct (_ =? _); [|discriminate].
  intros E. now injection E as <-.
Qed.

(** An entry whose embedding width is not the width the head was built for
    fails in the first layer that reads it: the readout projection with a
    class token, the 1x1 projection without one. *)
Lemma scale_map_bad_width `{Transcendental} self g in_channels features use_bn
    ocs cls (i : nat) x x0 b n c ph pw :
  dpt_wf in_channels features use_bn ocs cls self ->
  x !! 0%nat = Some x0 -> shape x0 = [b; n; c] -> c <> in_channels ->
  raises (DPTHead.scale_map self ph pw i x) g.
Proof.
  intros Hwf Hx0 Hs Hc. unfold DPTHead.scale_map.
  destruct Hwf as (? & ? & ? & ? & ? & _ & Hcls & Hp & _ & Hro & _).
  destruct (DPTHead.use_clstoken self) eqn:Eu.
  - subst cls. destruct (Hro eq_refl) as (ps & Hps & _ & Hall).
    apply raises_bind_l.
    apply raises_bind_r. intros y0 E0.
    rewrite (item_ok _ _ _ _ Hx0) in E0. injection E0 as <-.
    apply raises_bind_r. intros ct _. apply raises_bind_r. intros u _.
    apply raises_bind_r. intros ro Ero. apply expand_as_inv in Ero.
    apply raises_bind_r. intros ps' Eps. apply attr_inv in Eps.
    rewrite Hps in Eps. injection Eps as <-.
    apply raises_bind_r. intros p Ep.
    assert (ps !! i = Some p) as Hpi.
    { unfold item in Ep. destruct (ps !! i); [now injection Ep as ->|discriminate]. }
    apply raises_bind_r. intros ca Eca.
    rewrite Hs in Ero.
    apply (cat_last_same_inv _ _ _ _ _ _ _ Hs Ero) in Eca.
    rewrite Forall_lookup in Hall. destruct (Hall i p Hpi) as (l & -> & Hl).
    cbn. apply raises_bind_l. exists RuntimeError.
    apply (Linear_forward_raises l ca g (2 * in_channels) in_channels Hl).
    intros lead E. rewrite Eca in E.
    destruct lead as [|? [|? [|? lead]]]; try discriminate;
      try (destruct lead; discriminate).
    injection E as _ _ E. lia.
  - apply raises_bind_r. intros t Et.
    rewrite (item_ok _ _ _ _ Hx0) in Et. injection Et as <-.
    apply raises_bind_r. intros tp _.
    apply raises_bind_r. intros r Er. apply reshape_inv in Er.
    rewrite Hs in Er. cbn [ix nth List.last] in Er.
    apply raises_bind_r. intros p Ep.
    assert (DPTHead.projects self !! i = Some p) as Hpi.
    { unfold item in Ep.
      destruct (DPTHead.projects self !! i); [now injection Ep as ->|discriminate]. }
    destruct (Forall2_lookup_l _ _ _ _ _ Hp Hpi) as (oc & _ & Hconv).
    apply raises_bind_l.
    apply (Conv2d_forward_wrong_channels p r g b c ph pw Er).
    destruct Hconv as (Hin & _). now rewrite Hin.
Qed.

(** X16. Embedding width.  A head built for embedding width [in_channels]
    raises on every input holding a scale entry whose tokens have another
    width, with or without class-token fusion, whatever the other entries
    are. *)
Theorem X16_wrong_embedding_width {math : Transcendental} (self : DPTHead.t)
    (in_channels features : N) (use_bn : bool) (out_channels : list N)
    (use_clstoken : bool) (out_features : list (list Tensor))
    (patch_h patch_w : N) (g : bool) (k : nat) (x : list Tensor) (x0 : Tensor)
    (b tokens dim : N) :
  dpt_wf in_channels features use_bn out_channels use_clstoken self ->
  out_features !! k = Some x -> x !! 0%nat = Some x0 ->
  shape x0 = [b; tokens; dim] -> dim <> in_channels ->
  raises (DPTHead.forward self out_features patch_h patch_w) g.
Proof.
  intros Hwf Hk Hx0 Hs Hd. unfold DPTHead.forward. apply raises_bind_l.
  apply (scale_loop_raises self patch_h patch_w g out_features 0 [] k x Hk).
  exact (scale_map_bad_width self g in_channels features use_bn out_channels
           use_clstoken (0 + k) x x0 b tokens dim patch_h patch_w Hwf Hx0 Hs Hd).
Qed.

Lemma X16_witness :
  raises (DPTHead.forward (H := approx) (small_dpt true true)
            [small_entry 2 6; small_entry 2 6;
             [constant [2; 6; 7] fone false; constant [2; 7] fone false];
             small_entry 2 6] 2 3) true
  /\ raises (DPTHead.forward (H := approx) (small_dpt false false)
               [[constant [2; 6; 9] fone false]; small_entry 2 6; small_entry 2 6;
                small_entry 2 6] 2 3) false.
Proof.
  split.
  - apply (X16_wrong_embedding_width (math := approx) (small_dpt true true) 8 4 true
             [2; 3; 4; 5] true _ 2 3 true 2%nat
             [constant [2; 6; 7] fone false; constant [2; 7] fone false]
             (constant [2; 6; 7] fone false) 2 6 7 (small_dpt_wf true true));
      try reflexivity. lia.
  - apply (X16_wrong_embedding_width (math := approx) (small_dpt false false) 8 4 false
             [2; 3; 4; 5] false _ 2 3 false 0%nat
             [constant [2; 6; 9] fone false]
             (constant [2; 6; 9] fone false) 2 6 9 (small_dpt_wf false false));
      try reflexivity. lia.
Defined.

(** ** Module states that compute the same function *)

Lemma agree_refl {A} (R : A -> A -> Prop) (r : result A) :
  (forall a, R a a) -> agree R r r.
Proof. intros HR. destruct r; cbn; auto. Qed.

Lemma agree_bind {A A' B B'} (R : A -> A' -> Prop) (R' : B -> B' -> Prop)
    (m1 : M A) (m2 : M A') (k1 : A -> M B) (k2 : A' -> M B') g :
  agree R (m1 g) (m2 g) ->
  (forall a a', R a a' -> agree R' (k1 a g) (k2 a' g)) ->
  agree R' (bind m1 k1 g) (bind m2 k2 g).
Proof.
  unfold bind. intros Hm Hk.
  destruct (m1 g) as [a|e], (m2 g) as [a'|e']; cbn in *; auto; contradiction.
Qed.

Lemma agree_bind_same {A B B'} (R' : B -> B' -> Prop)
    (m : M A) (k1 : A -> M B) (k2 : A -> M B') g :
  (forall a, m g = Ok a -> agree R' (k1 a g) (k2 a g)) ->
  agree R' (bind m k1 g) (bind m k2 g).
Proof.
  unfold bind. intros Hk. destruct (m g) as [a|e]; cbn; auto.
Qed.

Lemma agree_attr {A B B'} (R : A -> A -> Prop) (R' : B -> B' -> Prop)
    (o1 o2 : option A) (k1 : A -> M B) (k2 : A -> M B') g :
  opt_same R o1 o2 ->
  (forall a a', R a a' -> agree R' (k1 a g) (k2 a' g)) ->
  agree R' (bind (attr o1) k1 g) (bind (attr o2) k2 g).
Proof.
  intros Ho Hk. destruct o1 as [a|], o2 as [a'|]; cbn in Ho; try contradiction.
  - unfold bind. cbn. auto.
  - reflexivity.
Qed.

Lemma agree_ok {A B} (R : A -> B -> Prop) r1 r2 a :
  agree R r1 r2 -> r1 = Ok a -> exists b, r2 = Ok b /\ R a b.
Proof. intros H ->. destruct r2 as [b|e]; cbn in H; [eauto|contradiction]. Qed.

Lemma agree_raise {A B} (R : A -> B -> Prop) r1 r2 e :
  agree R r1 r2 -> r1 = Raise e -> r2 = Raise e.
Proof. intros H ->. destruct r2 as [b|e']; cbn in H; [contradiction|congruence]. Qed.

Lemma bn_equiv_refl a : bn_equiv a a.
Proof. split; [apply bn_same_params_refl|reflexivity]. Qed.

Lemma rcu_equiv_refl a : rcu_equiv a a.
Proof. repeat split; apply opt_same_refl, bn_equiv_refl. Qed.

Lemma ffb_equiv_refl a : ffb_equiv a a.
Proof. repeat split; apply opt_same_refl, bn_equiv_refl. Qed.

(** Batch normalisation in training mode normalises with the statistics of
    its input, so the running statistics it holds do not reach its output. *)
Lemma bn_agree `{Transcendental} a b x g :
  bn_equiv a b ->
  agree (same_output bn_equiv) (BatchNorm2d.forward a x g) (BatchNorm2d.forward b x g).
Proof.
  intros [Hp Hf]. destruct (BatchNorm2d.training a) eqn:Ta.
  - destruct a as [n1 e1 mo1 w1 bi1 rm1 rv1 nb1 t1], b as [n2 e2 mo2 w2 bi2 rm2 rv2 nb2 t2].
    destruct Hp as (Hn & He & Hm & Hw & Hb & Ht). cbn in *. subst.
    unfold BatchNorm2d.forward. cbn.
    destruct (shape x) as [|b0 [|ch [|h [|w [|? ?]]]]]; cbn; auto.
    destruct (b0 * h * w =? 1); cbn; auto.
    destruct (negb _); cbn; auto.
    split; [reflexivity|]. split; [repeat split|discriminate].
  - rewrite (Hf eq_refl). apply agree_refl. intros [y m]. split; [reflexivity|].
    apply bn_equiv_refl.
Qed.

Lemma maybe_bn_agree `{Transcendental} flag b1 b2 out g :
  opt_same bn_equiv b1 b2 ->
  agree (same_output (opt_same bn_equiv))
    (ResidualConvUnit.maybe_bn flag b1 out g) (ResidualConvUnit.maybe_bn flag b2 out g).
Proof.
  intros Hb. unfold ResidualConvUnit.maybe_bn. destruct flag.
  - destruct b1 as [m1|], b2 as [m2|]; cbn in Hb; try contradiction;
      [|reflexivity].
    apply (agree_bind (same_output bn_equiv)); [now apply bn_agree|].
    intros [o1 s1] [o2 s2] [Ho Hs]. cbn in *. subst o2. split; [reflexivity|exact Hs].
  - cbn. split; [reflexivity|exact Hb].
Qed.

Lemma rcu_agree `{Transcendental} a b x g :
  rcu_equiv a b ->
  agree (same_output rcu_equiv)
    (ResidualConvUnit.forward a x g) (ResidualConvUnit.forward b x g).
Proof.
  destruct a as [f1 g1 c1 d1 p1 q1 a1], b as [f2 g2 c2 d2 p2 q2 a2].
  intros (Hf & Hg & Hc & Hd & Hp & Hq & Ha). cbn in *. subst.
  unfold ResidualConvUnit.forward. cbn [ResidualConvUnit.activation
    ResidualConvUnit.conv1 ResidualConvUnit.conv2 ResidualConvUnit.bn
    ResidualConvUnit.bn1 ResidualConvUnit.bn2 ResidualConvUnit.groups].
  apply agree_bind_same. intros o0 _.
  apply agree_bind_same. intros o1 _.
  apply (agree_bind (same_output (opt_same bn_equiv))); [now apply maybe_bn_agree|].
  intros [o2 s1] [o2' s1'] [Ho2 Hs1]. cbn in Ho2, Hs1. subst o2'.
  apply agree_bind_same. intros o3 _.
  apply agree_bind_same. intros o4 _.
  apply (agree_bind (same_output (opt_same bn_equiv))); [now apply maybe_bn_agree|].
  intros [o5 s2] [o5' s2'] [Ho5 Hs2]. cbn in Ho5, Hs2. subst o5'.
  apply agree_bind_same. intros o6 _.
  apply agree_bind_same. intros o7 _.
  cbn. split; [reflexivity|]. cbn. unfold rcu_equiv. cbn. auto 10.
Qed.

Lemma ffb_agree `{Transcendental} a b xs size g :
  ffb_equiv a b ->
  agree (same_output ffb_equiv)
    (FeatureFusionBlock.forward a xs size g) (FeatureFusionBlock.forward b xs size g).
Proof.
  destruct a as [d1 a1 g1 e1 c1 u1 v1 s1], b as [d2 a2 g2 e2 c2 u2 v2 s2].
  intros (Hd & Ha & Hg & He & Hc & Hu & Hv & Hs). cbn in *. subst.
  unfold FeatureFusionBlock.forward. cbn [FeatureFusionBlock.deconv
    FeatureFusionBlock.align_corners FeatureFusionBlock.groups
    FeatureFusionBlock.expand FeatureFusionBlock.out_conv
    FeatureFusionBlock.resConfUnit1 FeatureFusionBlock.resConfUnit2
    FeatureFusionBlock.size].
  destruct xs as [|x rest]; [reflexivity|].
  apply (agree_bind (same_output rcu_equiv)).
  { destruct rest as [|skip [|? ?]]; try (cbn; split; [reflexivity|exact Hu]).
    apply (agree_bind (same_output rcu_equiv)); [now apply rcu_agree|].
    intros [r w1] [r' w1'] [Hr Hw]. cbn in Hr, Hw. subst r'.
    apply agree_bind_same. intros o _. cbn. split; [reflexivity|exact Hw]. }
  intros [o w1] [o' w1'] [Ho Hw1]. cbn in Ho, Hw1. subst o'.
  apply (agree_bind (same_output rcu_equiv)); [now apply rcu_agree|].
  intros [o2 w2] [o2' w2'] [Ho2 Hw2]. cbn in Ho2, Hw2. subst o2'.
  apply agree_bind_same. intros o3 _.
  apply agree_bind_same. intros o4 _.
  cbn. split; [reflexivity|]. cbn. unfold ffb_equiv. cbn. auto 10.
Qed.

Lemma scale_loop_fields `{Transcendental} a b ph pw g feats :
  DPTHead.use_clstoken a = DPTHead.use_clstoken b ->
  DPTHead.projects a = DPTHead.projects b ->
  DPTHead.resize_layers a = DPTHead.resize_layers b ->
  DPTHead.readout_projects a = DPTHead.readout_projects b ->
  forall i out,
    DPTHead.scale_loop a ph pw i feats out g = DPTHead.scale_loop b ph pw i feats out g.
Proof.
  intros Hc Hp Hr Ho. induction feats as [|x feats IH]; intros i out; [reflexivity|].
  cbn [DPTHead.scale_loop]. unfold bind.
  assert (DPTHead.scale_map a ph pw i x g = DPTHead.scale_map b ph pw i x g) as ->.
  { unfold DPTHead.scale_map. now rewrite Hc, Hp, Hr, Ho. }
  destruct (DPTHead.scale_map b ph pw i x g); [apply IH|reflexivity].
Qed.

Lemma dpt_agree `{Transcendental} a b feats ph pw g :
  dpt_equiv a b ->
  agree (same_output dpt_equiv)
    (DPTHead.forward a feats ph pw g) (DPTHead.forward b feats ph pw g).
Proof.
  intros (Hc & Hp & Hr & Ho & Hs). unfold DPTHead.forward.
  apply (agree_bind eq).
  { rewrite (scale_loop_fields a b ph pw g feats Hc Hp Hr Ho 0%nat []).
    now apply agree_refl. }
  intros outs ? <-.
  destruct outs as [|l1 [|l2 [|l3 [|l4 [|? ?]]]]]; try reflexivity.
  destruct Hs as (H1 & H2 & H3 & H4 & Hr1 & Hr2 & Hr3 & Hr4 & Ho1 & Ho2).
  cbv zeta. rewrite H1, H2, H3, H4, Ho1, Ho2, Hc, Hp, Hr, Ho.
  apply agree_bind_same. intros s0 _.
  apply agree_bind_same. intros s1 _.
  apply agree_bind_same. intros s2 _.
  apply agree_bind_same. intros c4 _.
  apply agree_bind_same. intros s3 _.
  apply (agree_attr ffb_equiv); [exact Hr4|]. intros r4 r4' E4.
  apply (agree_bind (same_output ffb_equiv)); [now apply ffb_agree|].
  intros [p4 u4] [p4' u4'] [Hp4 Hu4]. cbn in Hp4, Hu4. subst p4'.
  apply (agree_attr ffb_equiv); [exact Hr3|]. intros r3 r3' E3.
  apply (agree_bind (same_output ffb_equiv)); [now apply ffb_agree|].
  intros [p3 u3] [p3' u3'] [Hp3 Hu3]. cbn in Hp3, Hu3. subst p3'.
  apply (agree_attr ffb_equiv); [exact Hr2|]. intros r2 r2' E2.
  apply (agree_bind (same_output ffb_equiv)); [now apply ffb_agree|].
  intros [p2 u2] [p2' u2'] [Hp2 Hu2]. cbn in Hp2, Hu2. subst p2'.
  apply (agree_attr ffb_equiv); [exact Hr1|]. intros r1 r1' E1.
  apply (agree_bind (same_output ffb_equiv)); [now apply ffb_agree|].
  intros [p1 u1] [p1' u1'] [Hp1 Hu1]. cbn in Hp1, Hu1. subst p1'.
  apply agree_bind_same. intros oc1 _.
  apply agree_bind_same. intros o1 _.
  apply agree_bind_same. intros o2 _.
  apply agree_bind_same. intros oc2 _.
  apply agree_bind_same. intros o3 _.
  cbn. split; [reflexivity|]. cbn. unfold dpt_equiv, scratch_equiv. cbn. auto 20.
Qed.

Lemma dav2_agree `{Transcendental} a b feats g :
  dav2_equiv a b ->
  agree (same_output dav2_equiv)
    (DAv2_Head.forward a feats g) (DAv2_Head.forward b feats g).
Proof.
  intros (He & Hd). unfold DAv2_Head.forward. cbv zeta.
  apply (agree_bind (same_output dpt_equiv)); [now apply dpt_agree|].
  intros [d h] [d' h'] [Hdd Hh]. cbn in Hdd, Hh. subst d'.
  apply agree_bind_same. intros r _.
  apply agree_bind_same. intros s _.
  cbn. split; [reflexivity|]. cbn. split; [exact He|exact Hh].
Qed.

Lemma infer_feats_agree `{Transcendental} a b feats size g :
  dav2_equiv a b ->
  agree (same_output dav2_equiv)
    (DAv2_Head.infer_feats a feats size g) (DAv2_Head.infer_feats b feats size g).
Proof.
  intros Hab. unfold DAv2_Head.infer_feats, no_grad. destruct size as [h w].
  apply (agree_bind (same_output dav2_equiv)); [now apply dav2_agree|].
  intros [d m] [d' m'] [Hd Hm]. cbn in Hd, Hm. subst d'.
  apply agree_bind_same. intros o1 _.
  apply agree_bind_same. intros o2 _.
  apply agree_bind_same. intros o3 _.
  apply agree_bind_same. intros o4 _.
  apply agree_bind_same. intros o5 _.
  cbn. split; [reflexivity|exact Hm].
Qed.

(** A call leaves the module in a state that computes the same function. *)
Lemma maybe_bn_step `{Transcendental} flag b out g o b' :
  ResidualConvUnit.maybe_bn flag b out g = Ok (o, b') -> opt_same bn_equiv b b'.
Proof.
  unfold ResidualConvUnit.maybe_bn. destruct flag.
  - destruct b as [m|]; [|discriminate].
    intros E. apply bind_inv in E as ([o1 m1] & E1 & E2).
    injection E2 as <- <-.
    apply BatchNorm2d_forward_inv in E1 as (_ & Hp & Hf & _).
    cbn. split; assumption.
  - intros E. injection E as <- <-. apply opt_same_refl, bn_equiv_refl.
Qed.

Lemma rcu_step `{Transcendental} r x g y r' :
  ResidualConvUnit.forward r x g = Ok (y, r') -> rcu_equiv r r'.
Proof.
  intros E. unfold ResidualConvUnit.forward in E.
  apply bind_inv in E as (a0 & _ & E).
  apply bind_inv in E as (a1 & _ & E).
  apply bind_inv in E as ([a2 bn1'] & E2 & E). apply maybe_bn_step in E2.
  apply bind_inv in E as (a3 & _ & E).
  apply bind_inv in E as (a4 & _ & E).
  apply bind_inv in E as ([a5 bn2'] & E5 & E). apply maybe_bn_step in E5.
  apply bind_inv in E as (a6 & _ & E).
  apply bind_inv in E as (a7 & _ & E). injection E as <- <-.
  unfold rcu_equiv. cbn. auto 10.
Qed.

Lemma ffb_step `{Transcendental} f xs size g out f' :
  FeatureFusionBlock.forward f xs size g = Ok (out, f') -> ffb_equiv f f'.
Proof.
  intros E. unfold FeatureFusionBlock.forward in E.
  destruct xs as [|x rest]; [discriminate|].
  apply bind_inv in E as ([o unit1] & E1 & E).
  apply bind_inv in E as ([o2 unit2] & E2 & E). apply rcu_step in E2.
  apply bind_inv in E as (z & _ & E).
  apply bind_inv in E as (out' & _ & E). injection E as <- <-.
  assert (rcu_equiv (FeatureFusionBlock.resConfUnit1 f) unit1) as H1.
  { destruct rest as [|skip [|? ?]];
      try (injection E1 as <- <-; apply rcu_equiv_refl).
    apply bind_inv in E1 as ([r u] & Er & E1). apply rcu_step in Er.
    apply bind_inv in E1 as (s & _ & E1). now injection E1 as <- <-. }
  unfold ffb_equiv. cbn. auto 10.
Qed.

Lemma dpt_step `{Transcendental} self feats ph pw g out self' :
  DPTHead.forward self feats ph pw g = Ok (out, self') -> dpt_equiv self self'.
Proof.
  intros E. apply dpt_forward_inv in E. cbv zeta in E.
  destruct E as (l1 & l2 & l3 & l4 & s0 & s1 & s2 & s3 & c4 & r1 & r2 & r3 & r4
    & p4 & p3 & p2 & p1 & r1' & r2' & r3' & r4' & oc1 & oc2 & y1 & y2
    & _ & _ & _ & _ & _ & _ & Er4 & Er3 & Er2 & Er1 & E4 & E3 & E2 & E1 & _ & _ & _
    & _ & _ & ->).
  apply ffb_step in E4. apply ffb_step in E3.
  apply ffb_step in E2. apply ffb_step in E1.
  unfold dpt_equiv, scratch_equiv. cbn. rewrite Er1, Er2, Er3, Er4. cbn. auto 20.
Qed.

Lemma dav2_step `{Transcendental} m feats g depth m' :
  DAv2_Head.forward m feats g = Ok (depth, m') -> dav2_equiv m m'.
Proof.
  intros E. unfold DAv2_Head.forward in E.
  apply bind_inv in E as ([d head] & Ed & E).
  apply bind_inv in E as (r & _ & E). apply bind_inv in E as (q & _ & E).
  injection E as <- <-. apply dpt_step in Ed. split; [reflexivity|exact Ed].
Qed.

Lemma infer_feats_step `{Transcendental} m feats size g arr m' :
  DAv2_Head.infer_feats m feats size g = Ok (arr, m') -> dav2_equiv m m'.
Proof.
  unfold DAv2_Head.infer_feats, no_grad. destruct size as [h w]. intros E.
  apply bind_inv in E as ([d m1] & Ed & E). apply dav2_step in Ed.
  apply bind_inv in E as (o1 & _ & E). apply bind_inv in E as (o2 & _ & E).
  apply bind_inv in E as (o3 & _ & E). apply bind_inv in E as (o4 & _ & E).
  apply bind_inv in E as (o5 & _ & E). now injection E as <- <-.
Qed.

(** X17. Earlier calls do not change the result.  After a call of [forward]
    or of [infer_feats] has returned, the module it leaves behind gives, on
    every input and in either gradient mode, the result the module gave
    before the call: the same depth map or array when it returned one, the
    same exception otherwise.  The running statistics that batch
    normalisation updates in training mode are never read there. *)
Theorem X17_result_independent_of_history {math : Transcendental}
    (m m' : DAv2_Head.t) (feats0 : list (list Tensor)) (g0 : bool) :
  (exists depth, DAv2_Head.forward m feats0 g0 = Ok (depth, m'))
  \/ (exists arr size, DAv2_Head.infer_feats m feats0 size g0 = Ok (arr, m')) ->
  forall (feats : list (list Tensor)) (g : bool),
    (forall depth m1,
       DAv2_Head.forward m feats g = Ok (depth, m1) ->
       exists m2, DAv2_Head.forward m' feats g = Ok (depth, m2))
    /\ (forall e,
          DAv2_Head.forward m feats g = Raise e ->
          DAv2_Head.forward m' feats g = Raise e)
    /\ (forall size arr m1,
          DAv2_Head.infer_feats m feats size g = Ok (arr, m1) ->
          exists m2, DAv2_Head.infer_feats m' feats size g = Ok (arr, m2))
    /\ (forall size e,
          DAv2_Head.infer_feats m feats size g = Raise e ->
          DAv2_Head.infer_feats m' feats size g = Raise e).
Proof.
  intros Hcall feats g.
  assert (dav2_equiv m m') as Hmm.
  { destruct Hcall as [(depth & E)|(arr & size & E)].
    - exact (dav2_step m feats0 g0 depth m' E).
    - exact (infer_feats_step m feats0 size g0 arr m' E). }
  pose proof (dav2_agree m m' feats g Hmm) as Hf.
  split; [|split; [|split]].
  - intros depth m1 E.
    destruct (agree_ok _ _ _ _ Hf E) as ([d m2] & E2 & Hd & _).
    cbn in Hd. subst d. now exists m2.
  - intros e E. exact (agree_raise _ _ _ _ Hf E).
  - intros size arr m1 E.
    destruct (agree_ok _ _ _ _ (infer_feats_agree m m' feats size g Hmm) E)
      as ([a m2] & E2 & Ha & _).
    cbn in Ha. subst a. now exists m2.
  - intros size e E.
    exact (agree_raise _ _ _ _ (infer_feats_agree m m' feats size g Hmm) E).
Qed.

Lemma X17_witness :
  let m := sample_head true false in
  let r := output_of (DAv2_Head.forward (H := approx) m (sample_feats 1) true)
             blank_tensor m in
  DAv2_Head.forward (H := approx) m (sample_feats 1) true = Ok (fst r, snd r)
  /\ forall (feats : list (list Tensor)) (g : bool),
    (forall depth m1,
       DAv2_Head.forward (H := approx) m feats g = Ok (depth, m1) ->
       exists m2, DAv2_Head.forward (H := approx) (snd r) feats g = Ok (depth, m2))
    /\ (forall e,
          DAv2_Head.forward (H := approx) m feats g = Raise e ->
          DAv2_Head.forward (H := approx) (snd r) feats g = Raise e)
    /\ (forall size arr m1,
          DAv2_Head.infer_feats (H := approx) m feats size g = Ok (arr, m1) ->
          exists m2,
            DAv2_Head.infer_feats (H := approx) (snd r) feats size g = Ok (arr, m2))
    /\ (forall size e,
          DAv2_Head.infer_feats (H := approx) m feats size g = Raise e ->
          DAv2_Head.infer_feats (H := approx) (snd r) feats size g = Raise e).
Proof.
  intros m r.
  assert (is_ok (DAv2_Head.forward (H := approx) m (sample_feats 1) true) = true)
    as Hok by (vm_compute; reflexivity).
  pose proof (output_of_ok _ blank_tensor m Hok) as Hr. fold r in Hr.
  clearbody r. clearbody m.
  split; [exact Hr|].
  exact (X17_result_independent_of_history (math := approx) m (snd r)
           (sample_feats 1) true (or_introl (ex_intro _ (fst r) Hr))).
Defined.

(** ** The constructor of the task-token head *)

(** X18. The constructor of the task-token head raises TypeError without a
    configuration and KeyError when the configuration lacks any one of the
    six keys it reads.  When it returns, the flag of the head is the
    constructor argument, the auxiliary perceptrons map the output width to
    itself, and the resampler was built from the six configured values with
    the hidden width of the language model passed both as its width and as
    its embedding width. *)
Theorem X18_TaskTokenDepthHead_init_config {R : TaskTokenResamplerModel}
    (llm_hidden_size : N) (use_intermediate_depth : bool) (gen : Generator) :
  TaskTokenDepthHead.init None llm_hidden_size use_intermediate_depth gen
  = Raise TypeError
  /\ (forall (d : gmap string N) key,
        In key resampler_keys -> d !! key = None ->
        TaskTokenDepthHead.init (Some d) llm_hidden_size use_intermediate_depth gen
        = Raise KeyError)
  /\ (forall (d : gmap string N) m gen',
        TaskTokenDepthHead.init (Some d) llm_hidden_size use_intermediate_depth gen
        = Ok (m, gen') ->
        TaskTokenDepthHead.use_intermediate_depth m = use_intermediate_depth
        /\ exists output_dim depth dim_head heads num_tokens ff_mult gen1,
             d !! "output_dim" = Some output_dim /\ d !! "depth" = Some depth
             /\ d !! "dim_head" = Some dim_head /\ d !! "num_heads" = Some heads
             /\ d !! "num_tokens" = Some num_tokens /\ d !! "ff_mult" = Some ff_mult
             /\ TaskTokenResampler_init llm_hidden_size depth dim_head heads
                  num_tokens llm_hidden_size output_dim ff_mult gen
                = Ok (TaskTokenDepthHead.projector m, gen1)
             /\ task_head_wf output_dim m).
Proof.
  split; [reflexivity|]. split.
  - intros d key Hin Hk. unfold TaskTokenDepthHead.init.
    destruct (d !! "depth") as [v2|] eqn:E2;
      [rewrite (config_step _ _ _ _ _ E2)|now rewrite (config_fail _ _ _ _ E2)].
    destruct (d !! "dim_head") as [v3|] eqn:E3;
      [rewrite (config_step _ _ _ _ _ E3)|now rewrite (config_fail _ _ _ _ E3)].
    destruct (d !! "num_heads") as [v4|] eqn:E4;
      [rewrite (config_step _ _ _ _ _ E4)|now rewrite (config_fail _ _ _ _ E4)].
    destruct (d !! "num_tokens") as [v5|] eqn:E5;
      [rewrite (config_step _ _ _ _ _ E5)|now rewrite (config_fail _ _ _ _ E5)].
    destruct (d !! "output_dim") as [v1|] eqn:E1;
      [rewrite (config_step _ _ _ _ _ E1)|now rewrite (config_fail _ _ _ _ E1)].
    destruct (d !! "ff_mult") as [v6|] eqn:E6;
      [rewrite (config_step _ _ _ _ _ E6)|now rewrite (config_fail _ _ _ _ E6)].
    exfalso. cbn in Hin.
    destruct Hin as [<-|[<-|[<-|[<-|[<-|[<-|[]]]]]]]; congruence.
  - intros d m gen' E.
    destruct (TaskTokenDepthHead_init_inv _ _ _ _ _ _ E) as (Hu & d' & od & Hd & Ho & W).
    injection Hd as <-. split; [exact Hu|].
    unfold TaskTokenDepthHead.init in E.
    destruct (d !! "depth") as [v2|] eqn:E2;
      [rewrite (config_step _ _ _ _ _ E2) in E
      |rewrite (config_fail _ _ _ _ E2) in E; discriminate].
    destruct (d !! "dim_head") as [v3|] eqn:E3;
      [rewrite (config_step _ _ _ _ _ E3) in E
      |rewrite (config_fail _ _ _ _ E3) in E; discriminate].
    destruct (d !! "num_heads") as [v4|] eqn:E4;
      [rewrite (config_step _ _ _ _ _ E4) in E
      |rewrite (config_fail _ _ _ _ E4) in E; discriminate].
    destruct (d !! "num_tokens") as [v5|] eqn:E5;
      [rewrite (config_step _ _ _ _ _ E5) in E
      |rewrite (config_fail _ _ _ _ E5) in E; discriminate].
    rewrite (config_step _ _ _ _ _ Ho) in E.
    destruct (d !! "ff_mult") as [v6|] eqn:E6;
      [rewrite (config_step _ _ _ _ _ E6) in E
      |rewrite (config_fail _ _ _ _ E6) in E; discriminate].
    apply ibind_inv in E as (proj & gen1 & Ep & E).
    exists od, v2, v3, v4, v5, v6, gen1.
    do 6 (split; [reflexivity || assumption|]). split; [|exact W].
    rewrite Ep. do 2 f_equal.
    destruct use_intermediate_depth.
    + do 9 (apply ibind_inv in E as (? & ? & _ & E)). now injection E as <- _.
    + now injection E as <- _.
Qed.

Lemma X18_witness :
  @TaskTokenDepthHead.init pooling_task_resampler
    (Some (delete "ff_mult" sample_config)) 6 true gen0 = Raise KeyError
  /\ let m := sample_task_head true in
     @TaskTokenDepthHead.use_intermediate_depth pooling_task_resampler m = true
     /\ exists output_dim depth dim_head heads num_tokens ff_mult gen1,
          sample_config !! "output_dim" = Some output_dim
          /\ sample_config !! "depth" = Some depth
          /\ sample_config !! "dim_head" = Some dim_head
          /\ sample_config !! "num_heads" = Some heads
          /\ sample_config !! "num_tokens" = Some num_tokens
          /\ sample_config !! "ff_mult" = Some ff_mult
          /\ @TaskTokenResampler_init pooling_task_resampler 6 depth dim_head heads
               num_tokens 6 output_dim ff_mult gen0
             = Ok (@TaskTokenDepthHead.projector pooling_task_resampler m, gen1)
          /\ @task_head_wf pooling_task_resampler output_dim m.
Proof.
  destruct (X18_TaskTokenDepthHead_init_config (R := pooling_task_resampler) 6 true gen0)
    as (_ & Hmissing & Hbuilt).
  split.
  - apply (Hmissing _ "ff_mult"); [cbn; auto 10|]. vm_compute. reflexivity.
  - intros m.
    assert (is_ok (@TaskTokenDepthHead.init pooling_task_resampler (Some sample_config)
                     6 true gen0) = true) as Hok by (vm_compute; reflexivity).
    pose proof (output_of_ok _ m gen0 Hok) as Hr.
    assert (fst (output_of (@TaskTokenDepthHead.init pooling_task_resampler
                              (Some sample_config) 6 true gen0) m gen0) = m) as Hm.
    { unfold m, sample_task_head.
      destruct (TaskTokenDepthHead.init (Some sample_config) 6 true gen0)
        as [[a b]|]; [reflexivity|discriminate]. }
    rewrite Hm in Hr. exact (Hbuilt sample_config m _ Hr).
Defined.

(** ** The constructor of the fusion block *)

(** X19. Channels of a fusion block.  The constructor of the fusion block
    always returns, and the block it builds with an activation that is not
    in-place maps a tensor of [features] channels, alone or with a skip
    tensor of the same shape, to a tensor of [features // 2] channels when it
    was built with [expand], of [features] channels otherwise, at the resize
    target, provided that this number of output channels is not zero.  A
    block whose number of output channels is zero raises on every call. *)
Theorem X19_fusion_block_channels {math : Transcendental} (features : N)
    (activation : Layer) (deconv bn expand align_corners : bool)
    (size : option (list N)) (gen : Generator) :
  pointwise activation ->
  exists f gen',
    FeatureFusionBlock.init features activation deconv bn expand align_corners size gen
    = Ok (f, gen')
    /\ (forall xs x explicit g b h w ho wo,
          fusion_inputs xs x ->
          shape x = [b; features; h; w] -> h <> 0 -> w <> 0 ->
          (bn = true -> b * h * w <> 1) ->
          resize_target_spec explicit size h w = [ho; wo] -> ho <> 0 -> wo <> 0 ->
          0 < (if expand then features / 2 else features) ->
          Layers.overwrites_input activation = false ->
          exists out f',
            FeatureFusionBlock.forward f xs explicit g = Ok (out, f')
            /\ shape out = [b; if expand then features / 2 else features; ho; wo])
    /\ ((if expand then features / 2 else features) = 0 ->
        forall xs explicit g, raises (FeatureFusionBlock.forward f xs explicit) g).
Proof.
  intros Ha.
  destruct (is_ok_inv _ (total_ffb_init features activation deconv bn expand
                           align_corners size gen)) as ([f gen'] & E).
  exists f, gen'. split; [exact E|].
  pose proof (FeatureFusionBlock_init_activation _ _ _ _ _ _ _ _ _ _ E) as [Ea1 Ea2].
  apply FeatureFusionBlock_init_inv in E as [Hwf _]; [|exact Ha].
  split.
  - intros xs x explicit g b h w ho wo Hxs Hx Hh Hw Hn Ht Hho Hwo Hout Hact.
    destruct (ffb_returns f xs x explicit g features bn expand size b h w ho wo
                Hwf Hxs Hx Hh Hw Hn Ht Hho Hwo ltac:(lia))
      as ([out f'] & E & Hs & _).
    { apply fusion_accepts_not_inplace; congruence. }
    now exists out, f'.
  - intros Hz xs explicit g.
    destruct (FeatureFusionBlock.forward f xs explicit g) as [[out f']|e] eqn:E;
      [|now exists e].
    destruct (ffb_inv f xs explicit g features bn expand size out f' Hwf E)
      as (x & rest & fused & z & b & h & w & ho & wo & _ & _ & _ & _ & Eo & _).
    apply Conv2d_forward_inv in Eo as (? & ? & ? & ? & ? & _ & _ & _ & _ & Hno & _).
    destruct Hwf as ((_ & Hoc & _) & _). rewrite Hoc in Hno. contradiction.
Qed.

Lemma X19_witness :
  exists f gen',
    FeatureFusionBlock.init 5 (L_ReLU false) false true true true None gen0
    = Ok (f, gen')
    /\ exists out f',
         FeatureFusionBlock.forward (H := approx) f
           [constant [2; 5; 3; 3] fone false; constant [2; 5; 3; 3] (fofN 2) false] None true
         = Ok (out, f')
         /\ shape out = [2; 2; 6; 6].
Proof.
  destruct (X19_fusion_block_channels (math := approx) 5 (L_ReLU false) false true
              true true None gen0 I) as (f & gen' & E & Hcall & _).
  exists f, gen'. split; [exact E|].
  apply (Hcall _ (constant [2; 5; 3; 3] fone false) None true 2 3 3 6 6);
    try reflexivity; try lia.
  right. exists (constant [2; 5; 3; 3] (fofN 2) false). split; reflexivity.
Defined.

(** ** Degenerate image sizes *)

Lemma interpolate_empty_target x a g ho wo :
  ho = 0 \/ wo = 0 -> raises (interpolate x (Size [ho; wo]) a) g.
Proof.
  intros Hz. unfold interpolate, raises.
  destruct (negb _); [now eexists|].
  destruct (shape x) as [|b [|c [|h [|w [|? ?]]]]]; try (now eexists).
  assert ((h =? 0) || (w =? 0) || (ho =? 0) || (wo =? 0) = true) as ->.
  { destruct Hz as [-> | ->]; cbn; now rewrite ?orb_true_r. }
  now eexists.
Qed.

(** X20. Empty image size.  The inference entry point returns no array for
    an image size with a zero height or a zero width: whatever the module and
    the features are, the call raises. *)
Theorem X20_infer_feats_empty_size {math : Transcendental} (m : DAv2_Head.t)
    (feats : list (list Tensor)) (h w : N) (g : bool) :
  h = 0 \/ w = 0 ->
  raises (DAv2_Head.infer_feats m feats (h, w)) g.
Proof.
  intros Hz. unfold DAv2_Head.infer_feats, no_grad.
  apply raises_bind_r. intros [depth m'] _.
  apply raises_bind_r. intros u _.
  apply raises_bind_l. now apply interpolate_empty_target.
Qed.

Lemma X20_witness :
  raises (DAv2_Head.infer_feats (H := approx) (sample_head false false)
            (sample_feats 1) (0, 336)) true
  /\ raises (DAv2_Head.infer_feats (H := approx) (sample_head false false)
               (sample_feats 1) (336, 0)) true.
Proof.
  split.
  - apply (X20_infer_feats_empty_size (math := approx)); left; reflexivity.
  - apply (X20_infer_feats_empty_size (math := approx)); right; reflexivity.
Defined.
